(** * refiners: image-prompt adapters and the DDIM scheduler

    A shallow embedding of
      - [refiners/foundationals/latent_diffusion/schedulers/ddim.py]
      - [refiners/foundationals/latent_diffusion/image_prompt.py]
      - [refiners/foundationals/latent_diffusion/stable_diffusion_1/image_prompt.py]
      - [refiners/fluxion/layers/norm.py]
    together with the properties the specification states about them. *)

From Stdlib Require Import ZArith Lia String Ascii DecimalString Reals.
From Stdlib Require DecimalNat.
From stdpp Require Import base option list list_numbers strings gmap.

Local Open Scope Z_scope.

(** ** Python values shared by every part of the development *)

Module Py.

(** The exception classes the modelled code can raise. *)
Inductive exn : Set :=
| TypeError
| NameError
| AssertionError
| IndexError
| ZeroDivisionError
| RuntimeError
| AttributeError
(** The two conditions below are the specification's names for failures of
    the graph framework (its error taxonomy). *)
| StructuralNotFound
| InvalidAdapterState.

(** The outcome of running a piece of Python: a value, or a raised
    exception that unwinds to the caller. *)
Inductive res (A : Type) : Type :=
| Ok (a : A)
| Raise (e : exn).
Arguments Ok {A} a.
Arguments Raise {A} e.

Definition bind {A B} (m : res A) (k : A -> res B) : res B :=
  match m with
  | Ok a => k a
  | Raise e => Raise e
  end.

(** [of_option e o]: a lookup that raises [e] when it has no result. *)
Definition of_option {A} (e : exn) (o : option A) : res A :=
  match o with
  | Some a => Ok a
  | None => Raise e
  end.

(** Indexing of a Python sequence or of a one-dimensional tensor:
    a negative index counts from the end, anything outside
    [-len, len) has no element. *)
Definition seq_get {A} (l : list A) (i : Z) : option A :=
  let len := Z.of_nat (length l) in
  if bool_decide (0 <= i) then l !! Z.to_nat i
  else if bool_decide (- len <= i) then l !! Z.to_nat (len + i)
  else None.

Definition getitem {A} (l : list A) (i : Z) : res A :=
  of_option IndexError (seq_get l i).

End Py.

Notation "x <- m ;; k" := (Py.bind m (fun x => k))
  (at level 100, m at next level, right associativity,
   format "x  <-  m  ;;  '/' k").

(** ** The DDIM scheduler ([schedulers/ddim.py]) *)

Module DDIM.
Import Py.

Section Scheduler.
(** Samples, noise estimates and scale factors are torch tensors; the
    scheduler only combines them with the arithmetic below, so the
    arithmetic is kept abstract. *)
Context {Tensor : Type}.
Variables (tadd tsub tmul tdiv : Tensor -> Tensor -> Tensor).
Variable tsqrt : Tensor -> Tensor.
(** [tpow t k] is [t ** k]; [rsub k t] is [k - t] for a Python int [k]. *)
Variable tpow : Tensor -> Z -> Tensor.
Variable rsub : Z -> Tensor -> Tensor.

(** The fields of a constructed [DDIM].  [cumulative_scale_factors] is
    computed by the [Scheduler] base class from the noise schedule; it
    is a one-dimensional tensor indexed by training timestep. *)
Record t : Type := mk {
  num_inference_steps : Z;
  num_train_timesteps : Z;
  cumulative_scale_factors : list Tensor;
  timesteps : list Z
}.

(** [torch.arange(start=0, end=n, step=1)]. *)
Definition arange (n : Z) : res (list Z) :=
  if bool_decide (n < 0) then Raise RuntimeError else Ok (seqZ 0 n).

(** [DDIM._generate_timesteps].  The timesteps are an int64 tensor.  The
    arithmetic below is exact; it is what the tensor holds as long as no
    value leaves the int64 range, which is so for a number of training
    timesteps in [[0, 2^63)]. *)
Definition _generate_timesteps (num_inference_steps num_train_timesteps : Z)
  : res (list Z) :=
  step_ratio <- (if bool_decide (num_inference_steps = 0)
                 then Raise ZeroDivisionError
                 else Ok (num_train_timesteps `div` num_inference_steps)) ;;
  r <- arange num_inference_steps ;;
  let timesteps := (fun k => k * step_ratio + 1) <$> r in
  Ok (reverse timesteps).

(** [DDIM.__init__]: the base class stores the step counts and the
    scale factors, then the timesteps are generated.  The initializer of
    the base class [Scheduler] is not among the sources; what it stores is
    given here, and where it raises there is no scheduler.  The definition
    therefore says what a constructed scheduler holds; it does not say
    for which arguments the constructor returns. *)
Definition __init__ (num_inference_steps num_train_timesteps : Z)
    (csf : list Tensor) : res t :=
  ts <- _generate_timesteps num_inference_steps num_train_timesteps ;;
  Ok (mk num_inference_steps num_train_timesteps csf ts).

(** [DDIM.__call__].  The two conditional expressions are lazy: only
    the selected branch is evaluated. *)
Definition __call__ (self : t) (x noise : Tensor) (step : Z) : res Tensor :=
  timestep <- getitem (timesteps self) step ;;
  previous_timestep <-
    (if bool_decide (step < num_inference_steps self - 1)
     then getitem (timesteps self) (step + 1)
     else Ok 0) ;;
  current_scale_factor <- getitem (cumulative_scale_factors self) timestep ;;
  previous_scale_factor <-
    (if bool_decide (previous_timestep > 0)
     then getitem (cumulative_scale_factors self) previous_timestep
     else getitem (cumulative_scale_factors self) 0) ;;
  let predicted_x :=
    tdiv (tsub x (tmul (tsqrt (rsub 1 (tpow current_scale_factor 2))) noise))
         current_scale_factor in
  let denoised_x :=
    tadd (tmul previous_scale_factor predicted_x)
         (tmul (tsqrt (rsub 1 (tpow previous_scale_factor 2))) noise) in
  Ok denoised_x.

(** The update rule in the words of the specification: the denoised
    estimate [x0], then the sample at the previous step. *)
Definition x0_of (a x noise : Tensor) : Tensor :=
  tdiv (tsub x (tmul (tsqrt (rsub 1 (tpow a 2))) noise)) a.

Definition x_prev_of (a a_prev x noise : Tensor) : Tensor :=
  tadd (tmul a_prev (x0_of a x noise))
       (tmul (tsqrt (rsub 1 (tpow a_prev 2))) noise).

End Scheduler.

(** A timestep sequence is strictly decreasing. *)
Fixpoint strictly_decreasing (l : list Z) : bool :=
  match l with
  | a :: (b :: _) as tl => bool_decide (b < a) && strictly_decreasing tl
  | _ => true
  end.

(** The least element of a non-empty sequence. *)
Definition minimum (l : list Z) : option Z :=
  match l with
  | [] => None
  | a :: tl => Some (foldr Z.min a tl)
  end.

(** The arithmetic over the reals, and a scheduler with 50 steps over 1000
    training timesteps whose scale factors are all one half. *)
Definition real_step : DDIM.t -> R -> R -> Z -> res R :=
  __call__ Rplus Rminus Rmult Rdiv sqrt
           (fun t k => pow t (Z.to_nat k)) (fun k t => Rminus (IZR k) t).

Definition example_factors : list R := replicate 1000 (/ 2)%R.

Definition example_scheduler : DDIM.t :=
  mk 50 1000 example_factors ((fun k => 981 - 20 * k) <$> seqZ 0 50).

End DDIM.

(** ** The module graph and the adapter lifecycle

    Modules are Python objects: two modules are the same when they are the
    same object.  The graph is therefore a store from object identities to
    the ordered child list of each chain, and every operation of the
    lifecycle is a mutation of that store. *)

Module Graph.
Import Py.
Local Open Scope nat_scope.

Definition oid := nat.

(** What the lifecycle did, in the order it did it. *)
Inductive event : Set :=
| Injected (adapter : oid)
| Ejected (adapter : oid)
| Inserted (chain : oid) (index : nat) (module : oid)
| Popped (chain : oid) (index : nat) (module : oid).

(** [kids]: the child list of every chain.  [slot_of]: the injection state
    of every adapter, absent for NOT_INJECTED and, for INJECTED, the parent
    chain whose slot the adapter occupies ([None] at a root).  [trace]: the
    mutations performed so far. *)
Record Store : Type := mkStore {
  kids : gmap oid (list oid);
  slot_of : gmap oid (option oid);
  trace : list event
}.

(** Replace the first element identical to [old] by [new], in place. *)
Fixpoint replace_first (old new : oid) (l : list oid) : list oid :=
  match l with
  | [] => []
  | y :: l' =>
      if decide (y = old) then new :: l' else y :: replace_first old new l'
  end.

(** Modelled from the spec: [Chain] (fluxion/layers/chain.py) is not among
    the sources.  The specification gives a chain an ordered child list
    with insertion and removal at an index and in-place replacement of a
    specific child.  [Chain.insert(index, module)]. *)
Definition Chain_insert (chain : oid) (index : nat) (module : oid) (s : Store)
  : res Store :=
  match kids s !! chain with
  | None => Raise AttributeError
  | Some l =>
      Ok (mkStore (<[chain := take index l ++ module :: drop index l]> (kids s))
                  (slot_of s)
                  (trace s ++ [Inserted chain index module]))
  end.

(** Modelled from the spec: [Chain.pop(index)], the removal at an index of
    the specification's chain. *)
Definition Chain_pop (chain : oid) (index : nat) (s : Store) : res Store :=
  match kids s !! chain with
  | None => Raise AttributeError
  | Some l =>
      match l !! index with
      | None => Raise IndexError
      | Some module =>
          Ok (mkStore (<[chain := delete index l]> (kids s))
                      (slot_of s)
                      (trace s ++ [Popped chain index module]))
      end
  end.

(** Modelled from the spec: [Chain.replace(old, new)] on a direct child;
    the specification requires the old child to be present. *)
Definition Chain_replace (chain old new : oid) (s : Store) : res Store :=
  match kids s !! chain with
  | None => Raise StructuralNotFound
  | Some l =>
      if bool_decide (old ∈ l)
      then Ok (mkStore (<[chain := replace_first old new l]> (kids s))
                       (slot_of s) (trace s))
      else Raise StructuralNotFound
  end.

(** [module] is a direct child of [chain]. *)
Definition resides (module chain : oid) (s : Store) : bool :=
  match kids s !! chain with
  | Some l => bool_decide (module ∈ l)
  | None => false
  end.

(** Modelled from the spec: [Adapter] (fluxion/adapters/adapter.py) is not
    among the sources.  An adapter holds a reference to its original target
    and the parent chain recorded when it was set up; the adapter object
    itself wraps the replacement subtree, and its injection state lives in
    [slot_of]. *)
Record Adapter : Type := mkAdapter {
  ident : oid;
  target : oid;
  parent : option oid
}.

(** Modelled from the spec: [Adapter.inject(parent?)] is valid only from
    NOT_INJECTED; if the target resides in the parent chain its slot is
    replaced by the adapter itself; the state becomes INJECTED. *)
Definition Adapter_inject (self : Adapter) (parent_arg : option oid) (s : Store)
  : res Store :=
  match slot_of s !! ident self with
  | Some _ => Raise InvalidAdapterState
  | None =>
      let p := match parent_arg with Some c => Some c | None => parent self end in
      s1 <- match p with
            | Some c =>
                if resides (target self) c s
                then Chain_replace c (target self) (ident self) s
                else Ok s
            | None => Ok s
            end ;;
      Ok (mkStore (kids s1) (<[ident self := p]> (slot_of s1))
                  (trace s1 ++ [Injected (ident self)]))
  end.

(** Modelled from the spec: [Adapter.eject()] is valid only from INJECTED;
    the slot the adapter occupies is restored to the original target
    reference; the state becomes NOT_INJECTED. *)
Definition Adapter_eject (self : Adapter) (s : Store) : res Store :=
  match slot_of s !! ident self with
  | None => Raise InvalidAdapterState
  | Some p =>
      s1 <- match p with
            | Some c =>
                if resides (ident self) c s
                then Chain_replace c (ident self) (target self) s
                else Ok s
            | None => Ok s
            end ;;
      Ok (mkStore (kids s1) (delete (ident self) (slot_of s1))
                  (trace s1 ++ [Ejected (ident self)]))
  end.

(** Run [f] over [l] from left to right, threading the store and stopping
    at the first exception: a Python [for] loop over [l]. *)
Fixpoint for_each {A} (f : A -> Store -> res Store) (l : list A) (s : Store)
  : res Store :=
  match l with
  | [] => Ok s
  | a :: l' => s1 <- f a s ;; for_each f l' s1
  end.

(** The part of an [IPAdapter] (image_prompt.py) the lifecycle touches: it
    is itself an adapter around the U-Net, it owns one
    [CrossAttentionAdapter] per cross-attention layer, and when
    [use_pooled_text_embedding] is set it owns a
    [PooledTextEmbeddingTimestepEncoder]. *)
Record IPAdapter : Type := mkIPAdapter {
  base : Adapter;
  sub_adapters : list Adapter;
  use_pooled_text_embedding : bool;
  pooled_text_embedding_proj : oid
}.

(** [IPAdapter.inject]. *)
Definition IPAdapter_inject (self : IPAdapter) (parent_arg : option oid)
    (s : Store) : res Store :=
  s1 <- for_each (fun adapter => Adapter_inject adapter None)
                 (sub_adapters self) s ;;
  s2 <- (if use_pooled_text_embedding self
         then Chain_insert (target (base self)) 0
                           (pooled_text_embedding_proj self) s1
         else Ok s1) ;;
  Adapter_inject (base self) parent_arg s2.

(** [IPAdapter.eject]. *)
Definition IPAdapter_eject (self : IPAdapter) (s : Store) : res Store :=
  s1 <- for_each Adapter_eject (sub_adapters self) s ;;
  s2 <- (if use_pooled_text_embedding self
         then Chain_pop (target (base self)) 0 s1
         else Ok s1) ;;
  Adapter_eject (base self) s2.

(** [n] rounds of [inject] followed by [eject]. *)
Fixpoint cycles (self : IPAdapter) (parent_arg : option oid) (n : nat)
    (s : Store) : res Store :=
  match n with
  | O => Ok s
  | S n' =>
      s1 <- IPAdapter_inject self parent_arg s ;;
      s2 <- IPAdapter_eject self s1 ;;
      cycles self parent_arg n' s2
  end.

(** The parent chain an injection of [a] acts on: [parent or self.parent]. *)
Definition slot_parent (a : Adapter) (parent_arg : option oid) : option oid :=
  match parent_arg with Some c => Some c | None => parent a end.

(** [a] with the parent chain it is injected into made explicit. *)
Definition with_parent (a : Adapter) (parent_arg : option oid) : Adapter :=
  mkAdapter (ident a) (target a) (slot_parent a parent_arg).

(** The effect of a replacement on the child lists: nothing changes when
    there is no parent chain or the old child is not in it. *)
Definition replace_in (p : option oid) (old new : oid)
    (K : gmap oid (list oid)) : gmap oid (list oid) :=
  match p with
  | Some c => alter (replace_first old new) c K
  | None => K
  end.

Definition inject_kids (K : gmap oid (list oid)) (a : Adapter) :=
  replace_in (parent a) (target a) (ident a) K.

Definition eject_kids (K : gmap oid (list oid)) (a : Adapter) :=
  replace_in (parent a) (ident a) (target a) K.

(** The same effects seen from one chain [c]. *)
Definition inject_at (c : oid) (l : list oid) (a : Adapter) : list oid :=
  if decide (parent a = Some c) then replace_first (target a) (ident a) l else l.

Definition eject_at (c : oid) (l : list oid) (a : Adapter) : list oid :=
  if decide (parent a = Some c) then replace_first (ident a) (target a) l else l.

(** Marking and unmarking the injection state of an adapter. *)
Definition mark (F : gmap oid (option oid)) (a : Adapter) : gmap oid (option oid) :=
  <[ident a := parent a]> F.

Definition unmark (F : gmap oid (option oid)) (a : Adapter) : gmap oid (option oid) :=
  delete (ident a) F.

(** The insertion of the projector seen from one chain [c]. *)
Definition prepend_at (self : IPAdapter) (c : oid) (l : list oid) : list oid :=
  if use_pooled_text_embedding self && bool_decide (target (base self) = c)
  then pooled_text_embedding_proj self :: l
  else l.

(** The adapters of an [IPAdapter] in the order they are injected. *)
Definition all_adapters (self : IPAdapter) (parent_arg : option oid) : list Adapter :=
  sub_adapters self ++ [with_parent (base self) parent_arg].

(** The child lists and the injection states after [IPAdapter.inject]. *)
Definition injected_kids (self : IPAdapter) (parent_arg : option oid)
    (K : gmap oid (list oid)) : gmap oid (list oid) :=
  inject_kids
    ((if use_pooled_text_embedding self
      then alter (cons (pooled_text_embedding_proj self)) (target (base self))
      else fun K' => K')
       (foldl inject_kids K (sub_adapters self)))
    (with_parent (base self) parent_arg).

Definition injected_slots (self : IPAdapter) (parent_arg : option oid)
    (F : gmap oid (option oid)) : gmap oid (option oid) :=
  mark (foldl mark F (sub_adapters self)) (with_parent (base self) parent_arg).

(** The mutations of one [IPAdapter.inject], in order: every sub-adapter,
    then the projector at position 0 of the target's own child list, then
    the adapter itself. *)
Definition inject_events (self : IPAdapter) : list event :=
  (Injected ∘ ident <$> sub_adapters self)
  ++ (if use_pooled_text_embedding self
      then [Inserted (target (base self)) 0 (pooled_text_embedding_proj self)]
      else [])
  ++ [Injected (ident (base self))].

(** The mutations of one [IPAdapter.eject], in order: every sub-adapter,
    then the removal of the projector from position 0 of the target's child
    list, then the restoration of the target in its parent's slot. *)
Definition eject_events (self : IPAdapter) : list event :=
  (Ejected ∘ ident <$> sub_adapters self)
  ++ (if use_pooled_text_embedding self
      then [Popped (target (base self)) 0 (pooled_text_embedding_proj self)]
      else [])
  ++ [Ejected (ident (base self))].

(** The identities an [IPAdapter] brings to the graph. *)
Definition own_ids (self : IPAdapter) : list oid :=
  (if use_pooled_text_embedding self then [pooled_text_embedding_proj self] else [])
  ++ (ident <$> sub_adapters self) ++ [ident (base self)].

(** An adapter is built around a target that sits in its parent chain. *)
Definition built_around (a : Adapter) (parent_arg : option oid) (s : Store) : bool :=
  match slot_parent a parent_arg with
  | Some c => resides (target a) c s
  | None => true
  end.

(** The situation before an injection: the adapter's own objects are
    distinct and not yet part of any chain, nothing is injected, every
    adapter is built around a target inside its parent chain, and the target
    of the whole is a chain when a projector has to be inserted. *)
Definition ready (self : IPAdapter) (parent_arg : option oid) (s : Store) : bool :=
  bool_decide (NoDup (own_ids self))
  && bool_decide (map_Forall (fun _ l => Forall (fun x => x ∉ own_ids self) l) (kids s))
  && forallb (fun a => bool_decide (slot_of s !! ident a = None))
             (base self :: sub_adapters self)
  && forallb (fun a => built_around a None s) (sub_adapters self)
  && built_around (base self) parent_arg s
  && (if use_pooled_text_embedding self
      then bool_decide (is_Some (kids s !! target (base self)))
      else true).

(** The three steps of an ejection in the order "sub-adapters, then the
    parent's slot, then the auxiliary node". *)
Definition eject_events_slot_first (self : IPAdapter) : list event :=
  (Ejected ∘ ident <$> sub_adapters self)
  ++ [Ejected (ident (base self))]
  ++ (if use_pooled_text_embedding self
      then [Popped (target (base self)) 0 (pooled_text_embedding_proj self)]
      else []).

(** "The projector is prepended at position 0 of the chain that is the
    parent of the target." *)
Definition prepends_to_parent_chain (self : IPAdapter) (parent_arg : option oid)
    (s : Store) : Prop :=
  forall s1 c,
    IPAdapter_inject self parent_arg s = Ok s1 ->
    use_pooled_text_embedding self = true ->
    slot_parent (base self) parent_arg = Some c ->
    exists l, kids s1 !! c = Some (pooled_text_embedding_proj self :: l).

(** A small graph: pipeline [1] holds the U-Net [2] and a decoder [7]; the
    U-Net holds two blocks [3] and [4]; each block holds one
    cross-attention layer, [5] and [6]. *)
Definition example_store : Store :=
  mkStore (list_to_map [(1, [2; 7]); (2, [3; 4]); (3, [5]); (4, [6])]%nat) ∅ [].

(** An [IPAdapter] [10] around the U-Net, with sub-adapters [11] and [12]
    around the two cross-attention layers and the projector [13]. *)
Definition example_ip : IPAdapter :=
  mkIPAdapter (mkAdapter 10 2 (Some 1%nat))
              [mkAdapter 11 5 (Some 3%nat); mkAdapter 12 6 (Some 4%nat)]
              true 13.

Definition example_injected : Store :=
  match IPAdapter_inject example_ip None example_store with
  | Ok s1 => s1
  | Raise _ => example_store
  end.

End Graph.

(** ** Module trees and the scale of the image prompt

    The scale lives in attributes of the modules an adapter is made of and
    is reached by searching the adapter's own subtree, so here a module is
    the tree of its children. *)

Module Scale.
Import Py.

(** The classes of the layers that occur in an adapted cross-attention. *)
Inductive cls : Set :=
| Chain
| Distribute
| Sum
| Identity
| UseContext
| Linear
| Lambda
| ScaledDotProductAttention
| Multiply
| Attention
| ImageCrossAttention
| CrossAttentionAdapter.

Definition cls_eqb (a b : cls) : bool :=
  match a, b with
  | Chain, Chain | Distribute, Distribute | Sum, Sum | Identity, Identity
  | UseContext, UseContext | Linear, Linear | Lambda, Lambda
  | ScaledDotProductAttention, ScaledDotProductAttention
  | Multiply, Multiply | Attention, Attention
  | ImageCrossAttention, ImageCrossAttention
  | CrossAttentionAdapter, CrossAttentionAdapter => true
  | _, _ => false
  end.

Section Trees.
(** Python floats; the scale is only stored and read back. *)
Context {float : Type}.

(** A module: its class, its scale attribute ([Multiply.scale], or the
    [_scale] of an [ImageCrossAttention] or [CrossAttentionAdapter]; absent
    on other layers) and its ordered children (none for a leaf). *)
Inductive FlModule : Type :=
| Node (class : cls) (scale : option float) (children : list FlModule).

Definition class_of (m : FlModule) : cls :=
  match m with Node c _ _ => c end.

Definition scale_of (m : FlModule) : option float :=
  match m with Node _ s _ => s end.

Definition set_scale_attr (value : float) (m : FlModule) : FlModule :=
  match m with Node c _ ch => Node c (Some value) ch end.

(** The first element of [l] on which [f] has a result. *)
Fixpoint first_some {A B} (f : A -> option B) (l : list A) : option B :=
  match l with
  | [] => None
  | x :: xs =>
      match f x with
      | Some y => Some y
      | None => first_some f xs
      end
  end.

(** Change the first element of [l] on which [f] has a result. *)
Fixpoint change_first {A} (f : A -> option (res A)) (l : list A)
  : option (res (list A)) :=
  match l with
  | [] => None
  | x :: xs =>
      match f x with
      | Some r => Some (y <- r ;; Ok (y :: xs))
      | None =>
          match change_first f xs with
          | Some r => Some (ys <- r ;; Ok (x :: ys))
          | None => None
          end
      end
  end.

(** Modelled from the spec: the search of [Chain] (fluxion/layers/chain.py)
    is not among the sources.  The specification makes it a depth-first,
    pre-order search of the descendants that returns the first match. *)
Fixpoint find (c : cls) (m : FlModule) : option FlModule :=
  match m with
  | Node _ _ ch =>
      first_some (fun x => if cls_eqb (class_of x) c then Some x else find c x) ch
  end.

(** Modelled from the spec: [Chain.ensure_find], the strict search, fails
    when there is no match. *)
Definition ensure_find (c : cls) (m : FlModule) : res FlModule :=
  of_option StructuralNotFound (find c m).

(** Modelled from the spec: mutating the module that the search returns
    (an attribute assignment, or [Chain.replace] of it) gives the tree with
    [g] applied at the first match, [None] without a match. *)
Fixpoint update (c : cls) (g : FlModule -> res FlModule) (m : FlModule)
  : option (res FlModule) :=
  match m with
  | Node k s ch =>
      match change_first
              (fun x => if cls_eqb (class_of x) c then Some (g x) else update c g x)
              ch with
      | Some r => Some (ch' <- r ;; Ok (Node k s ch'))
      | None => None
      end
  end.

Definition ensure_update (c : cls) (g : FlModule -> res FlModule) (m : FlModule)
  : res FlModule :=
  match update c g m with
  | Some r => r
  | None => Raise StructuralNotFound
  end.

(** The search and the mutation started at [m] itself, as they proceed on
    each child of a chain. *)
Definition find_at (c : cls) (m : FlModule) : option FlModule :=
  if cls_eqb (class_of m) c then Some m else find c m.

Definition update_at (c : cls) (g : FlModule -> res FlModule) (m : FlModule)
  : option (res FlModule) :=
  if cls_eqb (class_of m) c then Some (g m) else update c g m.

Definition leaf (c : cls) : FlModule := Node c None [].

(** [ImageCrossAttention.__init__]: the module tree it builds. *)
Definition ImageCrossAttention_new (scale : float)
    (use_timestep_embedding use_pooled_text_embedding : bool) : FlModule :=
  let plain := Node Chain None [leaf UseContext; leaf Linear] in
  let expanded := Node Chain None [leaf UseContext; leaf Linear; leaf Lambda] in
  let contexts :=
    [plain]
    ++ (if use_timestep_embedding then [expanded] else [])
    ++ (if use_pooled_text_embedding then [expanded] else []) in
  Node ImageCrossAttention (Some scale)
    [ Node Distribute None
        [leaf Identity; Node Sum None contexts; Node Sum None contexts];
      leaf ScaledDotProductAttention;
      Node Multiply (Some scale) [] ].

(** The setter of [ImageCrossAttention.scale]. *)
Definition ImageCrossAttention_set_scale (value : float) (self : FlModule)
  : res FlModule :=
  let self := set_scale_attr value self in
  ensure_update Multiply (fun m => Ok (set_scale_attr value m)) self.

(** [CrossAttentionAdapter.__init__]: the structural copy of the target
    with its first scaled dot product replaced by the sum of it and a new
    image cross-attention. *)
Definition CrossAttentionAdapter_new (target : FlModule) (scale : float)
    (use_timestep_embedding use_pooled_text_embedding : bool) : res FlModule :=
  let clone := target in
  scaled_dot_product <- ensure_find ScaledDotProductAttention clone ;;
  let image_cross_attention :=
    ImageCrossAttention_new scale use_timestep_embedding use_pooled_text_embedding in
  clone <- ensure_update ScaledDotProductAttention
             (fun old => Ok (Node Sum None [old; image_cross_attention])) clone ;;
  Ok (Node CrossAttentionAdapter (Some scale) [clone]).

(** The getter and the setter of [CrossAttentionAdapter.scale]. *)
Definition CrossAttentionAdapter_scale (self : FlModule) : res float :=
  of_option AttributeError (scale_of self).

Definition CrossAttentionAdapter_set_scale (value : float) (self : FlModule)
  : res FlModule :=
  let self := set_scale_attr value self in
  ensure_update ImageCrossAttention (ImageCrossAttention_set_scale value) self.

(** The part of an [IPAdapter] the scale touches; [injected] is its
    injection state. *)
Record IPAdapter : Type := mkIPAdapter {
  sub_adapters : list FlModule;
  injected : bool
}.

(** Python's [for x in l: f(x)] over modules that [f] mutates. *)
Fixpoint for_each (f : FlModule -> res FlModule) (l : list FlModule)
  : res (list FlModule) :=
  match l with
  | [] => Ok []
  | x :: xs => y <- f x ;; ys <- for_each f xs ;; Ok (y :: ys)
  end.

(** The sub-adapters [IPAdapter.__init__] builds, one per cross-attention
    layer of the target. *)
Definition IPAdapter_new (cross_attentions : list FlModule) (scale : float)
    (use_timestep_embedding use_pooled_text_embedding : bool) : res IPAdapter :=
  subs <- for_each (fun cross_attn =>
                      CrossAttentionAdapter_new cross_attn scale
                        use_timestep_embedding use_pooled_text_embedding)
                   cross_attentions ;;
  Ok (mkIPAdapter subs false).

(** The getter and the setter of [IPAdapter.scale]. *)
Definition IPAdapter_scale (self : IPAdapter) : res float :=
  first <- getitem (sub_adapters self) 0 ;;
  CrossAttentionAdapter_scale first.

Definition IPAdapter_set_scale (value : float) (self : IPAdapter) : res IPAdapter :=
  subs <- for_each (CrossAttentionAdapter_set_scale value) (sub_adapters self) ;;
  Ok (mkIPAdapter subs (injected self)).

(** The effective multiplier of a sub-adapter: the scale of the [Multiply]
    node inside its [ImageCrossAttention]. *)
Definition multiplier (adapter : FlModule) : option float :=
  match find ImageCrossAttention adapter with
  | Some ica =>
      match find Multiply ica with
      | Some mul => scale_of mul
      | None => None
      end
  | None => None
  end.

(** How a mutation [u] of the first match relates to the result [o] of the
    search before it and to the search [fnd] after it: nothing found and
    nothing changed; or [g] applied to the match, which the search then
    returns if it still has class [c]; or the exception [g] raised on the
    match. *)
Definition tracks (c : cls) (g : FlModule -> res FlModule)
    (fnd : FlModule -> option FlModule)
    (u : option (res FlModule)) (o : option FlModule) : Prop :=
  match u with
  | None => o = None
  | Some (Ok m') =>
      exists a b, o = Some a /\ g a = Ok b /\ (class_of b = c -> fnd m' = Some b)
  | Some (Raise e) => exists a, o = Some a /\ g a = Raise e
  end.

(** Both searches behind [multiplier] find something. *)
Definition searchable (adapter : FlModule) : bool :=
  match find ImageCrossAttention adapter with
  | Some ica =>
      match find Multiply ica with
      | Some _ => true
      | None => false
      end
  | None => false
  end.

(** Every image cross-attention at or below [m] has a [Multiply] below it,
    as the ones built by [ImageCrossAttention_new] have. *)
Fixpoint well_formed (m : FlModule) : bool :=
  match m with
  | Node c _ ch =>
      (if cls_eqb c ImageCrossAttention
       then match first_some
                    (fun x => if cls_eqb (class_of x) Multiply then Some x
                              else find Multiply x) ch with
            | Some _ => true
            | None => false
            end
       else true)
      && forallb well_formed ch
  end.

(** A cross-attention layer an adapter can be built around. *)
Definition adaptable (m : FlModule) : bool :=
  well_formed m
  && match find ScaledDotProductAttention m with Some _ => true | None => false end.

End Trees.

Arguments FlModule : clear implicits.
Arguments IPAdapter : clear implicits.

(** A cross-attention layer of the shape [fl.Attention] has: three input
    projections, the scaled dot product and the output projection. *)
Definition example_attention : FlModule R :=
  Node Attention None
    [ Node Distribute None [leaf Linear; leaf Linear; leaf Linear];
      leaf ScaledDotProductAttention;
      leaf Linear ].

End Scale.

(** ** Loading the weights of an [IPAdapter] ([IPAdapter.__init__]) *)

Module Weights.
Import Py.
Local Open Scope nat_scope.

(** A tensor of the weight map: only its shape decides whether it can be
    copied onto a parameter. *)
Record Tensor : Set := mkTensor {
  shape : list nat;
  data : nat
}.

(** [k.startswith(p)] and [k.removeprefix(p)]. *)
Definition startswith (k p : string) : bool := String.prefix p k.

Definition removeprefix (k p : string) : string :=
  if startswith k p
  then String.substring (String.length p) (String.length k - String.length p) k
  else k.

(** The entries of [weights] whose key starts with [p], with [p] stripped:
    the dictionary the constructor builds for each block. *)
Definition block (p : string) (weights : gmap string Tensor) : gmap string Tensor :=
  list_to_map
    (omap (fun kv => if startswith kv.1 p then Some (removeprefix kv.1 p, kv.2) else None)
          (map_to_list weights)).

(** [f"{i:03d}"]: decimal, padded with zeros to three digits. *)
Definition format_03d (i : nat) : string :=
  let digits := NilEmpty.string_of_uint (Nat.to_uint i) in
  let pad := String.concat "" (replicate (3 - String.length digits) "0"%string) in
  String.append pad digits.

Definition sub_adapter_prefix (i : nat) : string :=
  String.append "ip_adapter." (String.append (format_03d i) ".").

(** [torch.nn.Module.load_state_dict].  A supplied tensor is copied onto the
    parameter of the same name when the shapes agree.  A shape mismatch on a
    matched key is always an error; a key without parameter and a parameter
    without key are errors only under [strict].  The copies are made before
    the errors are raised. *)
Definition no_size_mismatch (params sd : gmap string Tensor) : bool :=
  forallb (fun kp => match sd !! kp.1 with
                     | Some t => bool_decide (shape t = shape kp.2)
                     | None => true
                     end)
          (map_to_list params).

Definition no_missing_keys (params sd : gmap string Tensor) : bool :=
  forallb (fun kp => bool_decide (is_Some (sd !! kp.1))) (map_to_list params).

Definition no_unexpected_keys (params sd : gmap string Tensor) : bool :=
  forallb (fun kt => bool_decide (is_Some (params !! kt.1))) (map_to_list sd).

Definition copied (params sd : gmap string Tensor) : gmap string Tensor :=
  map_imap (fun k p => match sd !! k with
                       | Some t => if decide (shape t = shape p) then Some t else Some p
                       | None => Some p
                       end) params.

Definition load_state_dict (params sd : gmap string Tensor) (strict : bool)
  : gmap string Tensor * res unit :=
  (copied params sd,
   if no_size_mismatch params sd
      && (negb strict || (no_missing_keys params sd && no_unexpected_keys params sd))
   then Ok tt
   else Raise RuntimeError).

(** The parameters of the three kinds of submodule that receive weights. *)
Record Modules : Type := mkModules {
  image_proj : gmap string Tensor;
  sub_adapters : list (gmap string Tensor);
  pooled_text_embedding_proj : gmap string Tensor
}.

(** The loop [for i, cross_attn in enumerate(self.sub_adapters)], from
    index [i] on. *)
Fixpoint load_sub_adapters (weights : gmap string Tensor) (i : nat)
    (subs : list (gmap string Tensor)) : res (list (gmap string Tensor)) :=
  match subs with
  | [] => Ok []
  | cross_attn :: rest =>
      let cross_attention_weights := block (sub_adapter_prefix i) weights in
      let '(cross_attn', outcome) :=
        load_state_dict cross_attn cross_attention_weights false in
      _ <- outcome ;;
      rest' <- load_sub_adapters weights (S i) rest ;;
      Ok (cross_attn' :: rest')
  end.

(** The weight-loading part of [IPAdapter.__init__] (the [if weights is not
    None] block).  Whatever loading the image projection raises is caught
    and printed. *)
Definition load_weights (self : Modules) (weights : option (gmap string Tensor))
    (strict use_pooled_text_embedding : bool) : res Modules :=
  match weights with
  | None => Ok self
  | Some weights =>
      let image_proj_state_dict := block "image_proj." weights in
      let '(image_proj', _) :=
        load_state_dict (image_proj self) image_proj_state_dict strict in
      subs' <- load_sub_adapters weights 0 (sub_adapters self) ;;
      pooled' <-
        (if use_pooled_text_embedding
         then
           let pooled_text_embedding_proj_state_dict :=
             block "pooled_text_embedding_proj." weights in
           let '(pooled', outcome) :=
             load_state_dict (pooled_text_embedding_proj self)
                             pooled_text_embedding_proj_state_dict strict in
           _ <- outcome ;; Ok pooled'
         else Ok (pooled_text_embedding_proj self)) ;;
      Ok (mkModules image_proj' subs' pooled')
  end.

(** A block of the weight map fits a submodule exactly: no key without
    parameter, no parameter without key, no shape mismatch. *)
Definition fits (params sd : gmap string Tensor) : bool :=
  no_size_mismatch params sd && no_missing_keys params sd
  && no_unexpected_keys params sd.

(** No block of a sub-adapter has a shape mismatch, from index [i] on. *)
Fixpoint sub_adapter_shapes_agree (weights : gmap string Tensor) (i : nat)
    (subs : list (gmap string Tensor)) : bool :=
  match subs with
  | [] => true
  | cross_attn :: rest =>
      no_size_mismatch cross_attn (block (sub_adapter_prefix i) weights)
      && sub_adapter_shapes_agree weights (S i) rest
  end.

(** The sub-adapters after loading, from index [i] on. *)
Fixpoint copied_sub_adapters (weights : gmap string Tensor) (i : nat)
    (subs : list (gmap string Tensor)) : list (gmap string Tensor) :=
  match subs with
  | [] => []
  | cross_attn :: rest =>
      copied cross_attn (block (sub_adapter_prefix i) weights)
      :: copied_sub_adapters weights (S i) rest
  end.

(** "Under [strict], an unmatched key or parameter in any block makes
    loading fail." *)
Definition strict_is_fatal_everywhere (self : Modules)
    (weights : gmap string Tensor) (use_pooled_text_embedding : bool) : Prop :=
  (fits (image_proj self) (block "image_proj." weights) = false
   \/ (exists i cross_attn,
         sub_adapters self !! i = Some cross_attn /\
         fits cross_attn (block (sub_adapter_prefix i) weights) = false)
   \/ (use_pooled_text_embedding = true /\
       fits (pooled_text_embedding_proj self)
            (block "pooled_text_embedding_proj." weights) = false)) ->
  exists e, load_weights self (Some weights) true use_pooled_text_embedding = Raise e.

(** One image projection, one sub-adapter and a projector, and a weight map
    with a key that nothing expects in each of the first two blocks. *)
Definition example_modules : Modules :=
  mkModules {[ "0.weight"%string := mkTensor [3072; 1024] 0 ]}
            [ {[ "to_k.weight"%string := mkTensor [320; 768] 0 ]} ]
            {[ "1.weight"%string := mkTensor [1280; 768] 0 ]}.

Definition example_weights : gmap string Tensor :=
  {[ "image_proj.bogus"%string := mkTensor [1] 1;
     "ip_adapter.000.to_k.weight"%string := mkTensor [320; 768] 2;
     "ip_adapter.000.bogus"%string := mkTensor [1] 3;
     "pooled_text_embedding_proj.1.weight"%string := mkTensor [1280; 768] 4 ]}.

End Weights.

(** ** The image embedding ([IPAdapter.compute_image_embedding]) *)

Module Embedding.
Import Py.
Local Open Scope nat_scope.

Section Embedding.
(** [PIL]: an image as the caller holds it.  [Img]: one preprocessed image,
    an entry along the batch axis of the image tensor.  [Enc]: what the
    image encoder returns.  [Tok]: one token of an embedding; an embedding
    of shape [batch, sequence, dim] is a list of rows, one per image, each
    a list of tokens.  The encoder, the projection, the preprocessing and
    the arithmetic are collaborators of the adapter. *)
Context {PIL Img Enc Tok float : Type}.
Variable preprocess_image : PIL -> nat * nat -> list Img.
Variable image_encoder : list Img -> Enc.
Variable image_proj : Enc -> list (list Tok).
Variable div : Enc -> float -> Enc.
Variable zeros_like_img : list Img -> list Img.
Variable zeros_like_enc : Enc -> Enc.
(** [w != 1.0], and a token multiplied by a weight. *)
Variable ne_one : float -> bool.
Variable scale : float -> Tok -> Tok.
Variable fine_grained : bool.

Inductive prompt : Type :=
| PromptTensor (t : list Img)
| PromptImage (image : PIL)
| PromptList (images : list PIL).

(** [torch.cat] along the batch axis. *)
Definition cat {A} (tensors : list (list A)) : res (list A) :=
  match tensors with
  | [] => Raise RuntimeError
  | _ => Ok (concat tensors)
  end.

(** [Tensor.chunk(n)] along the batch axis: pieces of [ceil(len / n)] rows,
    the last one possibly shorter; [n] empty pieces for an empty tensor. *)
Fixpoint pieces {A} (fuel size : nat) (l : list A) : list (list A) :=
  match fuel with
  | O => []
  | S fuel' =>
      match l with
      | [] => []
      | _ => take size l :: pieces fuel' size (drop size l)
      end
  end.

Definition chunk {A} (n : nat) (l : list A) : res (list (list A)) :=
  if bool_decide (n = 0) then Raise RuntimeError
  else
    let size := (length l + n - 1) `div` n in
    if bool_decide (size = 0) then Ok (replicate n [])
    else Ok (pieces (length l) size l).

(** [torch.cat(..., dim=1)]: the tensors must have the same number of
    rows; row by row their sequences are joined. *)
Fixpoint cat_dim1 (tensors : list (list (list Tok))) : res (list (list Tok)) :=
  match tensors with
  | [] => Raise RuntimeError
  | [t] => Ok t
  | t :: rest =>
      joined <- cat_dim1 rest ;;
      if bool_decide (length t = length joined)
      then Ok (zip_with app t joined)
      else Raise RuntimeError
  end.

(** All tokens of one image multiplied by its weight. *)
Definition scale_row (w : float) (row : list Tok) : list Tok := scale w <$> row.

(** [embedding *= tensor(weights).unsqueeze(-1).unsqueeze(-1)]: in place,
    so the weights are broadcast along the batch axis only when there is a
    single one. *)
Definition imul_weights (embedding : list (list Tok)) (weights : list float)
  : res (list (list Tok)) :=
  if bool_decide (length weights = length embedding)
  then Ok (zip_with scale_row weights embedding)
  else
    match weights with
    | [w] => Ok (scale_row w <$> embedding)
    | _ => Raise RuntimeError
    end.

(** [IPAdapter._compute_image_embedding]. *)
Definition _compute_image_embedding (image_prompt : list Img) (div_factor : float)
  : list (list Tok) * list (list Tok) :=
  let image_embedding := div (image_encoder image_prompt) div_factor in
  let conditional_embedding := image_proj image_embedding in
  let negative_embedding :=
    if negb fine_grained
    then image_proj (zeros_like_enc image_embedding)
    else image_proj (div (image_encoder (zeros_like_img image_prompt)) div_factor) in
  (negative_embedding, conditional_embedding).

(** The first lines of [compute_image_embedding]: the prompt as a tensor. *)
Definition prompt_tensor (image_prompt : prompt) (size : nat * nat)
  : res (list Img) :=
  match image_prompt with
  | PromptImage image => Ok (preprocess_image image size)
  | PromptList images =>
      cat ((fun image => preprocess_image image size) <$> images)
  | PromptTensor t => Ok t
  end.

(** [IPAdapter.compute_image_embedding]. *)
Definition compute_image_embedding (image_prompt : prompt)
    (weights : option (list float)) (div_factor : float)
    (concat_batches : bool) (size : nat * nat) : res (list (list Tok)) :=
  image_prompt <- prompt_tensor image_prompt size ;;
  let '(negative_embedding, conditional_embedding) :=
    _compute_image_embedding image_prompt div_factor in
  let batch_size := length image_prompt in
  conditional_embedding <-
    match weights with
    | Some weights =>
        if negb (bool_decide (length weights = batch_size))
        then Raise AssertionError
        else if existsb ne_one weights
             then imul_weights conditional_embedding weights
             else Ok conditional_embedding
    | None => Ok conditional_embedding
    end ;;
  both <-
    (if bool_decide (1 < batch_size) && concat_batches
     then
       negative_chunks <- chunk batch_size negative_embedding ;;
       negative_embedding <- cat_dim1 negative_chunks ;;
       conditional_chunks <- chunk batch_size conditional_embedding ;;
       conditional_embedding <- cat_dim1 conditional_chunks ;;
       Ok (negative_embedding, conditional_embedding)
     else Ok (negative_embedding, conditional_embedding)) ;;
  Ok (both.1 ++ both.2).

(** The result in the words of the specification.  The weights multiply
    the conditional branch image by image, when one of them is not 1. *)
Definition weighted (conditional : list (list Tok)) (weights : option (list float))
  : list (list Tok) :=
  match weights with
  | Some ws =>
      if existsb ne_one ws
      then zip_with scale_row ws conditional
      else conditional
  | None => conditional
  end.

(** For a batch of more than one image with [concat_batches], the rows of a
    branch are joined into one row along the sequence axis. *)
Definition joined (batch_size : nat) (concat_batches : bool)
    (embedding : list (list Tok)) : list (list Tok) :=
  if bool_decide (1 < batch_size) && concat_batches
  then [concat embedding]
  else embedding.

(** The negative embedding first, then the weighted conditional one. *)
Definition embedding_spec (negative conditional : list (list Tok))
    (weights : option (list float)) (batch_size : nat) (concat_batches : bool)
  : list (list Tok) :=
  joined batch_size concat_batches negative
  ++ joined batch_size concat_batches (weighted conditional weights).

(** The weights list matches the batch size. *)
Definition weights_match (weights : option (list float)) (batch_size : nat) : bool :=
  match weights with
  | Some ws => bool_decide (length ws = batch_size)
  | None => true
  end.

End Embedding.

Arguments prompt : clear implicits.

(** A toy instance: images and encodings are numbers, the projection makes
    two tokens per image, weights are integers. *)
Definition example_compute :=
  compute_image_embedding (PIL := nat) (Img := nat) (Enc := list nat) (Tok := Z) (float := Z)
    (fun image _ => [image]) (fun t => t)
    (fun e => (fun x => [Z.of_nat x; (Z.of_nat x + 1)%Z]) <$> e)
    (fun e _ => e) (fun t => (fun _ => 0) <$> t) (fun e => (fun _ => 0) <$> e)
    (fun w => negb (w =? 1)%Z) Z.mul false.

End Embedding.

(** ** Constructors ([norm.py], [image_prompt.py],
       [stable_diffusion_1/image_prompt.py]) *)

Module Ctor.
Import Py.
Local Open Scope string_scope.

(** Binding the keyword arguments of a call to the parameters of a
    function without [**kwargs]: an unexpected keyword is a [TypeError]. *)
Definition accepts (params kwargs : list string) : res unit :=
  if forallb (fun k => bool_decide (k ∈ params)) kwargs
  then Ok tt
  else Raise TypeError.

(** What a name can be bound to, as far as a condition looks at it. *)
Inductive value : Set :=
| VBool (b : bool)
| VObject.

Definition truth (v : value) : bool :=
  match v with
  | VBool b => b
  | VObject => true
  end.

(** Evaluating a name: the function's locals, then the module's globals;
    a name bound in neither (and not a builtin) is a [NameError]. *)
Definition load_name (locals globals : list (string * value)) (name : string)
  : res value :=
  match list_find (fun kv => kv.1 = name) (locals ++ globals) with
  | Some (_, kv) => Ok kv.2
  | None => Raise NameError
  end.

(** The names bound at module level in [norm.py]. *)
Definition norm_globals : list (string * value) :=
  (fun name => (name, VObject)) <$>
    ["Float"; "Tensor"; "Device"; "DType"; "nn"; "ones"; "sqrt"; "zeros";
     "Parameter"; "layer_norm"; "Module"; "WeightedModule";
     "LayerNormTorch"; "LayerNorm"; "GroupNorm"; "LayerNorm2d"; "InstanceNorm2d"].

Inductive shape_arg : Set :=
| ShapeInt (n : Z)
| ShapeList (l : list Z).

(** A constructed layer norm. *)
Record LayerNormTorch : Set := mkLayerNormTorch {
  dim : list Z;
  has_bias : bool
}.

Section Constructors.
(** The collaborators that are not part of these files (the initializer of
    the base class [Module], torch's [ones] and [zeros], the layers of
    [fl], the CLIP encoder, the search in the target, the attributes read
    from the arguments, the body of [IPAdapter.__init__]): calling or
    reading one returns or raises.  What a collaborator does depends on
    its arguments; [external] gives the outcomes for the arguments of the
    call at hand. *)
Variable external : string -> res unit.

(** The parameters of [LayerNormTorch.__init__] and [LayerNorm.__init__]
    after [self]. *)
Definition LayerNorm_params : list string :=
  ["normalized_shape"; "eps"; "use_bias"; "device"; "dtype"].

(** [LayerNormTorch.__init__]. *)
Definition LayerNormTorch___init__ (normalized_shape : shape_arg)
    (use_bias : bool) : res LayerNormTorch :=
  let locals :=
    [("self", VObject); ("normalized_shape", VObject); ("eps", VObject);
     ("use_bias", VBool use_bias); ("device", VObject); ("dtype", VObject)] in
  _ <- external "Module.__init__" ;;
  let dim :=
    match normalized_shape with
    | ShapeInt n => [n]
    | ShapeList l => l
    end in
  _ <- external "torch.ones" ;;
  bias <- load_name locals norm_globals "bias" ;;
  _ <- (if truth bias then external "torch.zeros" else Ok tt) ;;
  Ok (mkLayerNormTorch dim (truth bias)).

(** [LayerNorm.__init__]: every argument is passed on by keyword to the
    initializer it inherits from [LayerNormTorch]. *)
Definition LayerNorm___init__ (normalized_shape : shape_arg) (use_bias : bool)
  : res LayerNormTorch :=
  _ <- accepts LayerNorm_params
         ["normalized_shape"; "eps"; "use_bias"; "device"; "dtype"] ;;
  LayerNormTorch___init__ normalized_shape use_bias.

(** [fl.LayerNorm(normalized_shape=..., bias=use_bias, device=..., dtype=...)]
    as [image_prompt.py] calls it. *)
Definition LayerNorm_with_bias_keyword (normalized_shape : shape_arg)
    (use_bias : bool) : res LayerNormTorch :=
  _ <- accepts LayerNorm_params ["normalized_shape"; "bias"; "device"; "dtype"] ;;
  LayerNorm___init__ normalized_shape use_bias.

(** [ImageProjection.__init__]: the arguments of the chain are built from
    left to right. *)
Definition ImageProjection___init__ (clip_text_embedding_dim : Z)
    (use_bias : bool) : res unit :=
  _ <- external "fl.Linear" ;;
  _ <- external "fl.Reshape" ;;
  _ <- LayerNorm_with_bias_keyword (ShapeInt clip_text_embedding_dim) use_bias ;;
  external "fl.Chain.__init__".

(** [PerceiverAttention.__init__]: the first argument built is the first
    layer norm of the [Distribute]. *)
Definition PerceiverAttention___init__ (embedding_dim : Z) (use_bias : bool)
  : res unit :=
  _ <- LayerNorm_with_bias_keyword (ShapeInt embedding_dim) use_bias ;;
  _ <- LayerNorm_with_bias_keyword (ShapeInt embedding_dim) use_bias ;;
  _ <- external "fl.Distribute" ;;
  _ <- external "fl.Parallel" ;;
  _ <- external "PerceiverScaledDotProductAttention" ;;
  _ <- external "fl.Linear" ;;
  external "fl.Chain.__init__".

(** One [TransformerLayer] of the generator in
    [PerceiverResampler.__init__]. *)
Definition TransformerLayer_new (latents_dim : Z) (use_bias : bool) : res unit :=
  _ <- external "fl.Parallel" ;;
  _ <- PerceiverAttention___init__ latents_dim use_bias ;;
  _ <- external "fl.Residual" ;;
  _ <- LayerNorm_with_bias_keyword (ShapeInt latents_dim) use_bias ;;
  _ <- external "FeedForward" ;;
  _ <- external "fl.Residual" ;;
  external "fl.Chain.__init__".

Fixpoint repeat_layers (n : nat) (latents_dim : Z) (use_bias : bool) : res unit :=
  match n with
  | O => Ok tt
  | S n' =>
      _ <- TransformerLayer_new latents_dim use_bias ;;
      repeat_layers n' latents_dim use_bias
  end.

(** [PerceiverResampler.__init__]. *)
Definition PerceiverResampler___init__ (latents_dim : Z)
    (num_attention_layers : nat) (output_dim : Z) (use_bias : bool) : res unit :=
  _ <- external "fl.Linear" ;;
  _ <- external "fl.SetContext" ;;
  _ <- external "LatentsToken" ;;
  _ <- repeat_layers num_attention_layers latents_dim use_bias ;;
  _ <- external "Transformer" ;;
  _ <- external "fl.Linear" ;;
  _ <- LayerNorm_with_bias_keyword (ShapeInt output_dim) use_bias ;;
  external "fl.Chain.__init__".

(** A supplied [image_proj], as [isinstance(image_proj, PerceiverResampler)]
    sees it: a [PerceiverResampler], or a module of another class, such as
    an [ImageProjection]. *)
Inductive projection : Set :=
| AnImageProjection
| APerceiverResampler.

(** [get_sd1_image_proj], called without [device] and [dtype]: both are
    read from the target, then the arguments of the projection are read
    from the encoder and from the cross-attention block, whose
    [context_embedding_dim] is the parameter of that name. *)
Definition get_sd1_image_proj (context_embedding_dim : Z)
    (fine_grained use_bias : bool) : res projection :=
  _ <- external "target.device" ;;
  _ <- external "target.dtype" ;;
  if negb fine_grained
  then _ <- external "image_encoder.output_dim" ;;
       _ <- external "cross_attn_2d.context_embedding_dim" ;;
       _ <- ImageProjection___init__ context_embedding_dim use_bias ;;
       Ok AnImageProjection
  else _ <- external "cross_attn_2d.context_embedding_dim" ;;
       _ <- external "image_encoder.embedding_dim" ;;
       _ <- PerceiverResampler___init__ context_embedding_dim 4
              context_embedding_dim use_bias ;;
       Ok APerceiverResampler.

(** The parameters of [IPAdapter.__init__] after [self]. *)
Definition IPAdapter_params : list string :=
  ["target"; "image_encoder"; "image_proj"; "scale"; "fine_grained"; "weights";
   "strict"; "use_timestep_embedding"; "use_pooled_text_embedding"; "use_bias";
   "sequence_length"].

(** A call of [IPAdapter.__init__] with keyword arguments. *)
Definition IPAdapter___init__ (kwargs : list string) : res unit :=
  _ <- accepts IPAdapter_params kwargs ;;
  external "IPAdapter.__init__".

(** [SD1IPAdapter.__init__].  [image_proj] is [None] or supplied.
    [image_encoder] is [Some _] for a supplied encoder that is true as the
    condition of [image_encoder or CLIPImageEncoderH(...)], and [None]
    otherwise: then the default encoder is built, which is the
    collaborator ["CLIPImageEncoderH"], the reading of its two arguments
    from the target included. *)
Definition SD1IPAdapter___init__ (image_encoder : option unit)
    (image_proj : option projection) (context_embedding_dim : Z)
    (fine_grained use_bias : bool) : res unit :=
  _ <- match image_encoder with
       | Some _ => Ok tt
       | None => external "CLIPImageEncoderH"
       end ;;
  image_proj <-
    match image_proj with
    | None =>
        _ <- external "target.ensure_find" ;;
        get_sd1_image_proj context_embedding_dim fine_grained use_bias
    | Some p =>
        if fine_grained
        then match p with
             | APerceiverResampler => Ok p
             | AnImageProjection => Raise AssertionError
             end
        else Ok p
    end ;;
  let sequence_length := if fine_grained then 16 else -1 in
  IPAdapter___init__
    ["target"; "image_encoder"; "image_proj"; "scale"; "fine_grained"; "weights";
     "strict"; "use_timestep_embedding"; "use_pooled_text_embedding"; "use_bias";
     "sequence_length"; "layernorm_dino"; "weighted_sum"].

End Constructors.

(** Collaborators that raise [TypeError] when they are called. *)
Definition refusing : string -> res unit := fun _ => Raise TypeError.

End Ctor.

(** ** The shape of an adapted cross-attention *)

Module Skeleton.
Import Py Scale.

(** A module tree without its scale attributes: the classes of the layers
    and their order. *)
Fixpoint skeleton {float : Type} (m : FlModule float) : FlModule unit :=
  match m with
  | Node c _ ch => Node c None (map skeleton ch)
  end.

(** A cross-attention layer that no adapter was built into yet: it has a
    scaled dot product below it and no image cross-attention at or below
    it. *)
Definition unadapted {float : Type} (m : FlModule float) : bool :=
  match find_at ImageCrossAttention m with Some _ => false | None => true end
  && match find ScaledDotProductAttention m with Some _ => true | None => false end.

(** The sub-adapter [CrossAttentionAdapter_new] builds around
    [example_attention] with the scale [s] and no further contexts. *)
Definition example_adapter (s : R) : FlModule R :=
  Node CrossAttentionAdapter (Some s)
    [ Node Attention None
        [ Node Distribute None [leaf Linear; leaf Linear; leaf Linear];
          Node Sum None
            [leaf ScaledDotProductAttention; ImageCrossAttention_new s false false];
          leaf Linear ] ].

End Skeleton.

(** ** The image encoder of an [IPAdapter]
       ([convert_to_pooled_features], [convert_to_grid_features] and the
       [image_encoder] property of [image_prompt.py]) *)

Module Encoder.
Import Py.
Local Open Scope nat_scope.

(** A layer of an encoder, as far as the conversions look at it: a
    [fl.Linear], a [fl.LayerNorm], a [fl.Lambda], a chain with its
    children, or a layer of another class. *)
Inductive layer : Type :=
| Linear
| LayerNorm
| Lambda
| Other (class_name : string)
| Chain (children : list layer).

(** [isinstance(l, fl.Linear)] and the like. *)
Definition is_Linear (l : layer) : bool :=
  match l with Linear => true | _ => false end.

Definition is_LayerNorm (l : layer) : bool :=
  match l with LayerNorm => true | _ => false end.

Definition is_Lambda (l : layer) : bool :=
  match l with Lambda => true | _ => false end.

(** An encoder: whether it is a [CLIPImageEncoderH] (otherwise it is a
    [ViT]) and its layers in order. *)
Record encoder : Type := mkEncoder {
  is_CLIPImageEncoderH : bool;
  layers : list layer
}.

(** An [assert] statement. *)
Definition assert (b : bool) : res unit :=
  if b then Ok tt else Raise AssertionError.

(** Modelled from the spec: [Chain] (fluxion/layers/chain.py) is not
    among the sources.  The specification gives a chain an ordered child
    list with insertion and removal at an index; a chain is indexed and
    appended to as a Python sequence is.  [Chain.pop()] removes the last
    child; there is nothing to remove from an empty chain. *)
Definition pop {A} (children : list A) : res (list A) :=
  match children with
  | [] => Raise IndexError
  | _ => Ok (take (length children - 1) children)
  end.

(** [IPAdapter.convert_to_pooled_features].  The structural copy is a new
    value, so the encoder passed in is left as it is. *)
Definition convert_to_pooled_features (image_encoder : encoder) : res encoder :=
  let encoder_clone := image_encoder in
  if is_CLIPImageEncoderH image_encoder
  then Ok encoder_clone
  else
    final <- getitem (layers encoder_clone) (-1) ;;
    _ <- assert (is_LayerNorm final) ;;
    Ok (mkEncoder (is_CLIPImageEncoderH encoder_clone)
                  (layers encoder_clone ++ [Lambda])).

(** [IPAdapter.convert_to_grid_features].  [transformer_layers] is the
    last child of the copy once three layers are popped, and popping from
    it changes that child of the copy. *)
Definition convert_to_grid_features (image_encoder : encoder) : res encoder :=
  let encoder_clone := layers image_encoder in
  if is_CLIPImageEncoderH image_encoder
  then
    l1 <- getitem encoder_clone (-1) ;;
    _ <- assert (is_Linear l1) ;;
    l2 <- getitem encoder_clone (-2) ;;
    _ <- assert (is_LayerNorm l2) ;;
    l3 <- getitem encoder_clone (-3) ;;
    _ <- assert (is_Lambda l3) ;;
    encoder_clone <- pop encoder_clone ;;
    encoder_clone <- pop encoder_clone ;;
    encoder_clone <- pop encoder_clone ;;
    transformer_layers <- getitem encoder_clone (-1) ;;
    match transformer_layers with
    | Chain children =>
        _ <- assert (bool_decide (length children = 32)) ;;
        children <- pop children ;;
        Ok (mkEncoder (is_CLIPImageEncoderH image_encoder)
                      (take (length encoder_clone - 1) encoder_clone
                       ++ [Chain children]))
    | _ => Raise AssertionError
    end
  else
    final <- getitem encoder_clone (-1) ;;
    _ <- assert (is_LayerNorm final) ;;
    encoder_clone <- pop encoder_clone ;;
    Ok (mkEncoder (is_CLIPImageEncoderH image_encoder) encoder_clone).

(** The attributes of an [IPAdapter] that hold its encoder.  An attribute
    that was never assigned is [None]. *)
Record IPAdapter : Type := mkIPAdapter {
  fine_grained : bool;
  _image_encoder : option encoder;
  _grid_image_encoder : option encoder
}.

(** The lines of [IPAdapter.__init__] that store the encoder. *)
Definition IPAdapter_store_encoder (image_encoder : encoder)
    (fine_grained : bool) : res IPAdapter :=
  if fine_grained
  then
    grid <- convert_to_grid_features image_encoder ;;
    Ok (mkIPAdapter fine_grained None (Some grid))
  else
    pooled <- convert_to_pooled_features image_encoder ;;
    Ok (mkIPAdapter fine_grained (Some pooled) None).

(** The property [IPAdapter.image_encoder]. *)
Definition IPAdapter_image_encoder (self : IPAdapter) : res encoder :=
  if negb (fine_grained self)
  then of_option AttributeError (_image_encoder self)
  else
    _ <- assert (bool_decide (is_Some (_grid_image_encoder self))) ;;
    of_option AttributeError (_grid_image_encoder self).

(** The assignment [adapter.fine_grained = b]. *)
Definition set_fine_grained (b : bool) (self : IPAdapter) : IPAdapter :=
  mkIPAdapter b (_image_encoder self) (_grid_image_encoder self).

(** A CLIP encoder of the expected form, with a stack of [n] transformer
    layers, and a ViT that ends in its final normalization. *)
Definition clip_encoder (n : nat) : encoder :=
  mkEncoder true
    [Other "ViTEmbeddings"; LayerNorm; Chain (replicate n (Other "TransformerLayer"));
     Lambda; LayerNorm; Linear].

Definition vit_encoder : encoder :=
  mkEncoder false
    [Other "ViTEmbeddings"; Chain (replicate 12 (Other "TransformerLayer"));
     LayerNorm].

End Encoder.

(** ** The attention heads of the perceiver
       ([PerceiverScaledDotProductAttention] in [image_prompt.py]) *)

Module Heads.
Import Py.
Local Open Scope nat_scope.

(** A tensor is the list of its entries along the first axis: a tensor of
    shape [batch, length, channels] is a list of lists of vectors.  All
    entries along an axis have the same shape. *)

(** [x.shape] of a tensor with three axes. *)
Definition shape3 {A} (x : list (list (list A))) : nat * nat * nat :=
  (length x,
   length (default [] (head x)),
   length (default [] (head (default [] (head x))))).

(** The tensor has the shape [batch, length, channels]. *)
Definition has_shape3 {A} (batch length channels : nat)
    (x : list (list (list A))) : bool :=
  bool_decide (List.length x = batch)
  && forallb (fun m => bool_decide (List.length m = length)
                       && forallb (fun v => bool_decide (List.length v = channels)) m)
             x.

(** A vector cut into [n] consecutive pieces of [size] entries. *)
Definition regroup {A} (n size : nat) (v : list A) : list (list A) :=
  (fun i => take size (drop (i * size) v)) <$> seq 0 n.

(** Exchanging two neighbouring axes: the matrix [m] with [c] columns,
    read column by column. *)
Fixpoint transpose {B} (c : nat) (m : list (list B)) : list (list B) :=
  match m with
  | [] => replicate c []
  | row :: rest => zip_with cons row (transpose c rest)
  end.

(** [PerceiverScaledDotProductAttention.reshape_tensor].  [view] with one
    size left open needs the other sizes to be positive and to divide the
    number of elements; it keeps the first two axes here and cuts every
    vector into [num_heads] pieces.  The final [reshape] asks for the
    shape the tensor has then. *)
Definition reshape_tensor {A} (num_heads : nat) (x : list (list (list A)))
  : res (list (list (list (list A)))) :=
  let '(bs, length, channels) := shape3 x in
  let numel := bs * length * channels in
  let newsize := bs * length * num_heads in
  x <- (if bool_decide (0 < newsize) && bool_decide (numel mod newsize = 0)
        then Ok (fmap (regroup num_heads (numel / newsize)) <$> x)
        else Raise RuntimeError) ;;
  let x := transpose num_heads <$> x in
  Ok x.

(** The value [forward] returns,
    [attention.permute(0, 2, 1, 3).reshape(bs, length, -1)], for an
    [attention] of shape [bs, num_heads, length, head_dim]: the heads of
    every position are brought together again. *)
Definition merge_heads {A} (bs length : nat)
    (attention : list (list (list (list A)))) : res (list (list (list A))) :=
  let permuted := transpose length <$> attention in
  if bool_decide (0 < bs * length)
  then Ok (fmap (fun heads => concat heads) <$> permuted)
  else Raise RuntimeError.

End Heads.

(** ** The DDIM step as it is stated *)

Module DDIMStated.
Import Py DDIM.

(** "For every sample, predicted noise and valid step index the step
    returns [a_prev * x0 + sqrt(1 - a_prev^2) * noise]": the statement for
    the schedulers with [n] inference steps over [T] training timesteps
    and the scale factors [csf], with the arithmetic of the reals. *)
Definition step_returns_at_every_valid_index (n T : Z) (csf : list R) : Prop :=
  forall (self : DDIM.t) (x noise : R) (i : Z),
    DDIM.__init__ n T csf = Ok self ->
    0 <= i < n ->
    exists a a_prev : R,
      real_step self x noise i
      = Ok (x_prev_of Rplus Rminus Rmult Rdiv sqrt
              (fun t k => pow t (Z.to_nat k)) (fun k t => Rminus (IZR k) t)
              a a_prev x noise).

End DDIMStated.

(** * Properties *)

Module PyFacts.
Import Py.

Lemma seq_get_nonneg {A} (l : list A) (i : Z) :
  0 <= i -> seq_get l i = l !! Z.to_nat i.
Proof. intros Hi. unfold seq_get. by rewrite bool_decide_true. Qed.

End PyFacts.

Module DDIMFacts.
Import Py PyFacts DDIM.

(** The generated sequence in closed form: for a positive step count it
    is [(n-1)*r + 1, ..., r + 1, 1] with [r = T // n]. *)
Lemma generate_timesteps_pos n T :
  0 < n ->
  _generate_timesteps n T =
    Ok (reverse ((fun k => k * (T `div` n) + 1) <$> seqZ 0 n)).
Proof.
  intros Hn. unfold _generate_timesteps, arange.
  rewrite bool_decide_false by lia. cbn.
  by rewrite bool_decide_false by lia.
Qed.

Lemma generated_length n T ts :
  _generate_timesteps n T = Ok ts -> length ts = Z.to_nat n.
Proof.
  unfold _generate_timesteps, arange.
  case_bool_decide; [done|]. cbn. case_bool_decide; [done|]. cbn.
  intros [= <-]. by rewrite length_reverse, length_fmap, length_seqZ.
Qed.

Lemma generated_lookup n T (i : Z) :
  0 <= i < n ->
  seq_get (reverse ((fun k => k * (T `div` n) + 1) <$> seqZ 0 n)) i
  = Some ((n - 1 - i) * (T `div` n) + 1).
Proof.
  intros Hi. rewrite seq_get_nonneg by lia.
  assert (Hlen : length ((fun k => k * (T `div` n) + 1) <$> seqZ 0 n)
                 = Z.to_nat n) by (by rewrite length_fmap, length_seqZ).
  rewrite reverse_lookup by (rewrite Hlen; lia).
  rewrite Hlen, list_lookup_fmap.
  rewrite lookup_seqZ_lt by lia. cbn.
  replace (0 + Z.of_nat (Z.to_nat n - S (Z.to_nat i))) with (n - 1 - i) by lia.
  reflexivity.
Qed.

Section Step.
Context {Tensor : Type}.
Variables (tadd tsub tmul tdiv : Tensor -> Tensor -> Tensor).
Variable tsqrt : Tensor -> Tensor.
Variable tpow : Tensor -> Z -> Tensor.
Variable rsub : Z -> Tensor -> Tensor.

Local Abbreviation call := (__call__ tadd tsub tmul tdiv tsqrt tpow rsub).
Local Abbreviation x_prev := (x_prev_of tadd tsub tmul tdiv tsqrt tpow rsub).

(** C2, as the code has it.  For a scheduler built by the constructor and
    a valid step index [i], the step reads [t = timesteps[i]] and, when
    [i] is not the last index, [t_prev = timesteps[i+1]], otherwise the
    sentinel [0]; with [a = cumulative_scale_factors[t]] and [a_prev] the
    factor at [t_prev] when [t_prev > 0] and the factor at index [0]
    otherwise, it returns [a_prev * x0 + sqrt(1 - a_prev^2) * noise] where
    [x0 = (x - sqrt(1 - a^2) * noise) / a], provided the two factors
    exist.  At the last index [t = 1], [t_prev = 0] and the factor read
    for the previous step is the one at index [0], so the step returns as
    soon as the factors at indices [0] and [1] exist.  With one factor per
    training timestep and at most half as many inference steps, every
    lookup is in range and the step returns at every valid index. *)
Theorem ddim_step_formula (n T : Z) (csf : list Tensor) (self : @DDIM.t Tensor)
    (x noise : Tensor) (i : Z) :
  DDIM.__init__ n T csf = Ok self ->
  0 <= i < n ->
  exists t t_prev : Z,
    seq_get (timesteps self) i = Some t /\
    (i < n - 1 -> seq_get (timesteps self) (i + 1) = Some t_prev) /\
    (i = n - 1 -> t = 1 /\ t_prev = 0) /\
    (forall a a_prev : Tensor,
        seq_get (cumulative_scale_factors self) t = Some a ->
        seq_get (cumulative_scale_factors self)
                (if bool_decide (t_prev > 0) then t_prev else 0) = Some a_prev ->
        call self x noise i = Ok (x_prev a a_prev x noise)) /\
    (i = n - 1 ->
     forall a a0 : Tensor,
        csf !! 1%nat = Some a -> csf !! 0%nat = Some a0 ->
        call self x noise i = Ok (x_prev a a0 x noise)) /\
    (2 * n <= T -> length csf = Z.to_nat T ->
     exists a a_prev : Tensor,
        seq_get csf t = Some a /\
        seq_get csf (if bool_decide (t_prev > 0) then t_prev else 0) = Some a_prev /\
        call self x noise i = Ok (x_prev a a_prev x noise)).
Proof.
  intros Hinit Hi. unfold DDIM.__init__ in Hinit.
  rewrite generate_timesteps_pos in Hinit by lia. cbn in Hinit.
  injection Hinit as <-.
  set (ts := reverse _).
  assert (Hget : forall j, 0 <= j < n ->
            seq_get ts j = Some ((n - 1 - j) * (T `div` n) + 1))
    by (intros j Hj; by apply generated_lookup).
  exists ((n - 1 - i) * (T `div` n) + 1).
  exists (if bool_decide (i < n - 1)
          then (n - 1 - (i + 1)) * (T `div` n) + 1 else 0).
  assert (Hcall : forall a a_prev : Tensor,
    seq_get csf ((n - 1 - i) * (T `div` n) + 1) = Some a ->
    seq_get csf
      (if bool_decide
            ((if bool_decide (i < n - 1)
              then (n - 1 - (i + 1)) * (T `div` n) + 1 else 0) > 0)
       then (if bool_decide (i < n - 1)
             then (n - 1 - (i + 1)) * (T `div` n) + 1 else 0)
       else 0) = Some a_prev ->
    call (mk n T csf ts) x noise i = Ok (x_prev a a_prev x noise)).
  { intros a a_prev Ha Hprev. unfold __call__, getitem. cbn.
    rewrite (Hget i) by lia. cbn.
    destruct (decide (i < n - 1)) as [Hlt|Hge].
    - rewrite (bool_decide_true (i < n - 1)) in Hprev |- * by done.
      rewrite (Hget (i + 1)) by lia. cbn. rewrite Ha. cbn.
      destruct (bool_decide _); rewrite Hprev; reflexivity.
    - rewrite (bool_decide_false (i < n - 1)) in Hprev |- * by done.
      cbn. rewrite Ha. cbn.
      rewrite (bool_decide_false (0 > 0)) in Hprev |- * by lia.
      rewrite Hprev. reflexivity. }
  cbn. split; [by apply Hget|]. split.
  { intros Hlt. rewrite bool_decide_true by lia. apply Hget. lia. }
  split.
  { intros ->. rewrite bool_decide_false by lia. split; [|done].
    replace (n - 1 - (n - 1)) with 0 by lia. lia. }
  split; [exact Hcall|]. split.
  { intros -> a a0 Ha Ha0. apply Hcall.
    - replace (n - 1 - (n - 1)) with 0 by lia.
      rewrite seq_get_nonneg by lia. exact Ha.
    - rewrite (bool_decide_false (n - 1 < n - 1)) by lia.
      rewrite bool_decide_false by lia.
      rewrite seq_get_nonneg by lia. exact Ha0. }
  intros HT Hlen.
  assert (Hr : 2 <= T `div` n) by (apply Z.div_le_lower_bound; lia).
  assert (Hm : n * (T `div` n) <= T) by (apply Z.mul_div_le; lia).
  assert (Hin : forall j, 0 <= j < n ->
            0 <= (n - 1 - j) * (T `div` n) + 1 < T) by (intros j Hj; nia).
  assert (Hlook : forall k, 0 <= k < T -> is_Some (seq_get csf k)).
  { intros k Hk. rewrite seq_get_nonneg by lia.
    apply lookup_lt_is_Some. lia. }
  destruct (Hlook _ (Hin i Hi)) as [a Ha].
  assert (Hprev : is_Some (seq_get csf
            (if bool_decide
                  ((if bool_decide (i < n - 1)
                    then (n - 1 - (i + 1)) * (T `div` n) + 1 else 0) > 0)
             then (if bool_decide (i < n - 1)
                   then (n - 1 - (i + 1)) * (T `div` n) + 1 else 0)
             else 0))).
  { apply Hlook. destruct (decide (i < n - 1)) as [Hlt|Hge].
    - rewrite (bool_decide_true (i < n - 1)) by done.
      assert (Hnext := Hin (i + 1) ltac:(lia)). revert Hnext.
      generalize ((n - 1 - (i + 1)) * (T `div` n) + 1). intros k Hk.
      destruct (bool_decide (k > 0)); lia.
    - rewrite (bool_decide_false (i < n - 1)) by done.
      rewrite bool_decide_false by lia. lia. }
  destruct Hprev as [a_prev Hprev].
  exists a, a_prev. split; [exact Ha|]. split; [exact Hprev|].
  by apply Hcall.
Qed.

End Step.

Lemma ddim_step_formula_witness :
  DDIM.__init__ 50 1000 example_factors = Ok example_scheduler /\
  0 <= 49 < 50 /\
  exists t t_prev : Z,
    seq_get (timesteps example_scheduler) 49 = Some t /\
    (49 < 50 - 1 -> seq_get (timesteps example_scheduler) (49 + 1) = Some t_prev) /\
    (49 = 50 - 1 -> t = 1 /\ t_prev = 0) /\
    (forall a a_prev : R,
        seq_get (cumulative_scale_factors example_scheduler) t = Some a ->
        seq_get (cumulative_scale_factors example_scheduler)
                (if bool_decide (t_prev > 0) then t_prev else 0) = Some a_prev ->
        real_step example_scheduler 1%R 0%R 49
        = Ok (x_prev_of Rplus Rminus Rmult Rdiv sqrt
                (fun t k => pow t (Z.to_nat k)) (fun k t => Rminus (IZR k) t)
                a a_prev 1%R 0%R)) /\
    (49 = 50 - 1 ->
     forall a a0 : R,
        example_factors !! 1%nat = Some a -> example_factors !! 0%nat = Some a0 ->
        real_step example_scheduler 1%R 0%R 49
        = Ok (x_prev_of Rplus Rminus Rmult Rdiv sqrt
                (fun t k => pow t (Z.to_nat k)) (fun k t => Rminus (IZR k) t)
                a a0 1%R 0%R)) /\
    (2 * 50 <= 1000 -> length example_factors = Z.to_nat 1000 ->
     exists a a_prev : R,
        seq_get example_factors t = Some a /\
        seq_get example_factors (if bool_decide (t_prev > 0) then t_prev else 0)
        = Some a_prev /\
        real_step example_scheduler 1%R 0%R 49
        = Ok (x_prev_of Rplus Rminus Rmult Rdiv sqrt
                (fun t k => pow t (Z.to_nat k)) (fun k t => Rminus (IZR k) t)
                a a_prev 1%R 0%R)).
Proof.
  split; [reflexivity|]. split; [lia|].
  apply (ddim_step_formula Rplus Rminus Rmult Rdiv sqrt
           (fun t k => pow t (Z.to_nat k)) (fun k t => Rminus (IZR k) t)
           50 1000 example_factors example_scheduler 1%R 0%R 49).
  - reflexivity.
  - lia.
Defined.

(** C2 as stated fails: with two inference steps over two training
    timesteps and one scale factor per training timestep the timesteps
    are [[2; 1]]; at the valid index [0] the step looks up the scale factor
    at [2], one past the last one, and raises [IndexError]. *)
Lemma step_at_every_valid_index_counterexample :
  ~ DDIMStated.step_returns_at_every_valid_index 2 2 [(/ 2)%R; (/ 4)%R].
Proof.
  intros Hclaim.
  destruct (Hclaim (mk 2 2 [(/ 2)%R; (/ 4)%R] [2; 1]) 1%R 0%R 0 eq_refl)
    as (a & a_prev & Hstep); [lia|].
  assert (Hraise : real_step (mk 2 2 [(/ 2)%R; (/ 4)%R] [2; 1]) 1%R 0%R 0
                   = Raise IndexError) by reflexivity.
  rewrite Hraise in Hstep. discriminate Hstep.
Qed.

(** C3.  With 50 inference steps over 1000 training timesteps the step
    ratio is [1000 // 50 = 20] and the generated sequence is
    [1, 21, ..., 981] reversed, that is [981, 961, ..., 21, 1]: fifty
    strictly decreasing timesteps whose minimum is [1]. *)
Theorem ddim_timesteps_50_1000 :
  exists ts : list Z,
    _generate_timesteps 50 1000 = Ok ts /\
    1000 `div` 50 = 20 /\
    ts = reverse ((fun k => 20 * k + 1) <$> seqZ 0 50) /\
    ts = (fun k => 981 - 20 * k) <$> seqZ 0 50 /\
    length ts = 50%nat /\
    strictly_decreasing ts = true /\
    minimum ts = Some 1 /\
    head ts = Some 981 /\ ts !! 1%nat = Some 961 /\
    ts !! 48%nat = Some 21 /\ last ts = Some 1.
Proof.
  eexists. split; [vm_compute; reflexivity|].
  repeat split; vm_compute; reflexivity.
Qed.

End DDIMFacts.

(** ** The adapter lifecycle *)

Module GraphFacts.
Import Py PyFacts Graph.
Local Open Scope nat_scope.

(** *** Replacement of a child, on one list *)

Lemma replace_first_notin old new l :
  old ∉ l -> replace_first old new l = l.
Proof.
  induction l as [|y l IH]; [done|]. intros Hnotin. cbn.
  rewrite not_elem_of_cons in Hnotin. destruct Hnotin as [Hne Hl].
  rewrite decide_False by done. by rewrite IH.
Qed.

Lemma replace_first_cancel old new l :
  new ∉ l -> replace_first new old (replace_first old new l) = l.
Proof.
  induction l as [|y l IH]; [done|]. intros Hnotin.
  rewrite not_elem_of_cons in Hnotin. destruct Hnotin as [Hne Hl]. cbn.
  destruct (decide (y = old)) as [->|Hy]; cbn.
  - by rewrite decide_True.
  - rewrite decide_False by done. by rewrite IH.
Qed.

Lemma replace_first_comm x y x' y' l :
  x <> x' -> y <> x' -> y' <> x ->
  replace_first x y (replace_first x' y' l)
  = replace_first x' y' (replace_first x y l).
Proof.
  intros Hxx Hyx Hyx'. induction l as [|z l IH]; [done|]. cbn.
  destruct (decide (z = x')) as [Hz'|Hz'], (decide (z = x)) as [Hzx|Hzx]; cbn.
  - congruence.
  - rewrite (decide_False (P := y' = x)) by done.
    by rewrite (decide_True (P := z = x')).
  - rewrite (decide_False (P := y = x')) by done.
    by rewrite (decide_True (P := z = x)).
  - rewrite (decide_False (P := z = x)), (decide_False (P := z = x')) by done.
    by rewrite IH.
Qed.

Lemma replace_first_cons x y z l :
  z <> x -> replace_first x y (z :: l) = z :: replace_first x y l.
Proof. intros Hz. cbn. by rewrite decide_False. Qed.

Lemma elem_of_replace_first x y z l :
  z ∈ replace_first x y l -> z = y \/ z ∈ l.
Proof.
  induction l as [|w l IH]; cbn; [by right|].
  destruct (decide (w = x)) as [->|Hw]; rewrite !elem_of_cons.
  - intros [->|Hz]; auto.
  - intros [->|Hz]; [auto|]. destruct (IH Hz); auto.
Qed.

(** *** Injection and ejection seen from one chain *)

Lemma foldl_snoc {A B} (f : A -> B -> A) a l x :
  foldl f a (l ++ [x]) = f (foldl f a l) x.
Proof. by rewrite foldl_app. Qed.

Lemma eject_at_comm c a b l :
  ident a <> ident b ->
  (parent a = Some c -> parent b = Some c ->
   target a <> ident b /\ target b <> ident a) ->
  eject_at c (eject_at c l a) b = eject_at c (eject_at c l b) a.
Proof.
  intros Hne Htgt. unfold eject_at.
  destruct (decide (parent a = Some c)) as [Ha|Ha],
           (decide (parent b = Some c)) as [Hb|Hb]; try done.
  destruct (Htgt Ha Hb) as [H1 H2].
  apply replace_first_comm; congruence.
Qed.

Lemma elem_of_inject_at c a z l :
  z ∈ inject_at c l a -> z = ident a \/ z ∈ l.
Proof.
  unfold inject_at. case_decide; [apply elem_of_replace_first|by right].
Qed.

Lemma eject_inject_at c a l :
  ident a ∉ l -> eject_at c (inject_at c l a) a = l.
Proof.
  intros Hfresh. unfold eject_at, inject_at. case_decide; [|done].
  by apply replace_first_cancel.
Qed.

(** Ejecting in the order of injection undoes the injection, whatever was
    done to the list in between, provided that commutes with ejections. *)
Lemma list_round_trip c (ads : list Adapter) :
  NoDup (ident <$> ads) ->
  (forall a b, a ∈ ads -> b ∈ ads ->
     parent a = Some c -> parent b = Some c -> target a <> ident b) ->
  forall (M : list oid -> list oid) (l : list oid),
    (forall a, a ∈ ads -> ident a ∉ l) ->
    (forall a l', a ∈ ads -> eject_at c (M l') a = M (eject_at c l' a)) ->
    foldl (eject_at c) (M (foldl (inject_at c) l ads)) ads = M l.
Proof.
  induction ads as [|a ads IH]; intros Hnd Htgt M l Hfresh HM; [done|].
  cbn [fmap list_fmap] in Hnd. apply NoDup_cons in Hnd as [Ha Hnd].
  cbn [foldl].
  rewrite (IH Hnd) with (M := fun l' => eject_at c (M l') a).
  - rewrite HM by left. by rewrite eject_inject_at by (apply Hfresh; left).
  - intros a' b' Ha' Hb'. apply Htgt; by right.
  - intros b Hb Hin. apply elem_of_inject_at in Hin as [Heq|Hin].
    + apply Ha. rewrite <- Heq. by apply list_elem_of_fmap_2.
    + by apply (Hfresh b); [right|].
  - intros b l' Hb. rewrite <- HM by (by right).
    apply eject_at_comm.
    + intros Heq. apply Ha. rewrite Heq. by apply list_elem_of_fmap_2.
    + intros Hpa Hpb. split; apply Htgt; (done || by left || by right).
Qed.

(** *** Single operations *)

Lemma insert_as_alter {A} (f : A -> A) (K : gmap oid A) c l :
  K !! c = Some l -> <[c := f l]> K = alter f c K.
Proof.
  intros Hl. apply map_eq. intros j.
  rewrite lookup_insert, lookup_alter. case_decide; subst; by rewrite ?Hl.
Qed.

Lemma store_eta s : mkStore (kids s) (slot_of s) (trace s) = s.
Proof. by destruct s. Qed.

Lemma replace_if_resides c x y s :
  (if resides x c s then Chain_replace c x y s else Ok s)
  = Ok (mkStore (alter (replace_first x y) c (kids s)) (slot_of s) (trace s)).
Proof.
  unfold resides, Chain_replace.
  destruct (kids s !! c) as [l|] eqn:Hl.
  - case_bool_decide as Hin.
    + by rewrite (insert_as_alter (replace_first x y) _ _ _ Hl).
    + rewrite alter_id; [by rewrite store_eta|].
      intros l' Hl'. rewrite Hl in Hl'. injection Hl' as <-.
      by apply replace_first_notin.
  - rewrite alter_id' by done. by rewrite store_eta.
Qed.

Lemma Adapter_inject_run a parg s :
  slot_of s !! ident a = None ->
  Adapter_inject a parg s
  = Ok (mkStore (inject_kids (kids s) (with_parent a parg))
                (mark (slot_of s) (with_parent a parg))
                (trace s ++ [Injected (ident a)])).
Proof.
  intros Hslot. unfold Adapter_inject. rewrite Hslot.
  change (match parg with Some c => Some c | None => parent a end)
    with (slot_parent a parg).
  unfold inject_kids, mark, replace_in. cbn.
  destruct (slot_parent a parg) as [c|]; cbn.
  - by rewrite replace_if_resides.
  - reflexivity.
Qed.

Lemma Adapter_eject_run a p s :
  slot_of s !! ident a = Some p ->
  Adapter_eject a s
  = Ok (mkStore (replace_in p (ident a) (target a) (kids s))
                (unmark (slot_of s) a)
                (trace s ++ [Ejected (ident a)])).
Proof.
  intros Hslot. unfold Adapter_eject. rewrite Hslot.
  unfold replace_in, unmark. destruct p as [c|]; cbn.
  - by rewrite replace_if_resides.
  - reflexivity.
Qed.

Lemma with_parent_None a : with_parent a None = a.
Proof. by destruct a. Qed.

(** *** The loops over the sub-adapters *)

Lemma inject_all_run ads : forall s,
  NoDup (ident <$> ads) ->
  (forall a, a ∈ ads -> slot_of s !! ident a = None) ->
  for_each (fun a => Adapter_inject a None) ads s
  = Ok (mkStore (foldl inject_kids (kids s) ads)
                (foldl mark (slot_of s) ads)
                (trace s ++ (Injected ∘ ident <$> ads))).
Proof.
  induction ads as [|a ads IH]; intros s Hnd Hslot.
  - cbn. by rewrite app_nil_r, store_eta.
  - cbn [fmap list_fmap] in Hnd. apply NoDup_cons in Hnd as [Ha Hnd].
    cbn [for_each]. rewrite Adapter_inject_run by (apply Hslot; left).
    cbn [Py.bind]. rewrite with_parent_None, IH; [|done|].
    + cbn. by rewrite <- app_assoc.
    + intros b Hb. cbn. unfold mark. rewrite lookup_insert_ne.
      * apply Hslot. by right.
      * intros Heq. apply Ha. rewrite Heq. by apply list_elem_of_fmap_2.
Qed.

Lemma eject_all_run ads : forall s,
  NoDup (ident <$> ads) ->
  (forall a, a ∈ ads -> slot_of s !! ident a = Some (parent a)) ->
  for_each Adapter_eject ads s
  = Ok (mkStore (foldl eject_kids (kids s) ads)
                (foldl unmark (slot_of s) ads)
                (trace s ++ (Ejected ∘ ident <$> ads))).
Proof.
  induction ads as [|a ads IH]; intros s Hnd Hslot.
  - cbn. by rewrite app_nil_r, store_eta.
  - cbn [fmap list_fmap] in Hnd. apply NoDup_cons in Hnd as [Ha Hnd].
    cbn [for_each]. rewrite (Adapter_eject_run a (parent a)) by (apply Hslot; left).
    cbn [Py.bind]. rewrite IH; [|done|].
    + cbn. by rewrite <- app_assoc.
    + intros b Hb. cbn. unfold unmark. rewrite lookup_delete_ne.
      * apply Hslot. by right.
      * intros Heq. apply Ha. rewrite Heq. by apply list_elem_of_fmap_2.
Qed.

(** *** The stores seen from one chain *)

Lemma lookup_replace_in p x y K c :
  replace_in p x y K !! c
  = (fun l => if decide (p = Some c) then replace_first x y l else l) <$> K !! c.
Proof.
  destruct p as [c'|]; cbn.
  - rewrite lookup_alter. destruct (decide (c' = c)) as [->|Hne].
    + destruct (K !! c) as [l|]; cbn; [|done]. by rewrite decide_True.
    + destruct (K !! c) as [l|]; cbn; [|done]. by rewrite decide_False by congruence.
  - by destruct (K !! c).
Qed.

Lemma lookup_inject_kids K a c :
  inject_kids K a !! c = (fun l => inject_at c l a) <$> K !! c.
Proof. apply lookup_replace_in. Qed.

Lemma lookup_eject_kids K a c :
  eject_kids K a !! c = (fun l => eject_at c l a) <$> K !! c.
Proof. apply lookup_replace_in. Qed.

Lemma lookup_foldl_inject ads : forall K c,
  foldl inject_kids K ads !! c = (fun l => foldl (inject_at c) l ads) <$> K !! c.
Proof.
  induction ads as [|a ads IH]; intros K c; cbn.
  - by destruct (K !! c).
  - rewrite IH, lookup_inject_kids. by destruct (K !! c).
Qed.

Lemma lookup_foldl_eject ads : forall K c,
  foldl eject_kids K ads !! c = (fun l => foldl (eject_at c) l ads) <$> K !! c.
Proof.
  induction ads as [|a ads IH]; intros K c; cbn.
  - by destruct (K !! c).
  - rewrite IH, lookup_eject_kids. by destruct (K !! c).
Qed.

Lemma lookup_foldl_mark_notin ads : forall F x,
  x ∉ ident <$> ads -> foldl mark F ads !! x = F !! x.
Proof.
  induction ads as [|a ads IH]; intros F x Hx; [done|].
  cbn in *. rewrite not_elem_of_cons in Hx. destruct Hx as [Hne Hx].
  rewrite IH by done. unfold mark. by rewrite lookup_insert_ne.
Qed.

Lemma lookup_foldl_mark_in ads : forall F a,
  NoDup (ident <$> ads) -> a ∈ ads ->
  foldl mark F ads !! ident a = Some (parent a).
Proof.
  induction ads as [|b ads IH]; intros F a Hnd Ha; [by apply elem_of_nil in Ha|].
  cbn [fmap list_fmap] in Hnd. apply NoDup_cons in Hnd as [Hb Hnd].
  apply elem_of_cons in Ha as [->|Ha]; cbn.
  - rewrite lookup_foldl_mark_notin by done. unfold mark. by rewrite lookup_insert_eq.
  - by apply IH.
Qed.

Lemma lookup_foldl_unmark ads : forall F x,
  foldl unmark F ads !! x
  = if decide (x ∈ ident <$> ads) then None else F !! x.
Proof.
  induction ads as [|a ads IH]; intros F x; cbn.
  - rewrite decide_False; [done|]. apply not_elem_of_nil.
  - rewrite IH. unfold unmark. rewrite lookup_delete.
    destruct (decide (x ∈ ident <$> ads)) as [Hin|Hnotin].
    + rewrite decide_True; [done|]. by right.
    + destruct (decide (ident a = x)) as [<-|Hne].
      * rewrite decide_True; [done|]. by left.
      * rewrite decide_False; [done|]. rewrite not_elem_of_cons. by split.
Qed.

Lemma foldl_eject_at_cons c z ads : forall l,
  z ∉ ident <$> ads ->
  foldl (eject_at c) (z :: l) ads = z :: foldl (eject_at c) l ads.
Proof.
  induction ads as [|a ads IH]; intros l Hz; [done|].
  cbn in *. rewrite not_elem_of_cons in Hz. destruct Hz as [Hne Hz].
  rewrite <- IH by done. f_equal. unfold eject_at. case_decide; [|done].
  by apply replace_first_cons.
Qed.

(** *** What [ready] provides *)

Lemma ready_spec ip parg s :
  ready ip parg s = true ->
  NoDup (own_ids ip) /\
  (forall c l x, kids s !! c = Some l -> x ∈ l -> x ∉ own_ids ip) /\
  (forall a, a ∈ base ip :: sub_adapters ip -> slot_of s !! ident a = None) /\
  (forall a, a ∈ sub_adapters ip -> built_around a None s = true) /\
  built_around (base ip) parg s = true /\
  (use_pooled_text_embedding ip = true -> is_Some (kids s !! target (base ip))).
Proof.
  unfold ready. rewrite !andb_true_iff, !bool_decide_eq_true.
  intros [[[[[Hnd Hfresh] Hslot] Hsubs] Hbase] Hchain].
  split; [done|]. split.
  { intros c l x Hl Hx. specialize (Hfresh c l Hl). cbn in Hfresh.
    rewrite Forall_forall in Hfresh. by apply Hfresh. }
  split.
  { intros a Ha. rewrite forallb_forall in Hslot.
    apply list_elem_of_In in Ha. apply Hslot in Ha.
    by apply bool_decide_eq_true in Ha. }
  split.
  { intros a Ha. rewrite forallb_forall in Hsubs.
    apply list_elem_of_In in Ha. by apply Hsubs. }
  split; [done|].
  intros Hp. rewrite Hp in Hchain. by apply bool_decide_eq_true in Hchain.
Qed.

Lemma own_ids_adapters ip parg a :
  a ∈ all_adapters ip parg -> ident a ∈ own_ids ip.
Proof.
  unfold all_adapters, own_ids. intros Ha.
  apply elem_of_app. right.
  apply elem_of_app in Ha as [Ha|Ha].
  - apply elem_of_app. left. by apply list_elem_of_fmap_2.
  - apply list_elem_of_singleton in Ha as ->. apply elem_of_app. right.
    cbn. by left.
Qed.

Lemma NoDup_adapters ip parg :
  NoDup (own_ids ip) -> NoDup (ident <$> all_adapters ip parg).
Proof.
  unfold own_ids, all_adapters. intros Hnd.
  apply NoDup_app in Hnd as (_ & _ & Hnd). by rewrite fmap_app.
Qed.

Lemma NoDup_subs ip :
  NoDup (own_ids ip) -> NoDup (ident <$> sub_adapters ip).
Proof.
  unfold own_ids. intros Hnd.
  apply NoDup_app in Hnd as (_ & _ & Hnd).
  by apply NoDup_app in Hnd as (Hnd & _ & _).
Qed.

Lemma base_not_sub ip :
  NoDup (own_ids ip) -> ident (base ip) ∉ ident <$> sub_adapters ip.
Proof.
  unfold own_ids. intros Hnd.
  apply NoDup_app in Hnd as (_ & _ & Hnd).
  apply NoDup_app in Hnd as (_ & Hdisj & _).
  intros Hin. apply (Hdisj _ Hin). by left.
Qed.

Lemma proj_not_adapter ip parg :
  use_pooled_text_embedding ip = true ->
  NoDup (own_ids ip) ->
  pooled_text_embedding_proj ip ∉ ident <$> all_adapters ip parg.
Proof.
  unfold own_ids, all_adapters. intros -> Hnd.
  apply NoDup_app in Hnd as (_ & Hdisj & _).
  rewrite fmap_app. apply Hdisj. by left.
Qed.

(** The target of an adapter that acts on chain [c] is a child of [c]. *)
Lemma target_in_chain ip parg s a c l :
  ready ip parg s = true ->
  a ∈ all_adapters ip parg -> parent a = Some c -> kids s !! c = Some l ->
  target a ∈ l.
Proof.
  intros Hr Ha Hp Hl.
  destruct (ready_spec _ _ _ Hr) as (_ & _ & _ & Hsubs & Hbase & _).
  assert (Hb : built_around a None s = true).
  { apply elem_of_app in Ha as [Ha|Ha]; [by apply Hsubs|].
    apply list_elem_of_singleton in Ha as ->. exact Hbase. }
  unfold built_around, slot_parent, resides in Hb.
  rewrite Hp, Hl in Hb. by apply bool_decide_eq_true in Hb.
Qed.

(** *** One chain across a whole round *)

Lemma round_trip_at ip parg s c l :
  ready ip parg s = true -> kids s !! c = Some l ->
  foldl (eject_at c) (foldl (inject_at c) l (all_adapters ip parg))
        (all_adapters ip parg) = l.
Proof.
  intros Hr Hl.
  destruct (ready_spec _ _ _ Hr) as (Hnd & Hfresh & _).
  apply (list_round_trip c (all_adapters ip parg)) with (M := fun l' => l').
  - by apply NoDup_adapters.
  - intros a b Ha Hb Hpa _ Heq.
    apply (Hfresh c l (target a) Hl).
    + by apply (target_in_chain ip parg s a c l).
    + rewrite Heq. by apply (own_ids_adapters ip parg).
  - intros a Ha Hin. apply (Hfresh c l _ Hl Hin).
    by apply (own_ids_adapters ip parg).
  - done.
Qed.

Lemma prepend_out ip parg s c l l1 :
  ready ip parg s = true -> kids s !! c = Some l ->
  foldl (eject_at c)
        (inject_at c (prepend_at ip c l1) (with_parent (base ip) parg))
        (sub_adapters ip)
  = prepend_at ip c
      (foldl (eject_at c) (inject_at c l1 (with_parent (base ip) parg))
             (sub_adapters ip)).
Proof.
  intros Hr Hl. unfold prepend_at.
  destruct (use_pooled_text_embedding ip) eqn:Hp; [|done].
  case_bool_decide as Hc; [|done]. cbn [andb].
  destruct (ready_spec _ _ _ Hr) as (Hnd & Hfresh & _).
  assert (Hproj := proj_not_adapter ip parg Hp Hnd).
  unfold all_adapters in Hproj. rewrite fmap_app, not_elem_of_app in Hproj.
  destruct Hproj as [Hproj _].
  rewrite <- foldl_eject_at_cons by done. f_equal.
  unfold inject_at. case_decide as Hpar; [|done].
  apply replace_first_cons. cbn [target with_parent]. intros Heq.
  assert (Hin : target (with_parent (base ip) parg) ∈ l).
  { apply (target_in_chain ip parg s _ c); [done| |done|done].
    unfold all_adapters. apply elem_of_app. right. by left. }
  apply (Hfresh c l _ Hl Hin). cbn [target with_parent]. rewrite <- Heq.
  unfold own_ids. rewrite Hp. by left.
Qed.

Lemma lookup_injected_kids ip parg K c :
  injected_kids ip parg K !! c
  = (fun l => inject_at c (prepend_at ip c (foldl (inject_at c) l (sub_adapters ip)))
                        (with_parent (base ip) parg)) <$> K !! c.
Proof.
  unfold injected_kids, prepend_at. rewrite lookup_inject_kids.
  destruct (use_pooled_text_embedding ip); cbn [andb].
  - rewrite lookup_alter. case_bool_decide as Hc.
    + rewrite decide_True by done. subst c. rewrite lookup_foldl_inject.
      by destruct (K !! target (base ip)).
    + rewrite decide_False by done. rewrite lookup_foldl_inject.
      by destruct (K !! c).
  - rewrite lookup_foldl_inject. by destruct (K !! c).
Qed.

Lemma unmark_mark_all ads F :
  (forall a, a ∈ ads -> F !! ident a = None) ->
  foldl unmark (foldl mark F ads) ads = F.
Proof.
  intros Hnone. apply map_eq. intros x. rewrite lookup_foldl_unmark.
  case_decide as Hx.
  - apply list_elem_of_fmap in Hx as (a & -> & Ha). symmetry. by apply Hnone.
  - by apply lookup_foldl_mark_notin.
Qed.

(** *** [IPAdapter.inject] and [IPAdapter.eject] as one step each *)

Lemma IPAdapter_inject_run ip parg s :
  ready ip parg s = true ->
  IPAdapter_inject ip parg s
  = Ok (mkStore (injected_kids ip parg (kids s))
                (injected_slots ip parg (slot_of s))
                (trace s ++ inject_events ip)).
Proof.
  intros Hr.
  destruct (ready_spec _ _ _ Hr) as (Hnd & Hfresh & Hslot & _ & _ & Hchain).
  unfold IPAdapter_inject.
  rewrite inject_all_run;
    [|by apply NoDup_subs|intros a Ha; apply Hslot; by right].
  cbn [Py.bind].
  assert (Hbase : foldl mark (slot_of s) (sub_adapters ip) !! ident (base ip) = None).
  { rewrite lookup_foldl_mark_notin by (by apply base_not_sub).
    apply Hslot. by left. }
  unfold injected_kids, injected_slots, inject_events.
  destruct (use_pooled_text_embedding ip) eqn:Hp.
  - destruct (Hchain eq_refl) as [l Hl].
    unfold Chain_insert. cbn [kids slot_of trace].
    rewrite lookup_foldl_inject, Hl. cbn [fmap option_fmap option_map Py.bind].
    rewrite Adapter_inject_run by exact Hbase.
    cbn [kids slot_of trace]. rewrite take_0, drop_0. cbn [app].
    rewrite (insert_as_alter (cons (pooled_text_embedding_proj ip))
               (foldl inject_kids (kids s) (sub_adapters ip))
               (target (base ip))
               (foldl (inject_at (target (base ip))) l (sub_adapters ip)))
      by (by rewrite lookup_foldl_inject, Hl).
    by rewrite <- !app_assoc.
  - cbn [Py.bind]. rewrite Adapter_inject_run by exact Hbase.
    cbn [kids slot_of trace]. by rewrite <- !app_assoc.
Qed.

Lemma IPAdapter_eject_run ip parg s tr :
  ready ip parg s = true ->
  IPAdapter_eject ip (mkStore (injected_kids ip parg (kids s))
                              (injected_slots ip parg (slot_of s)) tr)
  = Ok (mkStore (kids s) (slot_of s) (tr ++ eject_events ip)).
Proof.
  intros Hr.
  destruct (ready_spec _ _ _ Hr) as (Hnd & Hfresh & Hslot & _ & _ & Hchain).
  assert (Hns := NoDup_subs _ Hnd). assert (Hbs := base_not_sub _ Hnd).
  unfold IPAdapter_eject.
  rewrite eject_all_run; [|done|].
  2:{ intros a Ha. cbn [slot_of]. unfold injected_slots, mark at 1.
      rewrite lookup_insert_ne.
      - by apply lookup_foldl_mark_in.
      - cbn [ident with_parent]. intros Heq. apply Hbs. rewrite Heq.
        by apply list_elem_of_fmap_2. }
  cbn [Py.bind kids slot_of trace].
  set (K4 := foldl eject_kids (injected_kids ip parg (kids s)) (sub_adapters ip)).
  set (F4 := foldl unmark (injected_slots ip parg (slot_of s)) (sub_adapters ip)).
  assert (HK4 : forall c l, kids s !! c = Some l ->
            K4 !! c = Some (prepend_at ip c
              (foldl (eject_at c)
                 (inject_at c (foldl (inject_at c) l (sub_adapters ip))
                            (with_parent (base ip) parg))
                 (sub_adapters ip)))).
  { intros c l Hl. unfold K4.
    rewrite lookup_foldl_eject, lookup_injected_kids, Hl.
    cbn [fmap option_fmap option_map]. f_equal.
    by apply (prepend_out ip parg s c l). }
  assert (HK4None : forall c, kids s !! c = None -> K4 !! c = None).
  { intros c Hl. unfold K4.
    by rewrite lookup_foldl_eject, lookup_injected_kids, Hl. }
  assert (HF4 : F4 !! ident (base ip) = Some (slot_parent (base ip) parg)).
  { unfold F4. rewrite lookup_foldl_unmark, decide_False by done.
    unfold injected_slots, mark. cbn [ident with_parent parent].
    by rewrite lookup_insert_eq. }
  assert (Hround : forall c l, kids s !! c = Some l ->
            eject_at c
              (foldl (eject_at c)
                 (inject_at c (foldl (inject_at c) l (sub_adapters ip))
                            (with_parent (base ip) parg))
                 (sub_adapters ip))
              (with_parent (base ip) parg) = l).
  { intros c l Hl. etrans; [|exact (round_trip_at ip parg s c l Hr Hl)].
    unfold all_adapters. by rewrite !foldl_snoc. }
  assert (Hflags : unmark F4 (base ip) = slot_of s).
  { unfold F4, injected_slots.
    trans (foldl unmark (foldl mark (slot_of s) (all_adapters ip parg))
                 (all_adapters ip parg)).
    { unfold all_adapters. rewrite !foldl_snoc. reflexivity. }
    apply unmark_mark_all.
    intros a Ha. apply elem_of_app in Ha as [Ha|Ha].
    - apply Hslot. by right.
    - apply list_elem_of_singleton in Ha as ->. apply (Hslot (base ip)). by left. }
  unfold eject_events.
  destruct (use_pooled_text_embedding ip) eqn:Hp.
  - destruct (Hchain eq_refl) as [l Hl].
    assert (HT := HK4 _ _ Hl). unfold prepend_at in HT.
    rewrite Hp, bool_decide_true in HT by done. cbn [andb] in HT.
    unfold Chain_pop. cbn [kids slot_of trace]. rewrite HT.
    cbn [lookup list_lookup Py.bind delete list_delete].
    rewrite (Adapter_eject_run _ (slot_parent (base ip) parg)) by exact HF4.
    cbn [kids slot_of trace]. rewrite Hflags, <- !app_assoc.
    do 2 f_equal. apply map_eq. intros c.
    rewrite lookup_replace_in, lookup_insert.
    destruct (decide (target (base ip) = c)) as [<-|Hc].
    + cbn [fmap option_fmap option_map]. rewrite Hl. f_equal.
      exact (Hround _ _ Hl).
    + destruct (kids s !! c) as [lc|] eqn:Hlc.
      * rewrite (HK4 _ _ Hlc). unfold prepend_at.
        rewrite Hp, bool_decide_false by done.
        cbn [andb fmap option_fmap option_map]. f_equal.
        exact (Hround _ _ Hlc).
      * by rewrite HK4None.
  - cbn [Py.bind].
    rewrite (Adapter_eject_run _ (slot_parent (base ip) parg)) by exact HF4.
    cbn [kids slot_of trace]. rewrite Hflags, <- !app_assoc.
    do 2 f_equal. apply map_eq. intros c.
    rewrite lookup_replace_in.
    destruct (kids s !! c) as [lc|] eqn:Hlc.
    + rewrite (HK4 _ _ Hlc). unfold prepend_at. rewrite Hp.
      cbn [andb fmap option_fmap option_map]. f_equal.
      exact (Hround _ _ Hlc).
    + by rewrite HK4None.
Qed.

Lemma ready_same_graph ip parg s tr :
  ready ip parg (mkStore (kids s) (slot_of s) tr) = ready ip parg s.
Proof. reflexivity. Qed.

Lemma cycles_run ip parg n : forall s,
  ready ip parg s = true ->
  exists tr, cycles ip parg n s = Ok (mkStore (kids s) (slot_of s) tr).
Proof.
  induction n as [|n IH]; intros s Hr.
  - exists (trace s). cbn. by rewrite store_eta.
  - cbn [cycles]. rewrite IPAdapter_inject_run by done. cbn [Py.bind].
    rewrite (IPAdapter_eject_run ip parg s) by done. cbn [Py.bind].
    destruct (IH (mkStore (kids s) (slot_of s)
                          ((trace s ++ inject_events ip) ++ eject_events ip)))
      as [tr Htr]; [done|].
    exists tr. exact Htr.
Qed.

Lemma inject_at_prepend ip parg s c l l1 :
  ready ip parg s = true -> kids s !! c = Some l ->
  inject_at c (prepend_at ip c l1) (with_parent (base ip) parg)
  = prepend_at ip c (inject_at c l1 (with_parent (base ip) parg)).
Proof.
  intros Hr Hl. assert (H := prepend_out ip parg s c l l1 Hr Hl).
  destruct (ready_spec _ _ _ Hr) as (Hnd & Hfresh & _).
  unfold prepend_at in *.
  destruct (use_pooled_text_embedding ip) eqn:Hp; [|done].
  case_bool_decide as Hc; [|done]. cbn [andb] in *.
  assert (Hproj := proj_not_adapter ip parg Hp Hnd).
  unfold all_adapters in Hproj. rewrite fmap_app, not_elem_of_app in Hproj.
  destruct Hproj as [Hproj _].
  rewrite <- foldl_eject_at_cons in H by done.
  unfold inject_at. case_decide as Hpar; [|done].
  apply replace_first_cons. cbn [target with_parent]. intros Heq.
  assert (Hin : target (with_parent (base ip) parg) ∈ l).
  { apply (target_in_chain ip parg s _ c); [done| |done|done].
    unfold all_adapters. apply elem_of_app. right. by left. }
  apply (Hfresh c l _ Hl Hin). cbn [target with_parent]. rewrite <- Heq.
  unfold own_ids. rewrite Hp. by left.
Qed.

(** A plain adapter is the composite without sub-adapters and projector. *)
Lemma plain_adapter_inject a x parg s :
  IPAdapter_inject (mkIPAdapter a [] false x) parg s = Adapter_inject a parg s.
Proof. reflexivity. Qed.

Lemma plain_adapter_eject a x s :
  IPAdapter_eject (mkIPAdapter a [] false x) s = Adapter_eject a s.
Proof. reflexivity. Qed.

(** C1.  For an adapter built around a target inside a parent chain (a
    plain adapter being the case without sub-adapters and projector),
    [inject] followed by [eject] succeeds and leaves every child list, in
    particular the parent's, equal element by element (as object
    identities) to what it was, and every adapter NOT_INJECTED again.  With
    [use_pooled_text_embedding] the projector sits at position 0 of the
    target's child list after [inject] and is in no child list after
    [eject]; any number of rounds leaves the same graph. *)
Theorem inject_eject_round_trip (ip : IPAdapter) (parg : option oid) (s : Store) :
  ready ip parg s = true ->
  exists s1 s2 : Store,
    IPAdapter_inject ip parg s = Ok s1 /\
    IPAdapter_eject ip s1 = Ok s2 /\
    kids s2 = kids s /\
    slot_of s2 = slot_of s /\
    (use_pooled_text_embedding ip = true ->
       (exists l, kids s1 !! target (base ip)
                  = Some (pooled_text_embedding_proj ip :: l)) /\
       (forall c l, kids s2 !! c = Some l -> pooled_text_embedding_proj ip ∉ l)) /\
    (forall n : nat, exists sn : Store,
       cycles ip parg n s = Ok sn /\ kids sn = kids s /\ slot_of sn = slot_of s).
Proof.
  intros Hr. eexists _, _.
  split; [by apply IPAdapter_inject_run|].
  split; [by apply (IPAdapter_eject_run ip parg s)|].
  cbn [kids slot_of]. split; [done|]. split; [done|]. split.
  - intros Hp.
    destruct (ready_spec _ _ _ Hr) as (Hnd & Hfresh & _ & _ & _ & Hchain).
    destruct (Hchain Hp) as [l Hl]. split.
    + rewrite lookup_injected_kids, Hl. cbn [fmap option_fmap option_map].
      rewrite (inject_at_prepend ip parg s _ l) by done.
      unfold prepend_at. rewrite Hp, bool_decide_true by done. cbn [andb].
      by eexists.
    + intros c lc Hlc Hin. apply (Hfresh c lc _ Hlc Hin).
      unfold own_ids. rewrite Hp. by left.
  - intros n. destruct (cycles_run ip parg n s Hr) as [tr Htr].
    eexists. split; [exact Htr|]. by split.
Qed.

Lemma inject_eject_round_trip_witness :
  ready example_ip None example_store = true /\
  exists s1 s2 : Store,
    IPAdapter_inject example_ip None example_store = Ok s1 /\
    IPAdapter_eject example_ip s1 = Ok s2 /\
    kids s2 = kids example_store /\
    slot_of s2 = slot_of example_store /\
    (use_pooled_text_embedding example_ip = true ->
       (exists l, kids s1 !! target (base example_ip)
                  = Some (pooled_text_embedding_proj example_ip :: l)) /\
       (forall c l, kids s2 !! c = Some l ->
                    pooled_text_embedding_proj example_ip ∉ l)) /\
    (forall n : nat, exists sn : Store,
       cycles example_ip None n example_store = Ok sn /\
       kids sn = kids example_store /\ slot_of sn = slot_of example_store).
Proof.
  split; [vm_compute; reflexivity|].
  apply (inject_eject_round_trip example_ip None example_store).
  vm_compute; reflexivity.
Defined.

(** C5, as the code has it.  [IPAdapter.inject] injects every sub-adapter
    first, in order; with [use_pooled_text_embedding] it then inserts the
    projector at position 0 of the child list of the target itself (not of
    the chain that holds the target); last it injects the adapter itself.
    Afterwards the projector is the first child of the target and every
    adapter is INJECTED. *)
Theorem inject_order (ip : IPAdapter) (parg : option oid) (s : Store) :
  ready ip parg s = true ->
  exists s1 : Store,
    IPAdapter_inject ip parg s = Ok s1 /\
    trace s1
    = trace s
      ++ (Injected ∘ ident <$> sub_adapters ip)
      ++ (if use_pooled_text_embedding ip
          then [Inserted (target (base ip)) 0 (pooled_text_embedding_proj ip)]
          else [])
      ++ [Injected (ident (base ip))] /\
    (use_pooled_text_embedding ip = true ->
       exists l, kids s1 !! target (base ip)
                 = Some (pooled_text_embedding_proj ip :: l)) /\
    (forall a, a ∈ base ip :: sub_adapters ip -> is_Some (slot_of s1 !! ident a)).
Proof.
  intros Hr. eexists. split; [by apply IPAdapter_inject_run|].
  cbn [kids slot_of trace]. split; [done|]. split.
  - intros Hp.
    destruct (ready_spec _ _ _ Hr) as (Hnd & Hfresh & _ & _ & _ & Hchain).
    destruct (Hchain Hp) as [l Hl].
    rewrite lookup_injected_kids, Hl. cbn [fmap option_fmap option_map].
    rewrite (inject_at_prepend ip parg s _ l) by done.
    unfold prepend_at. rewrite Hp, bool_decide_true by done. cbn [andb].
    by eexists.
  - destruct (ready_spec _ _ _ Hr) as (Hnd & _).
    intros a Ha. unfold injected_slots, mark at 1. cbn [ident with_parent parent].
    apply elem_of_cons in Ha as [->|Ha].
    + rewrite lookup_insert_eq. by eexists.
    + rewrite lookup_insert_ne.
      * rewrite (lookup_foldl_mark_in _ _ a); [by eexists|by apply NoDup_subs|done].
      * intros Heq. apply (base_not_sub _ Hnd). rewrite Heq.
        by apply list_elem_of_fmap_2.
Qed.

Lemma inject_order_witness :
  ready example_ip None example_store = true /\
  exists s1 : Store,
    IPAdapter_inject example_ip None example_store = Ok s1 /\
    trace s1 = [Injected 11; Injected 12; Inserted 2 0 13; Injected 10]%nat /\
    (use_pooled_text_embedding example_ip = true ->
       exists l, kids s1 !! 2%nat = Some (13%nat :: l)) /\
    (forall a, a ∈ base example_ip :: sub_adapters example_ip ->
               is_Some (slot_of s1 !! ident a)).
Proof.
  split; [vm_compute; reflexivity|].
  apply (inject_order example_ip None example_store).
  vm_compute; reflexivity.
Defined.

(** C5 as stated fails: in the example graph the chain holding the target
    is [1]; after [inject] its position 0 holds the adapter [10], while the
    projector [13] is the first child of the target [2]. *)
Lemma inject_prepends_to_parent_counterexample :
  ~ prepends_to_parent_chain example_ip None example_store.
Proof.
  intros Hclaim.
  destruct (Hclaim example_injected 1%nat) as [l Hl]; [done..|].
  vm_compute in Hl. discriminate Hl.
Qed.

(** C6, as the code has it.  [IPAdapter.eject] ejects every sub-adapter
    first, in order; with [use_pooled_text_embedding] it then removes the
    projector from position 0 of the target's child list; last it restores
    the parent's slot to the original target.  Afterwards every child list
    is what it was before the injection. *)
Theorem eject_order (ip : IPAdapter) (parg : option oid) (s s1 : Store) :
  ready ip parg s = true ->
  IPAdapter_inject ip parg s = Ok s1 ->
  exists s2 : Store,
    IPAdapter_eject ip s1 = Ok s2 /\
    trace s2
    = trace s1
      ++ (Ejected ∘ ident <$> sub_adapters ip)
      ++ (if use_pooled_text_embedding ip
          then [Popped (target (base ip)) 0 (pooled_text_embedding_proj ip)]
          else [])
      ++ [Ejected (ident (base ip))] /\
    kids s2 = kids s /\
    (forall a, a ∈ base ip :: sub_adapters ip -> slot_of s2 !! ident a = None).
Proof.
  intros Hr Hinj. rewrite IPAdapter_inject_run in Hinj by done.
  injection Hinj as <-. eexists.
  split; [by apply (IPAdapter_eject_run ip parg s)|].
  cbn [kids slot_of trace]. split; [done|]. split; [done|].
  by destruct (ready_spec _ _ _ Hr) as (_ & _ & Hslot & _).
Qed.

Lemma eject_order_witness :
  ready example_ip None example_store = true /\
  IPAdapter_inject example_ip None example_store = Ok example_injected /\
  exists s2 : Store,
    IPAdapter_eject example_ip example_injected = Ok s2 /\
    trace s2
    = trace example_injected ++ [Ejected 11; Ejected 12; Popped 2 0 13; Ejected 10]%nat /\
    kids s2 = kids example_store /\
    (forall a, a ∈ base example_ip :: sub_adapters example_ip ->
               slot_of s2 !! ident a = None).
Proof.
  split; [vm_compute; reflexivity|]. split; [vm_compute; reflexivity|].
  apply (eject_order example_ip None example_store example_injected);
    vm_compute; reflexivity.
Defined.

(** C6 as stated fails: in the example the projector is removed before the
    parent's slot is restored, not after. *)
Lemma eject_slot_first_counterexample :
  exists s2 : Store,
    IPAdapter_eject example_ip example_injected = Ok s2 /\
    trace s2 <> trace example_injected ++ eject_events_slot_first example_ip.
Proof.
  eexists. split; [vm_compute; reflexivity|].
  vm_compute. intros Heq. discriminate Heq.
Qed.

End GraphFacts.


(** ** The scale of the image prompt *)

Module ScaleFacts.
Import Py PyFacts Scale.

Section Trees.
Context {float : Type}.
Local Abbreviation FlModule := (Scale.FlModule float).

(** Induction over a module and, with it, over all its children. *)
Lemma FlModule_ind' (P : FlModule -> Prop) :
  (forall c s ch, Forall P ch -> P (Node c s ch)) ->
  forall m, P m.
Proof.
  intros Hnode. fix IH 1. intros [c s ch]. apply Hnode.
  induction ch as [|x xs IHxs]; constructor; [apply IH|exact IHxs].
Qed.

Lemma cls_eqb_eq a b : cls_eqb a b = true <-> a = b.
Proof. destruct a, b; cbn; split; intros H; congruence. Qed.

Lemma cls_eqb_refl a : cls_eqb a a = true.
Proof. by apply cls_eqb_eq. Qed.

Lemma find_unfold c k s (ch : list FlModule) :
  find c (Node k s ch) = first_some (find_at c) ch.
Proof. reflexivity. Qed.

Lemma update_unfold c g k s (ch : list FlModule) :
  update c g (Node k s ch)
  = match change_first (update_at c g) ch with
    | Some r => Some (ch' <- r ;; Ok (Node k s ch'))
    | None => None
    end.
Proof. reflexivity. Qed.

(** *** Lists: the first element with a result *)

Lemma first_some_None {A B} (f : A -> option B) l :
  first_some f l = None <-> Forall (fun x => f x = None) l.
Proof.
  induction l as [|x xs IH]; cbn.
  - split; [constructor|done].
  - destruct (f x) eqn:Hfx.
    + split; [done|]. intros H. apply Forall_cons in H as [H _]. congruence.
    + rewrite IH. split; [by constructor|]. intros H. by apply Forall_cons in H as [_ H].
Qed.

Lemma first_some_app_None {A B} (f : A -> option B) l1 l2 :
  Forall (fun x => f x = None) l1 ->
  first_some f (l1 ++ l2) = first_some f l2.
Proof.
  induction 1 as [|x xs Hx _ IH]; [done|]. cbn. by rewrite Hx.
Qed.

Lemma first_some_is_Some {A B} (f : A -> option B) l x :
  x ∈ l -> is_Some (f x) -> is_Some (first_some f l).
Proof.
  induction l as [|y ys IH]; intros Hin Hx; [by apply elem_of_nil in Hin|].
  cbn. destruct (f y) eqn:Hfy; [by eexists|].
  apply elem_of_cons in Hin as [->|Hin]; [|by apply IH].
  rewrite Hfy in Hx. by destruct Hx.
Qed.

Lemma first_some_elem {A B} (f : A -> option B) l y :
  first_some f l = Some y -> exists x, x ∈ l /\ f x = Some y.
Proof.
  induction l as [|x xs IH]; cbn; [done|].
  destruct (f x) eqn:Hfx.
  - intros [= <-]. exists x. split; [by left|done].
  - intros H. destruct (IH H) as (z & Hz & Hfz). exists z. split; [by right|done].
Qed.

(** [change_first] changes exactly one element, the first one with a
    result, or reports what went wrong on it. *)
Lemma change_first_spec {A} (h : A -> option (res A)) l :
  match change_first h l with
  | None => Forall (fun x => h x = None) l
  | Some (Ok l') =>
      exists l1 x x' l2,
        l = l1 ++ x :: l2 /\ l' = l1 ++ x' :: l2 /\
        Forall (fun z => h z = None) l1 /\ h x = Some (Ok x')
  | Some (Raise e) =>
      exists l1 x l2,
        l = l1 ++ x :: l2 /\
        Forall (fun z => h z = None) l1 /\ h x = Some (Raise e)
  end.
Proof.
  induction l as [|x xs IH]; cbn; [constructor|].
  destruct (h x) as [[x'|e]|] eqn:Hx; cbn.
  - by exists [], x, x', xs.
  - by exists [], x, xs.
  - destruct (change_first h xs) as [[ys|e]|]; cbn.
    + destruct IH as (l1 & z & z' & l2 & -> & -> & Hl1 & Hz).
      exists (x :: l1), z, z', l2. repeat split; [by constructor|done].
    + destruct IH as (l1 & z & l2 & -> & Hl1 & Hz).
      exists (x :: l1), z, l2. repeat split; [by constructor|done].
    + by constructor.
Qed.

(** *** The search after a mutation *)

Lemma update_root c g (m m' : FlModule) :
  update c g m = Some (Ok m') ->
  class_of m' = class_of m /\ scale_of m' = scale_of m.
Proof.
  destruct m as [k s ch]. rewrite update_unfold.
  destruct (change_first (update_at c g) ch) as [[ch'|e]|]; cbn; [|done..].
  by intros [= <-].
Qed.

Lemma tracks_at_of_below c g (m : FlModule) :
  tracks c g (find c) (update c g m) (find c m) ->
  tracks c g (find_at c) (update_at c g m) (find_at c m).
Proof.
  intros Hbelow. unfold update_at, find_at.
  destruct (cls_eqb (class_of m) c) eqn:Hm.
  - cbn. destruct (g m) as [y|e] eqn:Hg.
    + exists m, y. repeat split; [done|].
      intros Hy. by rewrite Hy, cls_eqb_refl.
    + by exists m.
  - unfold tracks in *.
    destruct (update c g m) as [[m'|e]|] eqn:Hu; [|done..].
    destruct Hbelow as (a & b & Ha & Hg & Hb). exists a, b.
    repeat split; [done..|]. intros Hcb.
    destruct (update_root _ _ _ _ Hu) as [-> _]. rewrite Hm. by apply Hb.
Qed.

Lemma update_tracks c g (m : FlModule) :
  tracks c g (find c) (update c g m) (find c m).
Proof.
  induction m as [k s ch IH] using FlModule_ind'.
  assert (Hat : Forall (fun z => tracks c g (find_at c) (update_at c g z) (find_at c z)) ch).
  { eapply Forall_impl; [exact IH|]. intros z Hz. cbn beta in *.
    by apply tracks_at_of_below. }
  clear IH. rewrite update_unfold, find_unfold.
  pose proof (change_first_spec (update_at c g) ch) as Hspec. unfold tracks.
  destruct (change_first (update_at c g) ch) as [[ch'|e]|]; cbn [Py.bind].
  - destruct Hspec as (l1 & x & x' & l2 & -> & -> & Hl1 & Hx).
    apply Forall_app in Hat as [Hat1 Hatx].
    apply Forall_cons in Hatx as [Hatx _].
    rewrite Hx in Hatx. destruct Hatx as (a & b & Ha & Hg & Hb).
    assert (Hnone : Forall (fun z => find_at c z = None) l1).
    { rewrite Forall_forall in Hat1, Hl1 |- *. intros z Hz.
      specialize (Hat1 z Hz). by rewrite (Hl1 z Hz) in Hat1. }
    exists a, b. rewrite find_unfold, !first_some_app_None by done.
    cbn [first_some]. rewrite Ha. repeat split; [done|].
    intros Hcb. by rewrite (Hb Hcb).
  - destruct Hspec as (l1 & x & l2 & -> & Hl1 & Hx).
    apply Forall_app in Hat as [Hat1 Hatx].
    apply Forall_cons in Hatx as [Hatx _].
    rewrite Hx in Hatx. destruct Hatx as (a & Ha & Hg).
    assert (Hnone : Forall (fun z => find_at c z = None) l1).
    { rewrite Forall_forall in Hat1, Hl1 |- *. intros z Hz.
      specialize (Hat1 z Hz). by rewrite (Hl1 z Hz) in Hat1. }
    exists a. rewrite first_some_app_None by done. cbn [first_some]. by rewrite Ha.
  - apply first_some_None.
    rewrite Forall_forall in Hat, Hspec |- *. intros z Hz.
    specialize (Hat z Hz). by rewrite (Hspec z Hz) in Hat.
Qed.

(** A match of the search has the class searched for. *)
Lemma find_class c (m x : FlModule) : find c m = Some x -> class_of x = c.
Proof.
  revert x. induction m as [k s ch IH] using FlModule_ind'. intros x.
  rewrite find_unfold. intros Hx.
  apply first_some_elem in Hx as (z & Hz & Hfz).
  rewrite Forall_forall in IH. unfold find_at in Hfz.
  destruct (cls_eqb (class_of z) c) eqn:Hc.
  - injection Hfz as <-. by apply cls_eqb_eq.
  - by apply (IH z Hz).
Qed.

(** *** The setters *)

Lemma find_set_scale_attr c value (m : FlModule) :
  find c (set_scale_attr value m) = find c m.
Proof. by destruct m. Qed.

Lemma set_scale_attr_class value (m : FlModule) :
  class_of (set_scale_attr value m) = class_of m.
Proof. by destruct m. Qed.

Lemma scale_set_scale_attr value (m : FlModule) :
  scale_of (set_scale_attr value m) = Some value.
Proof. by destruct m. Qed.

Lemma ImageCrossAttention_set_scale_class value (x y : FlModule) :
  ImageCrossAttention_set_scale value x = Ok y -> class_of y = class_of x.
Proof.
  unfold ImageCrossAttention_set_scale, ensure_update. intros H.
  destruct (update Multiply _ (set_scale_attr value x)) as [r|] eqn:Hu; [|done].
  subst r. destruct (update_root _ _ _ _ Hu) as [-> _].
  apply set_scale_attr_class.
Qed.

(** Setting the scale of an image cross-attention that has a [Multiply]
    below it succeeds, and the first [Multiply] then carries the value. *)
Lemma ImageCrossAttention_set_scale_spec value (x z : FlModule) :
  find Multiply x = Some z ->
  exists y z',
    ImageCrossAttention_set_scale value x = Ok y /\
    find Multiply y = Some z' /\ scale_of z' = Some value.
Proof.
  intros Hz. unfold ImageCrossAttention_set_scale, ensure_update.
  pose proof (update_tracks Multiply (fun m => Ok (set_scale_attr value m))
                (set_scale_attr value x)) as Htr.
  rewrite find_set_scale_attr, Hz in Htr. unfold tracks in Htr.
  destruct (update Multiply _ (set_scale_attr value x)) as [[y|e]|].
  - destruct Htr as (a & b & [= <-] & [= <-] & Hb).
    exists y, (set_scale_attr value z).
    split; [done|]. split; [|apply scale_set_scale_attr].
    apply Hb. rewrite set_scale_attr_class. by apply (find_class _ x).
  - by destruct Htr as (a & _ & Hbad).
  - done.
Qed.

(** Setting the scale of a sub-adapter in which both searches succeed
    sets its own scale and its effective multiplier. *)
Lemma CrossAttentionAdapter_set_scale_spec value (a : FlModule) :
  searchable a = true ->
  exists a',
    CrossAttentionAdapter_set_scale value a = Ok a' /\
    CrossAttentionAdapter_scale a' = Ok value /\
    multiplier a' = Some value /\
    searchable a' = true.
Proof.
  unfold searchable. intros Hs.
  destruct (find ImageCrossAttention a) as [x|] eqn:Hx; [|done].
  destruct (find Multiply x) as [z|] eqn:Hz; [|done].
  unfold CrossAttentionAdapter_set_scale, ensure_update.
  pose proof (update_tracks ImageCrossAttention (ImageCrossAttention_set_scale value)
                (set_scale_attr value a)) as Htr.
  rewrite find_set_scale_attr, Hx in Htr. unfold tracks in Htr.
  destruct (update ImageCrossAttention _ (set_scale_attr value a))
    as [[a'|e]|] eqn:Hu.
  - destruct Htr as (x0 & y & [= <-] & Hy & Hfind).
    destruct (ImageCrossAttention_set_scale_spec value x z Hz)
      as (y' & z' & Hy' & Hz' & Hscale).
    rewrite Hy in Hy'. injection Hy' as <-.
    assert (Hfind' : find ImageCrossAttention a' = Some y).
    { apply Hfind. rewrite (ImageCrossAttention_set_scale_class _ _ _ Hy).
      by apply (find_class _ a). }
    exists a'. split; [done|]. split; [|split].
    + unfold CrossAttentionAdapter_scale.
      destruct (update_root _ _ _ _ Hu) as [_ ->].
      by rewrite scale_set_scale_attr.
    + unfold multiplier. by rewrite Hfind', Hz'.
    + unfold searchable. by rewrite Hfind', Hz'.
  - destruct Htr as (x0 & [= <-] & Hbad).
    destruct (ImageCrossAttention_set_scale_spec value x z Hz) as (y & _ & Hy & _).
    congruence.
  - done.
Qed.

(** *** Building a sub-adapter *)

Lemma well_formed_unfold k s (ch : list FlModule) :
  well_formed (Node k s ch)
  = (if cls_eqb k ImageCrossAttention
     then match find Multiply (Node k s ch) with Some _ => true | None => false end
     else true)
    && forallb well_formed ch.
Proof. reflexivity. Qed.

Lemma is_Some_find_at c (m : FlModule) :
  is_Some (find c m) -> is_Some (find_at c m).
Proof. unfold find_at. by destruct (cls_eqb (class_of m) c). Qed.

(** Below a well-formed module, the first image cross-attention has a
    [Multiply] below it. *)
Lemma well_formed_find (m : FlModule) : forall x,
  well_formed m = true -> find_at ImageCrossAttention m = Some x ->
  is_Some (find Multiply x).
Proof.
  induction m as [k s ch IH] using FlModule_ind'. intros x Hwf.
  rewrite well_formed_unfold in Hwf. apply andb_true_iff in Hwf as [Hk Hch].
  unfold find_at. cbn [class_of].
  destruct (cls_eqb k ImageCrossAttention).
  - intros [= <-]. by destruct (find Multiply (Node k s ch)).
  - rewrite find_unfold. intros Hx.
    apply first_some_elem in Hx as (z & Hz & Hfz).
    rewrite Forall_forall in IH. apply (IH z Hz); [|done].
    rewrite forallb_forall in Hch. apply Hch. by apply list_elem_of_In.
Qed.

Section Build.
Variable ica : FlModule.
Hypothesis ica_class : class_of ica = ImageCrossAttention.
Hypothesis ica_wf : well_formed ica = true.

Local Abbreviation wrap := (fun old : FlModule => Ok (Node Sum None [old; ica])).
Local Abbreviation SDPA := ScaledDotProductAttention.

Lemma keeps_multiply_at (x x' : FlModule) :
  (forall m', update SDPA wrap x = Some (Ok m') ->
     is_Some (find Multiply x) -> is_Some (find Multiply m')) ->
  update_at SDPA wrap x = Some (Ok x') ->
  is_Some (find_at Multiply x) -> is_Some (find_at Multiply x').
Proof.
  intros Hbelow. unfold update_at.
  destruct (cls_eqb (class_of x) SDPA) eqn:Hx.
  - intros [= <-] Hsome. unfold find_at at 1. cbn [class_of cls_eqb].
    rewrite find_unfold. apply (first_some_is_Some _ _ x); [by left|done].
  - intros Hu. destruct (update_root _ _ _ _ Hu) as [Hcls _].
    unfold find_at. rewrite Hcls.
    destruct (cls_eqb (class_of x) Multiply); [by eexists|]. by apply Hbelow.
Qed.

Lemma keeps_multiply (m : FlModule) : forall m',
  update SDPA wrap m = Some (Ok m') ->
  is_Some (find Multiply m) -> is_Some (find Multiply m').
Proof.
  induction m as [k s ch IH] using FlModule_ind'. intros m'.
  rewrite update_unfold, find_unfold.
  pose proof (change_first_spec (update_at SDPA wrap) ch) as Hspec.
  destruct (change_first (update_at SDPA wrap) ch) as [[ch'|e]|];
    cbn [Py.bind]; [|done..].
  intros [= <-]. rewrite find_unfold.
  destruct Hspec as (l1 & x & x' & l2 & -> & -> & _ & Hx).
  intros [y Hy]. apply first_some_elem in Hy as (z & Hz & Hfz).
  apply Forall_app in IH as [_ IHx]. apply Forall_cons in IHx as [IHx _].
  apply elem_of_app in Hz as [Hz|Hz].
  - apply (first_some_is_Some _ _ z); [|by eexists].
    apply elem_of_app. by left.
  - apply elem_of_cons in Hz as [->|Hz].
    + apply (first_some_is_Some _ _ x').
      * apply elem_of_app. right. by left.
      * apply (keeps_multiply_at x x' IHx Hx). by eexists.
    + apply (first_some_is_Some _ _ z); [|by eexists].
      apply elem_of_app. right. by right.
Qed.

Lemma keeps_well_formed (m : FlModule) : forall m',
  update SDPA wrap m = Some (Ok m') ->
  well_formed m = true -> well_formed m' = true.
Proof.
  induction m as [k s ch IH] using FlModule_ind'. intros m' Hu Hwf.
  assert (Hkeep := keeps_multiply (Node k s ch) m' Hu).
  rewrite update_unfold in Hu.
  pose proof (change_first_spec (update_at SDPA wrap) ch) as Hspec.
  destruct (change_first (update_at SDPA wrap) ch) as [[ch'|e]|];
    cbn [Py.bind] in Hu; [|done..].
  injection Hu as <-.
  destruct Hspec as (l1 & x & x' & l2 & -> & -> & _ & Hx).
  rewrite well_formed_unfold in Hwf |- *.
  apply andb_true_iff in Hwf as [Hk Hch]. apply andb_true_iff. split.
  - destruct (cls_eqb k ImageCrossAttention); [|done].
    destruct (find Multiply (Node k s (l1 ++ x :: l2))) eqn:Hm; [|done].
    destruct Hkeep as [y Hy]; [by eexists|]. by rewrite Hy.
  - rewrite forallb_app in Hch |- *. cbn [forallb] in Hch |- *.
    apply andb_true_iff in Hch as [H1 Hch].
    apply andb_true_iff in Hch as [Hwx H2].
    rewrite H1, H2, andb_true_r. cbn [andb].
    apply Forall_app in IH as [_ IHx]. apply Forall_cons in IHx as [IHx _].
    unfold update_at in Hx. destruct (cls_eqb (class_of x) SDPA).
    + injection Hx as <-. rewrite well_formed_unfold. cbn [cls_eqb forallb].
      by rewrite Hwx, ica_wf.
    + by apply IHx.
Qed.

Lemma brings_image_cross_attention (m : FlModule) : forall m',
  update SDPA wrap m = Some (Ok m') ->
  is_Some (find ImageCrossAttention m').
Proof.
  induction m as [k s ch IH] using FlModule_ind'. intros m'.
  rewrite update_unfold.
  pose proof (change_first_spec (update_at SDPA wrap) ch) as Hspec.
  destruct (change_first (update_at SDPA wrap) ch) as [[ch'|e]|];
    cbn [Py.bind]; [|done..].
  intros [= <-]. rewrite find_unfold.
  destruct Hspec as (l1 & x & x' & l2 & -> & -> & _ & Hx).
  apply Forall_app in IH as [_ IHx]. apply Forall_cons in IHx as [IHx _].
  apply (first_some_is_Some _ _ x'); [apply elem_of_app; right; by left|].
  unfold update_at in Hx. destruct (cls_eqb (class_of x) SDPA).
  - injection Hx as <-. unfold find_at. cbn [class_of cls_eqb].
    rewrite find_unfold. apply (first_some_is_Some _ _ ica).
    + right. by left.
    + unfold find_at. rewrite ica_class. by eexists.
  - apply is_Some_find_at. by apply IHx.
Qed.

End Build.

Lemma ImageCrossAttention_new_class (scale : float) f1 f2 :
  class_of (ImageCrossAttention_new scale f1 f2) = ImageCrossAttention.
Proof. reflexivity. Qed.

Lemma ImageCrossAttention_new_well_formed (scale : float) f1 f2 :
  well_formed (ImageCrossAttention_new scale f1 f2) = true.
Proof. by destruct f1, f2. Qed.

(** Around an adaptable cross-attention layer the constructor succeeds, and
    in the adapter it builds both searches succeed. *)
Lemma CrossAttentionAdapter_new_spec (t : FlModule) (scale : float) f1 f2 :
  adaptable t = true ->
  exists a,
    CrossAttentionAdapter_new t scale f1 f2 = Ok a /\
    searchable a = true /\
    CrossAttentionAdapter_scale a = Ok scale.
Proof.
  unfold adaptable. intros Ht. apply andb_true_iff in Ht as [Hwf Hfind].
  destruct (find ScaledDotProductAttention t) as [sdp|] eqn:Hsdp; [|done].
  unfold CrossAttentionAdapter_new, ensure_find, ensure_update.
  rewrite Hsdp. cbn [of_option Py.bind].
  set (ica := ImageCrossAttention_new scale f1 f2).
  pose proof (update_tracks ScaledDotProductAttention
                (fun old => Ok (Node Sum None [old; ica])) t) as Htr.
  rewrite Hsdp in Htr. unfold tracks in Htr.
  destruct (update ScaledDotProductAttention _ t) as [[clone|e]|] eqn:Hu.
  - cbn [Py.bind]. eexists. split; [done|]. split; [|done].
    assert (Hica := brings_image_cross_attention ica
                      (ImageCrossAttention_new_class _ _ _) t clone Hu).
    assert (Hwf' := keeps_well_formed ica
                      (ImageCrossAttention_new_well_formed _ _ _) t clone Hu Hwf).
    apply is_Some_find_at in Hica. destruct Hica as [x Hx].
    destruct (well_formed_find clone x Hwf' Hx) as [z Hz].
    unfold searchable. rewrite find_unfold. cbn [first_some].
    by rewrite Hx, Hz.
  - by destruct Htr as (a & _ & Hbad).
  - done.
Qed.

(** *** The loop over the sub-adapters *)

Lemma for_each_spec (P Q : FlModule -> Prop) (f : FlModule -> res FlModule) l :
  (forall x, P x -> exists y, f x = Ok y /\ Q y) ->
  Forall P l ->
  exists l', for_each f l = Ok l' /\ Forall Q l' /\ length l' = length l.
Proof.
  intros Hf. induction 1 as [|x xs Hx _ IH]; cbn.
  - by exists [].
  - destruct (Hf x Hx) as (y & -> & Hy). destruct IH as (ys & -> & Hys & Hlen).
    cbn. exists (y :: ys). repeat split; [by constructor|]. cbn. by rewrite Hlen.
Qed.

End Trees.

(** C7.  For an [IPAdapter] built around at least one adaptable
    cross-attention layer, in either injection state, and for every value
    [s]: setting the scale to [s] succeeds; afterwards the scale of every
    sub-adapter and the scale of the [Multiply] node inside every
    sub-adapter's [ImageCrossAttention] are exactly [s], reading the scale
    of the [IPAdapter] returns [s], and the injection state is unchanged. *)
Theorem scale_set_then_read {float : Type} (cross_attentions : list (Scale.FlModule float))
    (scale0 : float) (use_timestep_embedding use_pooled_text_embedding : bool)
    (state : bool) (s : float) :
  (0 < length cross_attentions)%nat ->
  forallb adaptable cross_attentions = true ->
  exists ip ip' : Scale.IPAdapter float,
    IPAdapter_new cross_attentions scale0
      use_timestep_embedding use_pooled_text_embedding = Ok ip /\
    IPAdapter_set_scale s (mkIPAdapter (sub_adapters ip) state) = Ok ip' /\
    IPAdapter_scale ip' = Ok s /\
    Forall (fun a => multiplier a = Some s /\ CrossAttentionAdapter_scale a = Ok s)
           (sub_adapters ip') /\
    length (sub_adapters ip') = length cross_attentions /\
    injected ip' = state.
Proof.
  intros Hlen Had.
  assert (Hall : Forall (fun t => adaptable t = true) cross_attentions).
  { rewrite forallb_forall in Had. apply Forall_forall. intros t Ht.
    apply Had. by apply list_elem_of_In. }
  destruct (for_each_spec (fun t => adaptable t = true)
              (fun a => searchable a = true)
              (fun t => CrossAttentionAdapter_new t scale0
                          use_timestep_embedding use_pooled_text_embedding)
              cross_attentions) as (subs & Hsubs & Hsearch & Hl1); [|done|].
  { intros t Ht.
    destruct (CrossAttentionAdapter_new_spec t scale0 use_timestep_embedding
                use_pooled_text_embedding Ht) as (a & Ha & Hs & _).
    by exists a. }
  destruct (for_each_spec (fun a => searchable a = true)
              (fun a => multiplier a = Some s /\ CrossAttentionAdapter_scale a = Ok s)
              (CrossAttentionAdapter_set_scale s) subs)
    as (subs' & Hsubs' & Hset & Hl2); [|done|].
  { intros a Ha.
    destruct (CrossAttentionAdapter_set_scale_spec s a Ha) as (a' & Ha' & Hs & Hm & _).
    by exists a'. }
  exists (mkIPAdapter subs false), (mkIPAdapter subs' state).
  unfold IPAdapter_new, IPAdapter_set_scale. rewrite Hsubs. cbn. rewrite Hsubs'. cbn.
  repeat split; [|done|congruence].
  unfold IPAdapter_scale, getitem. cbn.
  destruct subs' as [|a' rest]; [cbn in Hl2; lia|].
  apply Forall_cons in Hset as [[_ Ha'] _]. by cbn.
Qed.

Lemma scale_set_then_read_witness :
  (0 < length [example_attention; example_attention])%nat /\
  forallb adaptable [example_attention; example_attention] = true /\
  exists ip ip' : Scale.IPAdapter R,
    IPAdapter_new [example_attention; example_attention] 1%R false true = Ok ip /\
    IPAdapter_set_scale (/ 2)%R (mkIPAdapter (sub_adapters ip) true) = Ok ip' /\
    IPAdapter_scale ip' = Ok (/ 2)%R /\
    Forall (fun a => multiplier a = Some (/ 2)%R /\
                     CrossAttentionAdapter_scale a = Ok (/ 2)%R)
           (sub_adapters ip') /\
    length (sub_adapters ip') = 2%nat /\
    injected ip' = true.
Proof.
  split; [cbn; lia|]. split; [reflexivity|].
  apply (scale_set_then_read [example_attention; example_attention]
           1%R false true true (/ 2)%R).
  - cbn; lia.
  - reflexivity.
Defined.

End ScaleFacts.


(** ** Loading the weights *)

Module WeightsFacts.
Import Py PyFacts Weights.
Local Open Scope nat_scope.

Example format_03d_7 : format_03d 7 = "007"%string.
Proof. reflexivity. Qed.

Example format_03d_1234 : format_03d 1234 = "1234"%string.
Proof. reflexivity. Qed.

Example sub_adapter_prefix_12 : sub_adapter_prefix 12 = "ip_adapter.012."%string.
Proof. reflexivity. Qed.

Example block_example :
  block "ip_adapter.000." example_weights
  = {[ "to_k.weight"%string := mkTensor [320; 768] 2;
       "bogus"%string := mkTensor [1] 3 ]}.
Proof. vm_compute. reflexivity. Qed.

Lemma load_sub_adapters_run weights subs : forall i,
  load_sub_adapters weights i subs
  = if sub_adapter_shapes_agree weights i subs
    then Ok (copied_sub_adapters weights i subs)
    else Raise RuntimeError.
Proof.
  induction subs as [|cross_attn rest IH]; intros i; [done|].
  cbn [load_sub_adapters sub_adapter_shapes_agree copied_sub_adapters].
  unfold load_state_dict. cbn [negb orb]. rewrite andb_true_r.
  destruct (no_size_mismatch cross_attn (block (sub_adapter_prefix i) weights));
    cbn [andb Py.bind]; [|done].
  rewrite IH. by destruct (sub_adapter_shapes_agree weights (S i) rest).
Qed.

(** C4, as the code has it.  With a weight map and [strict=True], loading
    fails exactly when a sub-adapter block has a shape mismatch on a matched
    key or, with [use_pooled_text_embedding], the
    [pooled_text_embedding_proj.] block does not fit the projector: only
    that block is loaded strictly.  Whatever the [image_proj.] block raises
    is caught, and unmatched keys and parameters of the
    [ip_adapter.{i:03d}.] blocks are tolerated.  When loading succeeds every
    submodule holds the copied tensors. *)
Theorem strict_load_outcome (self : Modules) (weights : gmap string Tensor)
    (use_pooled_text_embedding : bool) :
  load_weights self (Some weights) true use_pooled_text_embedding
  = if sub_adapter_shapes_agree weights 0 (sub_adapters self)
       && (negb use_pooled_text_embedding
           || fits (pooled_text_embedding_proj self)
                   (block "pooled_text_embedding_proj." weights))
    then Ok (mkModules
               (copied (image_proj self) (block "image_proj." weights))
               (copied_sub_adapters weights 0 (sub_adapters self))
               (if use_pooled_text_embedding
                then copied (pooled_text_embedding_proj self)
                            (block "pooled_text_embedding_proj." weights)
                else pooled_text_embedding_proj self))
    else Raise RuntimeError.
Proof.
  unfold load_weights, load_state_dict. rewrite load_sub_adapters_run.
  destruct (sub_adapter_shapes_agree weights 0 (sub_adapters self));
    cbn [andb Py.bind]; [|done].
  destruct use_pooled_text_embedding; cbn [negb orb]; [|done].
  unfold fits. rewrite <- andb_assoc.
  by destruct (no_size_mismatch _ _ && _).
Qed.

(** C4 as stated fails: the example weight map has a key that nothing
    expects in the [image_proj.] block and in the block of sub-adapter 0,
    and a strict load with the projector succeeds all the same. *)
Lemma strict_is_fatal_everywhere_counterexample :
  ~ strict_is_fatal_everywhere example_modules example_weights true.
Proof.
  intros Hclaim. destruct Hclaim as [e He].
  - left. vm_compute. reflexivity.
  - vm_compute in He. discriminate He.
Qed.

End WeightsFacts.


(** ** The image embedding *)

Module EmbeddingFacts.
Import Py PyFacts Embedding.
Local Open Scope nat_scope.

Section Embedding.
Context {PIL Img Enc Tok float : Type}.
Variable preprocess_image : PIL -> nat * nat -> list Img.
Variable image_encoder : list Img -> Enc.
Variable image_proj : Enc -> list (list Tok).
Variable div : Enc -> float -> Enc.
Variable zeros_like_img : list Img -> list Img.
Variable zeros_like_enc : Enc -> Enc.
Variable ne_one : float -> bool.
Variable scale : float -> Tok -> Tok.
Variable fine_grained : bool.

(** Pieces of one row each. *)
Lemma pieces_one {A} (l : list A) :
  pieces (length l) 1 l = (fun x => [x]) <$> l.
Proof.
  induction l as [|x xs IH]; [done|]. cbn. rewrite drop_0. by rewrite IH.
Qed.

Lemma chunk_rows {A} (l : list A) :
  0 < length l -> chunk (length l) l = Ok ((fun x => [x]) <$> l).
Proof.
  intros Hlen. unfold chunk. rewrite bool_decide_false by lia.
  replace ((length l + length l - 1) `div` length l) with 1.
  - rewrite bool_decide_false by lia. by rewrite pieces_one.
  - apply Nat.div_unique with (r := length l - 1); lia.
Qed.

Lemma chunk_batch {A} (n : nat) (l : list A) :
  length l = n -> 0 < n -> chunk n l = Ok ((fun x => [x]) <$> l).
Proof. intros <-. apply chunk_rows. Qed.

Lemma cat_dim1_cons (t : list (list Tok)) rest :
  rest <> [] ->
  cat_dim1 (t :: rest)
  = (joined <- cat_dim1 rest ;;
     if bool_decide (length t = length joined)
     then Ok (zip_with app t joined)
     else Raise RuntimeError).
Proof. by destruct rest. Qed.

Lemma cat_dim1_rows (rows : list (list Tok)) :
  rows <> [] -> cat_dim1 ((fun x => [x]) <$> rows) = Ok [concat rows].
Proof.
  induction rows as [|r rows IH]; [done|]. intros _.
  destruct rows as [|r' rows].
  - cbn. by rewrite app_nil_r.
  - rewrite fmap_cons, cat_dim1_cons by (by rewrite fmap_cons).
    rewrite IH by done. cbn. by rewrite bool_decide_true.
Qed.

Lemma join_rows (rows : list (list Tok)) :
  1 < length rows ->
  (chunks <- chunk (length rows) rows ;; cat_dim1 chunks) = Ok [concat rows].
Proof.
  intros Hlen. rewrite chunk_rows by lia. cbn [Py.bind].
  apply cat_dim1_rows. intros ->. cbn in Hlen. lia.
Qed.

Lemma length_weighted (conditional : list (list Tok)) weights n :
  length conditional = n -> weights_match weights n = true ->
  length (weighted ne_one scale conditional weights) = n.
Proof.
  intros Hc Hw. unfold weighted. destruct weights as [ws|]; [|done].
  cbn in Hw. apply bool_decide_eq_true in Hw.
  destruct (existsb ne_one ws); [|done].
  rewrite length_zip_with. lia.
Qed.

Lemma join_spec (rows : list (list Tok)) concat_batches :
  (if bool_decide (1 < length rows) && concat_batches
   then chunks <- chunk (length rows) rows ;; cat_dim1 chunks
   else Ok rows)
  = Ok (joined (length rows) concat_batches rows).
Proof.
  unfold joined. destruct (bool_decide (1 < length rows)) eqn:Hb; [|done].
  apply bool_decide_eq_true in Hb. destruct concat_batches; [|done].
  cbn [andb]. by apply join_rows.
Qed.

Local Abbreviation compute :=
  (compute_image_embedding preprocess_image image_encoder image_proj div
     zeros_like_img zeros_like_enc ne_one scale fine_grained).
Local Abbreviation embeddings :=
  (_compute_image_embedding image_encoder image_proj div
     zeros_like_img zeros_like_enc fine_grained).

(** C8.  Let the prompt (a tensor, one image or a list of images) give the
    image tensor [images], and let the projection return one row per image
    for both branches.  When the weights list does not match the batch size
    the call fails its assertion.  Otherwise it returns the negative
    embedding followed by the conditional embedding, where only the
    conditional branch is multiplied, image by image, by the weights (when
    one of them differs from 1.0), and where, for more than one image with
    [concat_batches], the rows of each branch are first joined along the
    sequence axis. *)
Theorem compute_image_embedding_spec (image_prompt : prompt PIL Img)
    (weights : option (list float)) (div_factor : float)
    (concat_batches : bool) (size : nat * nat) (images : list Img) :
  prompt_tensor preprocess_image image_prompt size = Ok images ->
  length (embeddings images div_factor).1 = length images ->
  length (embeddings images div_factor).2 = length images ->
  compute image_prompt weights div_factor concat_batches size
  = if weights_match weights (length images)
    then Ok (embedding_spec ne_one scale
               (embeddings images div_factor).1
               (embeddings images div_factor).2
               weights (length images) concat_batches)
    else Raise AssertionError.
Proof.
  intros Hprompt Hneg Hcond. unfold compute_image_embedding.
  rewrite Hprompt. cbn [Py.bind].
  destruct (embeddings images div_factor) as [negative conditional] eqn:Hemb.
  cbn [fst snd] in *. set (n := length images) in *.
  assert (Hw : (match weights with
                | Some ws =>
                    if negb (bool_decide (length ws = n)) then Raise AssertionError
                    else if existsb ne_one ws
                         then imul_weights scale conditional ws
                         else Ok conditional
                | None => Ok conditional
                end)
               = if weights_match weights n
                 then Ok (weighted ne_one scale conditional weights)
                 else Raise AssertionError).
  { unfold weights_match, weighted. destruct weights as [ws|]; [|done].
    case_bool_decide as Hlen; cbn [negb]; [|done].
    destruct (existsb ne_one ws); [|done].
    unfold imul_weights. by rewrite bool_decide_true by lia. }
  rewrite Hw. destruct (weights_match weights n) eqn:Hmatch; [|done].
  cbn [Py.bind].
  assert (Hlw := length_weighted conditional weights n Hcond Hmatch).
  unfold embedding_spec, joined.
  destruct (bool_decide (1 < n)) eqn:Hb; [|done].
  apply bool_decide_eq_true in Hb. destruct concat_batches; [|done].
  cbn [andb].
  rewrite (chunk_batch n negative) by lia. cbn [Py.bind].
  rewrite cat_dim1_rows by (intros ->; cbn in Hneg; lia). cbn [Py.bind].
  rewrite (chunk_batch n (weighted ne_one scale conditional weights)) by lia.
  cbn [Py.bind].
  rewrite cat_dim1_rows; [done|].
  intros Heq. rewrite Heq in Hlw. cbn in Hlw. lia.
Qed.

End Embedding.

Example example_compute_value :
  example_compute (PromptList [3; 5]) (Some [2; 1]%Z) 1%Z true (224, 224)
  = Ok [ [0; 1; 0; 1]%Z; [6; 8; 5; 6]%Z ].
Proof. reflexivity. Qed.

Lemma compute_image_embedding_spec_witness :
  prompt_tensor (fun image (_ : nat * nat) => [image]) (PromptList [3; 5]) (224, 224)
  = Ok [3; 5] /\
  example_compute (PromptList [3; 5]) (Some [2; 1]%Z) 1%Z true (224, 224)
  = if weights_match (Some [2; 1]%Z) (length [3; 5])
    then Ok (embedding_spec (fun w => negb (w =? 1)%Z) Z.mul
               [[0; 1]%Z; [0; 1]%Z] [[3; 4]%Z; [5; 6]%Z]
               (Some [2; 1]%Z) (length [3; 5]) true)
    else Raise AssertionError.
Proof.
  split; [reflexivity|]. unfold example_compute.
  exact (compute_image_embedding_spec
           (fun image (_ : nat * nat) => [image]) (fun t => t)
           (fun e => (fun x => [Z.of_nat x; (Z.of_nat x + 1)%Z]) <$> e)
           (fun e _ => e) (fun t => (fun _ => 0) <$> t) (fun e => (fun _ => 0) <$> e)
           (fun w => negb (w =? 1)%Z) Z.mul false
           (PromptList [3; 5]) (Some [2; 1]%Z) 1%Z true (224, 224) [3; 5]
           eq_refl eq_refl eq_refl).
Defined.

End EmbeddingFacts.


(** ** Constructors *)

Module CtorFacts.
Import Py PyFacts Ctor.
Local Open Scope string_scope.

Lemma bias_is_unbound locals_use_bias :
  load_name
    [("self", VObject); ("normalized_shape", VObject); ("eps", VObject);
     ("use_bias", VBool locals_use_bias); ("device", VObject); ("dtype", VObject)]
    norm_globals "bias"
  = Raise NameError.
Proof. reflexivity. Qed.

Lemma LayerNorm_rejects_bias_keyword external normalized_shape use_bias :
  LayerNorm_with_bias_keyword external normalized_shape use_bias = Raise TypeError.
Proof. reflexivity. Qed.

Lemma IPAdapter_rejects_keywords external :
  IPAdapter___init__ external
    ["target"; "image_encoder"; "image_proj"; "scale"; "fine_grained"; "weights";
     "strict"; "use_timestep_embedding"; "use_pooled_text_embedding"; "use_bias";
     "sequence_length"; "layernorm_dino"; "weighted_sum"]
  = Raise TypeError.
Proof. reflexivity. Qed.

(** C10, as the code has it.  Constructing a [LayerNormTorch], and
    therefore a [LayerNorm], never returns, for every shape and every
    [use_bias].  The initializer of the base class and [torch.ones] run
    first (lines 18 to 27): when one of them raises, that exception leaves
    the constructor.  When both return, line 28 raises [NameError]: the
    condition of the bias parameter reads the name [bias], which is bound
    neither as a parameter (that one is [use_bias]) nor at module level. *)
Theorem LayerNorm_constructor_outcome (external : string -> res unit)
    (normalized_shape : shape_arg) (use_bias : bool) :
  LayerNormTorch___init__ external normalized_shape use_bias
  = match external "Module.__init__" with
    | Raise e => Raise e
    | Ok _ =>
        match external "torch.ones" with
        | Raise e => Raise e
        | Ok _ => Raise NameError
        end
    end /\
  LayerNorm___init__ external normalized_shape use_bias
  = LayerNormTorch___init__ external normalized_shape use_bias.
Proof.
  split; [|reflexivity]. unfold LayerNormTorch___init__.
  destruct (external "Module.__init__") as [[]|e1]; [|done]. cbn [Py.bind].
  destruct (external "torch.ones") as [[]|e2]; [|done]. cbn [Py.bind].
  by rewrite bias_is_unbound.
Qed.

(** C10 as stated fails: the initializer of the base class is called
    first, with [device] and [dtype] by keyword (lines 18 to 21).  When it
    raises [TypeError], as an initializer that takes no such keywords
    does, the constructor raises that [TypeError] and never reads the name
    [bias]. *)
Lemma LayerNorm_NameError_counterexample :
  LayerNormTorch___init__ refusing (ShapeInt 768) true <> Raise NameError.
Proof. vm_compute. discriminate. Qed.

Lemma TransformerLayer_new_fails (external : string -> res unit) latents_dim
    use_bias :
  (exists e, TransformerLayer_new external latents_dim use_bias = Raise e) /\
  (external "fl.Parallel" = Ok tt ->
   TransformerLayer_new external latents_dim use_bias = Raise TypeError).
Proof.
  unfold TransformerLayer_new, PerceiverAttention___init__. split.
  - destruct (external "fl.Parallel") as [[]|e1]; [|by eexists].
    rewrite LayerNorm_rejects_bias_keyword. by eexists.
  - intros ->. reflexivity.
Qed.

(** The default projection is never built. *)
Lemma get_sd1_image_proj_fails (external : string -> res unit)
    (context_embedding_dim : Z) (fine_grained use_bias : bool) :
  (exists e, get_sd1_image_proj external context_embedding_dim fine_grained
               use_bias = Raise e) /\
  ((forall name, name <> "CLIPImageEncoderH" -> external name = Ok tt) ->
   get_sd1_image_proj external context_embedding_dim fine_grained use_bias
   = Raise TypeError).
Proof.
  unfold get_sd1_image_proj. split.
  - destruct (external "target.device") as [[]|e1]; [|by eexists]. cbn [Py.bind].
    destruct (external "target.dtype") as [[]|e2]; [|by eexists]. cbn [Py.bind].
    destruct fine_grained; cbn [negb].
    + destruct (external "cross_attn_2d.context_embedding_dim") as [[]|e3];
        [|by eexists]. cbn [Py.bind].
      destruct (external "image_encoder.embedding_dim") as [[]|e4];
        [|by eexists]. cbn [Py.bind].
      unfold PerceiverResampler___init__. cbn [repeat_layers].
      destruct (TransformerLayer_new_fails external context_embedding_dim
                  use_bias) as [[e He] _].
      destruct (external "fl.Linear") as [[]|e5]; [|by eexists]. cbn [Py.bind].
      destruct (external "fl.SetContext") as [[]|e6]; [|by eexists].
      cbn [Py.bind].
      destruct (external "LatentsToken") as [[]|e7]; [|by eexists].
      cbn [Py.bind]. rewrite He. by eexists.
    + destruct (external "image_encoder.output_dim") as [[]|e3];
        [|by eexists]. cbn [Py.bind].
      destruct (external "cross_attn_2d.context_embedding_dim") as [[]|e4];
        [|by eexists]. cbn [Py.bind].
      unfold ImageProjection___init__.
      destruct (external "fl.Linear") as [[]|e5]; [|by eexists]. cbn [Py.bind].
      destruct (external "fl.Reshape") as [[]|e6]; [|by eexists]. cbn [Py.bind].
      rewrite LayerNorm_rejects_bias_keyword. by eexists.
  - intros Hext. rewrite !Hext by done. cbn [Py.bind].
    destruct fine_grained; cbn [negb].
    + rewrite ?Hext by done. cbn [Py.bind].
      unfold PerceiverResampler___init__. cbn [repeat_layers].
      rewrite ?Hext by done. cbn [Py.bind].
      destruct (TransformerLayer_new_fails external context_embedding_dim
                  use_bias) as [_ Hret].
      by rewrite Hret by (by apply Hext).
    + rewrite ?Hext by done. cbn [Py.bind].
      unfold ImageProjection___init__. rewrite ?Hext by done. reflexivity.
Qed.

(** C9, as the code has it.  Constructing an [SD1IPAdapter] never returns,
    whatever the collaborators do.  Without an [image_encoder] the
    constructor first builds a [CLIPImageEncoderH], and what that raises
    leaves the constructor.  With an encoder supplied: with [fine_grained]
    and a supplied [image_proj] that is not a [PerceiverResampler] the
    assertion fails; with any other supplied [image_proj] the outcome is
    the [TypeError] of calling [IPAdapter.__init__] with [layernorm_dino]
    and [weighted_sum]; without an [image_proj] the default projection
    cannot be built, and when the search in the target, the attributes
    read and the layers built on the way return, the outcome is the
    [TypeError] of calling [fl.LayerNorm] with [bias]. *)
Theorem SD1IPAdapter_never_constructed (external : string -> res unit)
    (image_encoder : option unit) (image_proj : option projection)
    (context_embedding_dim : Z) (fine_grained use_bias : bool) :
  (exists e,
     SD1IPAdapter___init__ external image_encoder image_proj
       context_embedding_dim fine_grained use_bias = Raise e) /\
  (forall e,
     image_encoder = None -> external "CLIPImageEncoderH" = Raise e ->
     SD1IPAdapter___init__ external image_encoder image_proj
       context_embedding_dim fine_grained use_bias = Raise e) /\
  (forall encoder p,
     image_encoder = Some encoder -> image_proj = Some p ->
     SD1IPAdapter___init__ external image_encoder image_proj
       context_embedding_dim fine_grained use_bias
     = Raise (match p with
              | AnImageProjection =>
                  if fine_grained then AssertionError else TypeError
              | APerceiverResampler => TypeError
              end)) /\
  (forall encoder,
     image_encoder = Some encoder -> image_proj = None ->
     (forall name, name <> "CLIPImageEncoderH" -> external name = Ok tt) ->
     SD1IPAdapter___init__ external image_encoder image_proj
       context_embedding_dim fine_grained use_bias = Raise TypeError).
Proof.
  destruct (get_sd1_image_proj_fails external context_embedding_dim
              fine_grained use_bias) as [[e0 He0] Hdefault].
  unfold SD1IPAdapter___init__. split; [|split; [|split]].
  - destruct image_encoder as [encoder|].
    + cbn [Py.bind]. destruct image_proj as [[|]|].
      * destruct fine_grained; by eexists.
      * destruct fine_grained; by eexists.
      * destruct (external "target.ensure_find") as [[]|e1]; [|by eexists].
        cbn [Py.bind]. rewrite He0. by eexists.
    + destruct (external "CLIPImageEncoderH") as [[]|e1]; [|by eexists].
      cbn [Py.bind]. destruct image_proj as [[|]|].
      * destruct fine_grained; by eexists.
      * destruct fine_grained; by eexists.
      * destruct (external "target.ensure_find") as [[]|e2]; [|by eexists].
        cbn [Py.bind]. rewrite He0. by eexists.
  - intros e -> ->. reflexivity.
  - intros encoder p -> ->. cbn [Py.bind].
    destruct p, fine_grained; reflexivity.
  - intros encoder -> -> Hext. cbn [Py.bind].
    rewrite (Hext "target.ensure_find") by done. cbn [Py.bind].
    by rewrite (Hdefault Hext).
Qed.

(** C9 as stated fails: with an encoder supplied, [fine_grained=True] and
    an [ImageProjection] supplied as [image_proj], the constructor fails
    its assertion before it reaches the call of [IPAdapter.__init__]; no
    collaborator is called on the way. *)
Lemma SD1IPAdapter_TypeError_counterexample :
  SD1IPAdapter___init__ refusing (Some tt) (Some AnImageProjection) 768 true true
  <> Raise TypeError.
Proof. vm_compute. discriminate. Qed.

End CtorFacts.

(** ** The DDIM scheduler at the edges of its inputs *)

Module DDIMEdge.
Import Py PyFacts DDIM DDIMFacts.

Lemma strictly_decreasing_lookup (l : list Z) :
  (forall (i : nat) a b, l !! i = Some a -> l !! S i = Some b -> b < a) ->
  strictly_decreasing l = true.
Proof.
  induction l as [|a tl IH]; intros H; [done|].
  destruct tl as [|b tl]; [done|].
  change (bool_decide (b < a) && strictly_decreasing (b :: tl) = true).
  apply andb_true_intro. split.
  - apply bool_decide_eq_true. by apply (H 0%nat).
  - apply IH. intros i x y Hx Hy. by apply (H (S i)).
Qed.

Lemma generated_nth n T (i : nat) :
  (i < Z.to_nat n)%nat ->
  reverse ((fun k => k * (T `div` n) + 1) <$> seqZ 0 n) !! i
  = Some ((n - 1 - Z.of_nat i) * (T `div` n) + 1).
Proof.
  intros Hi. rewrite <- (generated_lookup n T (Z.of_nat i)) by lia.
  rewrite seq_get_nonneg by lia. by rewrite Nat2Z.id.
Qed.

Lemma generated_nth_inv n T (i : nat) t :
  reverse ((fun k => k * (T `div` n) + 1) <$> seqZ 0 n) !! i = Some t ->
  (i < Z.to_nat n)%nat /\ t = (n - 1 - Z.of_nat i) * (T `div` n) + 1.
Proof.
  intros Ht.
  assert (Hi : (i < Z.to_nat n)%nat).
  { apply lookup_lt_Some in Ht.
    by rewrite length_reverse, length_fmap, length_seqZ in Ht. }
  split; [done|]. rewrite generated_nth in Ht by done. congruence.
Qed.

(** A negative index of a Python sequence names the element [len + i]. *)
Lemma seq_get_negative {A} (l : list A) (i : Z) :
  - Z.of_nat (length l) <= i < 0 ->
  seq_get l i = seq_get l (Z.of_nat (length l) + i).
Proof.
  intros Hi. unfold seq_get.
  rewrite (bool_decide_false (0 <= i)) by lia.
  rewrite (bool_decide_true (- _ <= i)) by lia.
  by rewrite (bool_decide_true (0 <= _ + i)) by lia.
Qed.

Lemma seq_get_outside {A} (l : list A) (i : Z) :
  Z.of_nat (length l) <= i \/ i < - Z.of_nat (length l) ->
  seq_get l i = None.
Proof.
  intros Hi. unfold seq_get. case_bool_decide.
  - apply lookup_ge_None. lia.
  - rewrite bool_decide_false by lia. done.
Qed.

(** X1.  With at least as many training timesteps as inference steps,
    and a number of training timesteps that an int64 holds,
    [_generate_timesteps] returns one timestep per inference step, in
    strictly decreasing order, each between [1] and the number of training
    timesteps (so no product of line 34 leaves the int64 range); the first
    is [(n-1) * (T // n) + 1] and the last is [1]. *)
Theorem timesteps_decreasing_in_range (n T : Z) (ts : list Z) :
  0 < n <= T ->
  T < 2 ^ 63 ->
  _generate_timesteps n T = Ok ts ->
  length ts = Z.to_nat n /\
  strictly_decreasing ts = true /\
  Forall (fun t => 1 <= t <= T) ts /\
  head ts = Some ((n - 1) * (T `div` n) + 1) /\
  last ts = Some 1.
Proof.
  intros Hn _ Hgen. pose proof (generated_length _ _ _ Hgen) as Hlen.
  rewrite generate_timesteps_pos in Hgen by lia. injection Hgen as <-.
  assert (Hr : 1 <= T `div` n) by (apply Z.div_le_lower_bound; lia).
  assert (Hm : n * (T `div` n) <= T) by (apply Z.mul_div_le; lia).
  split; [done|]. split; [|split; [|split]].
  - apply strictly_decreasing_lookup. intros i a b Ha Hb.
    apply generated_nth_inv in Ha as [_ ->].
    apply generated_nth_inv in Hb as [_ ->]. nia.
  - apply Forall_lookup_2. intros i t Ht.
    apply generated_nth_inv in Ht as [Hi ->]. nia.
  - rewrite head_lookup, generated_nth by lia. do 2 f_equal. lia.
  - rewrite last_lookup, Hlen, generated_nth by lia. f_equal.
    replace (n - 1 - Z.of_nat (Nat.pred (Z.to_nat n))) with 0 by lia. lia.
Qed.

Lemma timesteps_decreasing_in_range_witness :
  0 < 4 <= 10 /\
  10 < 2 ^ 63 /\
  _generate_timesteps 4 10 = Ok [7; 5; 3; 1] /\
  length [7; 5; 3; 1] = Z.to_nat 4 /\
  strictly_decreasing [7; 5; 3; 1] = true /\
  Forall (fun t => 1 <= t <= 10) [7; 5; 3; 1] /\
  head [7; 5; 3; 1] = Some ((4 - 1) * (10 `div` 4) + 1) /\
  last [7; 5; 3; 1] = Some 1.
Proof.
  split; [lia|]. split; [reflexivity|]. split; [reflexivity|].
  apply (timesteps_decreasing_in_range 4 10 [7; 5; 3; 1]);
    [lia|reflexivity|reflexivity].
Defined.

Lemma init_positive {Tensor : Type} (n T : Z) (csf : list Tensor) self :
  DDIM.__init__ n T csf = Ok self -> 0 < n.
Proof.
  unfold DDIM.__init__, _generate_timesteps, arange. intros H.
  destruct (decide (0 < n)); [done|]. exfalso. revert H.
  case_bool_decide; [done|]. cbn. by rewrite bool_decide_true by lia.
Qed.

(** X2.  For step counts that an int64 holds, [_generate_timesteps]
    returns a schedule only if the number of inference steps is positive:
    with zero inference steps it raises [ZeroDivisionError] (the step
    ratio divides by it) and a negative number is refused by [arange]
    with a [RuntimeError]. *)
Theorem generate_timesteps_needs_positive_steps (n T : Z) :
  - 2 ^ 63 <= n < 2 ^ 63 ->
  0 <= T < 2 ^ 63 ->
  (n = 0 -> _generate_timesteps n T = Raise ZeroDivisionError) /\
  (n < 0 -> _generate_timesteps n T = Raise RuntimeError) /\
  ((exists ts, _generate_timesteps n T = Ok ts) -> 0 < n).
Proof.
  intros _ _. unfold _generate_timesteps, arange.
  destruct (decide (n = 0)) as [->|Hn0].
  { cbn. split; [done|]. split; [lia|]. by intros [ts [=]]. }
  rewrite (bool_decide_false (n = 0)) by done. cbn.
  destruct (decide (n < 0)) as [Hneg|Hpos].
  - rewrite bool_decide_true by done. cbn.
    split; [lia|]. split; [done|]. by intros [ts [=]].
  - rewrite bool_decide_false by done. cbn.
    split; [lia|]. split; [lia|]. intros _. lia.
Qed.

Lemma generate_timesteps_needs_positive_steps_witness :
  - 2 ^ 63 <= -3 < 2 ^ 63 /\
  0 <= 10 < 2 ^ 63 /\
  (-3 = 0 -> _generate_timesteps (-3) 10 = Raise ZeroDivisionError) /\
  (-3 < 0 -> _generate_timesteps (-3) 10 = Raise RuntimeError) /\
  ((exists ts, _generate_timesteps (-3) 10 = Ok ts) -> 0 < -3).
Proof.
  split; [split; [discriminate|reflexivity]|].
  split; [split; [lia|reflexivity]|].
  apply (generate_timesteps_needs_positive_steps (-3) 10).
  - split; [discriminate|reflexivity].
  - split; [lia|reflexivity].
Defined.

(** X3.  With more inference steps than training timesteps the step
    ratio is [0] and every generated timestep is [1]: the schedule is
    constant, so it is not decreasing once it has two steps. *)
Theorem timesteps_collapse (n T : Z) (ts : list Z) :
  0 <= T < n ->
  _generate_timesteps n T = Ok ts ->
  ts = replicate (Z.to_nat n) 1 /\
  (2 <= n -> strictly_decreasing ts = false).
Proof.
  intros Hn Hgen.
  rewrite generate_timesteps_pos in Hgen by lia. injection Hgen as <-.
  assert (Hts : reverse ((fun k => k * (T `div` n) + 1) <$> seqZ 0 n)
                = replicate (Z.to_nat n) 1).
  { apply list_eq. intros i.
    destruct (decide (i < Z.to_nat n)%nat) as [Hi|Hi].
    - rewrite generated_nth, lookup_replicate_2 by done.
      rewrite Z.div_small by lia. f_equal. lia.
    - rewrite !(proj2 (lookup_ge_None _ _)); [done|..].
      + rewrite length_replicate. lia.
      + rewrite length_reverse, length_fmap, length_seqZ. lia. }
  split; [done|]. intros H2. rewrite Hts.
  destruct (Z.to_nat n) as [|[|k]] eqn:E; [lia..|]. reflexivity.
Qed.

Lemma timesteps_collapse_witness :
  0 <= 2 < 3 /\
  _generate_timesteps 3 2 = Ok [1; 1; 1] /\
  [1; 1; 1] = replicate (Z.to_nat 3) 1 /\
  (2 <= 3 -> strictly_decreasing [1; 1; 1] = false).
Proof.
  split; [lia|]. split; [reflexivity|].
  apply (timesteps_collapse 3 2 [1; 1; 1]); [lia|reflexivity].
Defined.

Section Step.
Context {Tensor : Type}.
Variables (tadd tsub tmul tdiv : Tensor -> Tensor -> Tensor).
Variable tsqrt : Tensor -> Tensor.
Variable tpow : Tensor -> Z -> Tensor.
Variable rsub : Z -> Tensor -> Tensor.

Local Abbreviation call := (__call__ tadd tsub tmul tdiv tsqrt tpow rsub).
Local Abbreviation x_prev := (x_prev_of tadd tsub tmul tdiv tsqrt tpow rsub).

(** X4.  The step index is not validated: an index at or beyond the
    number of inference steps, or below its negation, makes the step
    raise [IndexError] when it reads the timestep. *)
Theorem step_out_of_range (n T : Z) (csf : list Tensor) (self : @DDIM.t Tensor)
    (x noise : Tensor) (i : Z) :
  DDIM.__init__ n T csf = Ok self ->
  n <= i \/ i < - n ->
  call self x noise i = Raise IndexError.
Proof.
  intros Hinit Hi. unfold DDIM.__init__ in Hinit.
  destruct (_generate_timesteps n T) as [ts|e] eqn:Hgen; [|done].
  pose proof (generated_length _ _ _ Hgen) as Hlen.
  assert (Hn : 0 < n) by (eapply init_positive; unfold DDIM.__init__;
                           by rewrite Hgen).
  cbn in Hinit. injection Hinit as <-.
  unfold __call__, getitem. cbn.
  rewrite seq_get_outside by (rewrite Hlen; lia). reflexivity.
Qed.

(** X5.  A step index [i] with [-n <= i < -1] is read the Python way, as
    the index [n + i]: the step returns what it returns there. *)
Theorem negative_step_aliases (n T : Z) (csf : list Tensor)
    (self : @DDIM.t Tensor) (x noise : Tensor) (i : Z) :
  DDIM.__init__ n T csf = Ok self ->
  - n <= i < -1 ->
  call self x noise i = call self x noise (n + i).
Proof.
  intros Hinit Hi. unfold DDIM.__init__ in Hinit.
  destruct (_generate_timesteps n T) as [ts|e] eqn:Hgen; [|done].
  pose proof (generated_length _ _ _ Hgen) as Hlen.
  cbn in Hinit. injection Hinit as <-.
  unfold __call__, getitem. cbn.
  rewrite (seq_get_negative ts i) by lia.
  rewrite (seq_get_negative ts (i + 1)) by lia.
  rewrite Hlen, Z2Nat.id by lia.
  rewrite (bool_decide_true (i < n - 1)) by lia.
  rewrite (bool_decide_true (n + i < n - 1)) by lia.
  by replace (n + (i + 1)) with (n + i + 1) by lia.
Qed.

(** X6.  The index [-1] is accepted too, but it is not the last step: it
    reads the last timestep [1] as the current one and, because [-1] is
    below [n - 1], the first timestep [(n-1) * (T // n) + 1] as the
    previous one, so the sample is scaled with the factor of the noisiest
    timestep instead of the factor at index [0]. *)
Theorem step_minus_one (n T : Z) (csf : list Tensor) (self : @DDIM.t Tensor)
    (x noise a a_prev : Tensor) :
  DDIM.__init__ n T csf = Ok self ->
  0 <= T ->
  seq_get csf 1 = Some a ->
  seq_get csf ((n - 1) * (T `div` n) + 1) = Some a_prev ->
  call self x noise (-1) = Ok (x_prev a a_prev x noise).
Proof.
  intros Hinit HT Ha Hprev.
  assert (Hn : 0 < n) by (by eapply init_positive).
  unfold DDIM.__init__ in Hinit.
  rewrite generate_timesteps_pos in Hinit by lia. cbn in Hinit.
  injection Hinit as <-. set (ts := reverse _).
  assert (Hlen : length ts = Z.to_nat n)
    by (unfold ts; by rewrite length_reverse, length_fmap, length_seqZ).
  assert (Hr : 0 <= T `div` n) by (apply Z.div_pos; lia).
  unfold __call__, getitem. cbn.
  rewrite (seq_get_negative ts (-1)) by lia.
  rewrite Hlen, Z2Nat.id by lia.
  unfold ts. rewrite generated_lookup by lia.
  replace ((n - 1 - (n + -1)) * (T `div` n) + 1) with 1 by lia. cbn.
  rewrite (bool_decide_true (-1 < n - 1)) by lia.
  rewrite generated_lookup by lia. cbn.
  rewrite Ha. cbn.
  replace (n - 1 - (-1 + 1)) with (n - 1) by lia.
  rewrite bool_decide_true by nia.
  rewrite Hprev. reflexivity.
Qed.

(** X7.  With as many inference steps as training timesteps and one scale
    factor per training timestep, the first timestep is the number of
    training timesteps itself, one past the last scale factor: the first
    step raises [IndexError]. *)
Theorem full_schedule_first_step (n : Z) (csf : list Tensor)
    (self : @DDIM.t Tensor) (x noise : Tensor) :
  DDIM.__init__ n n csf = Ok self ->
  length csf = Z.to_nat n ->
  call self x noise 0 = Raise IndexError.
Proof.
  intros Hinit Hcsf.
  assert (Hn : 0 < n) by (by eapply init_positive).
  unfold DDIM.__init__ in Hinit.
  rewrite generate_timesteps_pos in Hinit by lia. cbn in Hinit.
  injection Hinit as <-.
  unfold __call__, getitem. cbn.
  rewrite generated_lookup by lia. cbn.
  assert (Hcur : seq_get csf ((n - 1 - 0) * (n `div` n) + 1) = None).
  { apply seq_get_outside. rewrite Z.div_same by lia. lia. }
  destruct (decide (0 < n - 1)) as [Hlt|Hge].
  - rewrite (bool_decide_true (0 < n - 1)) by done.
    rewrite generated_lookup by lia. cbn. by rewrite Hcur.
  - rewrite (bool_decide_false (0 < n - 1)) by done. cbn.
    by rewrite Hcur.
Qed.

(** X30.  Consecutive steps fit together: at an index [i] that is not
    the last one, the scale factor the step scales the sample to is the
    factor of the timestep at [i + 1], which is the factor the step at
    [i + 1] takes as the current one. *)
Theorem consecutive_steps_chain (n T : Z) (csf : list Tensor)
    (self : @DDIM.t Tensor) (x noise x' noise' a b c : Tensor) (i : Z) :
  DDIM.__init__ n T csf = Ok self ->
  0 <= T ->
  0 <= i < n - 1 ->
  seq_get csf ((n - 1 - i) * (T `div` n) + 1) = Some a ->
  seq_get csf ((n - 1 - (i + 1)) * (T `div` n) + 1) = Some b ->
  seq_get csf (if bool_decide (i + 1 < n - 1)
               then (n - 1 - (i + 1 + 1)) * (T `div` n) + 1 else 0) = Some c ->
  seq_get (timesteps self) (i + 1) = Some ((n - 1 - (i + 1)) * (T `div` n) + 1) /\
  call self x noise i = Ok (x_prev a b x noise) /\
  call self x' noise' (i + 1) = Ok (x_prev b c x' noise').
Proof.
  intros Hinit HT Hi Ha Hb Hc.
  unfold DDIM.__init__ in Hinit.
  rewrite generate_timesteps_pos in Hinit by lia. cbn in Hinit.
  injection Hinit as <-. set (ts := reverse _).
  assert (Hget : forall j, 0 <= j < n ->
            seq_get ts j = Some ((n - 1 - j) * (T `div` n) + 1))
    by (intros j Hj; by apply generated_lookup).
  assert (Hr : 0 <= T `div` n) by (apply Z.div_pos; lia).
  cbn [timesteps]. split; [apply Hget; lia|]. split.
  - unfold __call__, getitem. cbn.
    rewrite (Hget i) by lia. cbn.
    rewrite (bool_decide_true (i < n - 1)) by lia.
    rewrite (Hget (i + 1)) by lia. cbn. rewrite Ha. cbn.
    rewrite bool_decide_true by nia. by rewrite Hb.
  - unfold __call__, getitem. cbn.
    rewrite (Hget (i + 1)) by lia. cbn.
    destruct (decide (i + 1 < n - 1)) as [Hlt|Hge].
    + rewrite (bool_decide_true (i + 1 < n - 1)) in Hc |- * by done.
      rewrite (Hget (i + 1 + 1)) by lia. cbn. rewrite Hb. cbn.
      rewrite bool_decide_true by nia. by rewrite Hc.
    + rewrite (bool_decide_false (i + 1 < n - 1)) in Hc |- * by done.
      cbn. rewrite Hb. cbn.
      rewrite (bool_decide_false (0 > 0)) by lia. by rewrite Hc.
Qed.

End Step.

Local Abbreviation real_x_prev :=
  (x_prev_of Rplus Rminus Rmult Rdiv sqrt
     (fun t k => pow t (Z.to_nat k)) (fun k t => Rminus (IZR k) t)).

Lemma step_out_of_range_witness :
  DDIM.__init__ 50 1000 example_factors = Ok example_scheduler /\
  (50 <= 50 \/ 50 < - 50) /\
  real_step example_scheduler 1%R 0%R 50 = Raise IndexError.
Proof.
  split; [reflexivity|]. split; [left; lia|].
  apply (step_out_of_range Rplus Rminus Rmult Rdiv sqrt
           (fun t k => pow t (Z.to_nat k)) (fun k t => Rminus (IZR k) t)
           50 1000 example_factors example_scheduler 1%R 0%R 50).
  - reflexivity.
  - left; lia.
Defined.

Lemma negative_step_aliases_witness :
  DDIM.__init__ 50 1000 example_factors = Ok example_scheduler /\
  - 50 <= -2 < -1 /\
  real_step example_scheduler 1%R 0%R (-2)
  = real_step example_scheduler 1%R 0%R (50 + -2).
Proof.
  split; [reflexivity|]. split; [lia|].
  apply (negative_step_aliases Rplus Rminus Rmult Rdiv sqrt
           (fun t k => pow t (Z.to_nat k)) (fun k t => Rminus (IZR k) t)
           50 1000 example_factors example_scheduler 1%R 0%R (-2)).
  - reflexivity.
  - lia.
Defined.

Lemma step_minus_one_witness :
  DDIM.__init__ 50 1000 example_factors = Ok example_scheduler /\
  0 <= 1000 /\
  seq_get example_factors 1 = Some (/ 2)%R /\
  seq_get example_factors ((50 - 1) * (1000 `div` 50) + 1) = Some (/ 2)%R /\
  real_step example_scheduler 1%R 0%R (-1)
  = Ok (real_x_prev (/ 2)%R (/ 2)%R 1%R 0%R).
Proof.
  split; [reflexivity|]. split; [lia|].
  split; [reflexivity|]. split; [reflexivity|].
  apply (step_minus_one Rplus Rminus Rmult Rdiv sqrt
           (fun t k => pow t (Z.to_nat k)) (fun k t => Rminus (IZR k) t)
           50 1000 example_factors example_scheduler 1%R 0%R);
    [reflexivity|lia|reflexivity|reflexivity].
Defined.

Lemma full_schedule_first_step_witness :
  DDIM.__init__ 2 2 [1%R; (/ 2)%R] = Ok (mk 2 2 [1%R; (/ 2)%R] [2; 1]) /\
  length [1%R; (/ 2)%R] = Z.to_nat 2 /\
  real_step (mk 2 2 [1%R; (/ 2)%R] [2; 1]) 1%R 0%R 0 = Raise IndexError.
Proof.
  split; [reflexivity|]. split; [reflexivity|].
  apply (full_schedule_first_step Rplus Rminus Rmult Rdiv sqrt
           (fun t k => pow t (Z.to_nat k)) (fun k t => Rminus (IZR k) t)
           2 [1%R; (/ 2)%R] (mk 2 2 [1%R; (/ 2)%R] [2; 1]) 1%R 0%R);
    reflexivity.
Defined.

Lemma consecutive_steps_chain_witness :
  DDIM.__init__ 50 1000 example_factors = Ok example_scheduler /\
  0 <= 1000 /\
  0 <= 0 < 50 - 1 /\
  seq_get example_factors ((50 - 1 - 0) * (1000 `div` 50) + 1) = Some (/ 2)%R /\
  seq_get example_factors ((50 - 1 - (0 + 1)) * (1000 `div` 50) + 1)
  = Some (/ 2)%R /\
  seq_get example_factors
    (if bool_decide (0 + 1 < 50 - 1)
     then (50 - 1 - (0 + 1 + 1)) * (1000 `div` 50) + 1 else 0) = Some (/ 2)%R /\
  seq_get (timesteps example_scheduler) (0 + 1)
  = Some ((50 - 1 - (0 + 1)) * (1000 `div` 50) + 1) /\
  real_step example_scheduler 1%R 0%R 0
  = Ok (real_x_prev (/ 2)%R (/ 2)%R 1%R 0%R) /\
  real_step example_scheduler 2%R 0%R (0 + 1)
  = Ok (real_x_prev (/ 2)%R (/ 2)%R 2%R 0%R).
Proof.
  split; [reflexivity|]. split; [lia|]. split; [lia|].
  split; [reflexivity|]. split; [reflexivity|]. split; [reflexivity|].
  apply (consecutive_steps_chain Rplus Rminus Rmult Rdiv sqrt
           (fun t k => pow t (Z.to_nat k)) (fun k t => Rminus (IZR k) t)
           50 1000 example_factors example_scheduler
           1%R 0%R 2%R 0%R (/ 2)%R (/ 2)%R (/ 2)%R 0);
    [reflexivity|lia|lia|reflexivity|reflexivity|reflexivity].
Defined.

End DDIMEdge.

(** ** The image embedding at the edges of its inputs *)

Module EmbeddingEdge.
Import Py PyFacts Embedding EmbeddingFacts.
Local Open Scope nat_scope.

Section Embedding.
Context {PIL Img Enc Tok float : Type}.
Variable preprocess_image : PIL -> nat * nat -> list Img.
Variable image_encoder : list Img -> Enc.
Variable image_proj : Enc -> list (list Tok).
Variable div : Enc -> float -> Enc.
Variable zeros_like_img : list Img -> list Img.
Variable zeros_like_enc : Enc -> Enc.
Variable ne_one : float -> bool.
Variable scale : float -> Tok -> Tok.
Variable fine_grained : bool.

Local Abbreviation compute :=
  (compute_image_embedding preprocess_image image_encoder image_proj div
     zeros_like_img zeros_like_enc ne_one scale fine_grained).
Local Abbreviation embeddings :=
  (_compute_image_embedding image_encoder image_proj div
     zeros_like_img zeros_like_enc fine_grained).

(** The call depends on the prompt only through the image tensor made
    from it. *)
Lemma compute_through_tensor (p q : prompt PIL Img) weights div_factor
    concat_batches size :
  prompt_tensor preprocess_image p size = prompt_tensor preprocess_image q size ->
  compute p weights div_factor concat_batches size
  = compute q weights div_factor concat_batches size.
Proof. intros H. unfold compute_image_embedding. by rewrite H. Qed.

(** X8.  The three forms of a prompt agree: a non-empty list of images
    is turned into the tensor that stacks the preprocessed images and
    gives the embedding of that tensor,
    a list of one image gives the embedding of that image, and an empty
    list raises [RuntimeError] (there is nothing to stack). *)
Theorem prompt_forms_agree (image : PIL) (images : list PIL)
    (weights : option (list float)) (div_factor : float)
    (concat_batches : bool) (size : nat * nat) :
  prompt_tensor preprocess_image (PromptList (image :: images)) size
  = Ok (concat ((fun image => preprocess_image image size) <$> image :: images)) /\
  compute (PromptList (image :: images)) weights div_factor concat_batches size
  = compute (PromptTensor
               (concat ((fun image => preprocess_image image size)
                          <$> image :: images)))
            weights div_factor concat_batches size /\
  compute (PromptList [image]) weights div_factor concat_batches size
  = compute (PromptImage image) weights div_factor concat_batches size /\
  compute (PromptList []) weights div_factor concat_batches size
  = Raise RuntimeError.
Proof.
  split; [reflexivity|]. split; [|split].
  - by apply compute_through_tensor.
  - apply compute_through_tensor. cbn. by rewrite app_nil_r.
  - reflexivity.
Qed.

(** X9.  Weights are checked against the batch size before they are
    looked at: a list of another length fails the assertion, also when
    every weight is 1.0.  A list of the right length whose weights are all
    1.0 changes nothing: the result is the one without weights. *)
Theorem unit_weights_are_neutral (image_prompt : prompt PIL Img)
    (ws : list float) (div_factor : float) (concat_batches : bool)
    (size : nat * nat) (images : list Img) :
  prompt_tensor preprocess_image image_prompt size = Ok images ->
  (length ws <> length images ->
   compute image_prompt (Some ws) div_factor concat_batches size
   = Raise AssertionError) /\
  (length ws = length images -> existsb ne_one ws = false ->
   compute image_prompt (Some ws) div_factor concat_batches size
   = compute image_prompt None div_factor concat_batches size).
Proof.
  intros Hprompt. unfold compute_image_embedding.
  rewrite Hprompt. cbn [Py.bind].
  destruct (embeddings images div_factor) as [negative conditional].
  split.
  - intros Hlen. by rewrite bool_decide_false by done.
  - intros Hlen Hones. rewrite bool_decide_true by done. cbn [negb].
    by rewrite Hones.
Qed.

(** X10.  For a single image [concat_batches] makes no difference. *)
Theorem single_image_ignores_concat (image_prompt : prompt PIL Img)
    (weights : option (list float)) (div_factor : float)
    (size : nat * nat) (images : list Img) :
  prompt_tensor preprocess_image image_prompt size = Ok images ->
  length images <= 1 ->
  compute image_prompt weights div_factor true size
  = compute image_prompt weights div_factor false size.
Proof.
  intros Hprompt Hlen. unfold compute_image_embedding.
  rewrite Hprompt. cbn [Py.bind].
  destruct (embeddings images div_factor) as [negative conditional].
  by rewrite (bool_decide_false (1 < length images)) by lia.
Qed.

(** The weighting step of the call, when the weights match the batch. *)
Lemma weighting_step (conditional : list (list Tok)) weights n :
  length conditional = n ->
  weights_match weights n = true ->
  exists weighted : list (list Tok),
    length weighted = n /\
    match weights with
    | Some ws =>
        if negb (bool_decide (length ws = n)) then Raise AssertionError
        else if existsb ne_one ws
             then imul_weights scale conditional ws
             else Ok conditional
    | None => Ok conditional
    end = Ok weighted.
Proof.
  intros Hc Hw. destruct weights as [ws|]; [|by exists conditional].
  cbn in Hw. apply bool_decide_eq_true in Hw.
  rewrite bool_decide_true by done. cbn [negb].
  destruct (existsb ne_one ws); [|by exists conditional].
  unfold imul_weights. rewrite bool_decide_true by lia.
  eexists. split; [|done]. rewrite length_zip_with. lia.
Qed.

(** X11.  The shape of the result along the batch axis, when the
    projection returns one row per image and the weights match: for more
    than one image with [concat_batches] the result has two rows (the
    joined negative one, then the joined conditional one), otherwise it
    has two rows per image. *)
Theorem embedding_row_count (image_prompt : prompt PIL Img)
    (weights : option (list float)) (div_factor : float)
    (concat_batches : bool) (size : nat * nat) (images : list Img) :
  prompt_tensor preprocess_image image_prompt size = Ok images ->
  length (embeddings images div_factor).1 = length images ->
  length (embeddings images div_factor).2 = length images ->
  weights_match weights (length images) = true ->
  exists out : list (list Tok),
    compute image_prompt weights div_factor concat_batches size = Ok out /\
    length out = if bool_decide (1 < length images) && concat_batches
                 then 2 else 2 * length images.
Proof.
  intros Hprompt Hneg Hcond Hw. unfold compute_image_embedding.
  rewrite Hprompt. cbn [Py.bind].
  destruct (embeddings images div_factor) as [negative conditional].
  cbn [fst snd] in *.
  destruct (weighting_step conditional weights _ Hcond Hw)
    as (weighted & Hlw & ->).
  cbn [Py.bind].
  destruct (bool_decide (1 < length images)) eqn:Hb; cbn [andb].
  - apply bool_decide_eq_true in Hb. destruct concat_batches.
    + rewrite (chunk_batch _ negative) by lia. cbn [Py.bind].
      rewrite cat_dim1_rows by (intros ->; cbn in Hneg; lia). cbn [Py.bind].
      rewrite (chunk_batch _ weighted) by lia. cbn [Py.bind].
      rewrite cat_dim1_rows by (intros ->; cbn in Hlw; lia). cbn [Py.bind].
      by eexists.
    + eexists. split; [done|]. cbn. rewrite length_app. lia.
  - eexists. split; [done|]. cbn. rewrite length_app. lia.
Qed.

End Embedding.

Local Abbreviation example_embeddings :=
  (_compute_image_embedding (Img := nat) (Enc := list nat) (Tok := Z) (float := Z)
     (fun t => t)
     (fun e => (fun x => [Z.of_nat x; (Z.of_nat x + 1)%Z]) <$> e)
     (fun e _ => e) (fun t => (fun _ => 0) <$> t) (fun e => (fun _ => 0) <$> e)
     false).

Lemma unit_weights_are_neutral_witness :
  prompt_tensor (fun image (_ : nat * nat) => [image]) (PromptList [3; 5]) (224, 224)
  = Ok [3; 5] /\
  (length [1; 1]%Z <> length [3; 5] ->
   example_compute (PromptList [3; 5]) (Some [1; 1]%Z) 1%Z true (224, 224)
   = Raise AssertionError) /\
  (length [1; 1]%Z = length [3; 5] ->
   existsb (fun w => negb (w =? 1)%Z) [1; 1]%Z = false ->
   example_compute (PromptList [3; 5]) (Some [1; 1]%Z) 1%Z true (224, 224)
   = example_compute (PromptList [3; 5]) None 1%Z true (224, 224)).
Proof.
  split; [reflexivity|]. unfold example_compute.
  exact (unit_weights_are_neutral
           (fun image (_ : nat * nat) => [image]) (fun t => t)
           (fun e => (fun x => [Z.of_nat x; (Z.of_nat x + 1)%Z]) <$> e)
           (fun e _ => e) (fun t => (fun _ => 0) <$> t) (fun e => (fun _ => 0) <$> e)
           (fun w => negb (w =? 1)%Z) Z.mul false
           (PromptList [3; 5]) [1; 1]%Z 1%Z true (224, 224) [3; 5] eq_refl).
Defined.

Lemma single_image_ignores_concat_witness :
  prompt_tensor (fun image (_ : nat * nat) => [image]) (PromptImage 3) (224, 224)
  = Ok [3] /\
  length [3] <= 1 /\
  example_compute (PromptImage 3) (Some [2]%Z) 1%Z true (224, 224)
  = example_compute (PromptImage 3) (Some [2]%Z) 1%Z false (224, 224).
Proof.
  split; [reflexivity|]. split; [cbn; lia|]. unfold example_compute.
  exact (single_image_ignores_concat
           (fun image (_ : nat * nat) => [image]) (fun t => t)
           (fun e => (fun x => [Z.of_nat x; (Z.of_nat x + 1)%Z]) <$> e)
           (fun e _ => e) (fun t => (fun _ => 0) <$> t) (fun e => (fun _ => 0) <$> e)
           (fun w => negb (w =? 1)%Z) Z.mul false
           (PromptImage 3) (Some [2]%Z) 1%Z (224, 224) [3] eq_refl
           (le_n 1)).
Defined.

Lemma embedding_row_count_witness :
  prompt_tensor (fun image (_ : nat * nat) => [image]) (PromptList [3; 5]) (224, 224)
  = Ok [3; 5] /\
  length (example_embeddings [3; 5] 1%Z).1 = length [3; 5] /\
  length (example_embeddings [3; 5] 1%Z).2 = length [3; 5] /\
  weights_match (Some [2; 1]%Z) (length [3; 5]) = true /\
  exists out : list (list Z),
    example_compute (PromptList [3; 5]) (Some [2; 1]%Z) 1%Z true (224, 224) = Ok out /\
    length out = if bool_decide (1 < length [3; 5]) && true
                 then 2 else 2 * length [3; 5].
Proof.
  split; [reflexivity|]. split; [reflexivity|]. split; [reflexivity|].
  split; [reflexivity|]. unfold example_compute.
  exact (embedding_row_count
           (fun image (_ : nat * nat) => [image]) (fun t => t)
           (fun e => (fun x => [Z.of_nat x; (Z.of_nat x + 1)%Z]) <$> e)
           (fun e _ => e) (fun t => (fun _ => 0) <$> t) (fun e => (fun _ => 0) <$> e)
           (fun w => negb (w =? 1)%Z) Z.mul false
           (PromptList [3; 5]) (Some [2; 1]%Z) 1%Z true (224, 224) [3; 5]
           eq_refl eq_refl eq_refl eq_refl).
Defined.

End EmbeddingEdge.

(** ** Constructors that can never return *)

Module CtorEdge.
Import Py PyFacts Ctor CtorFacts.
Local Open Scope string_scope.

(** X12.  No [LayerNormTorch] and no [LayerNorm] is ever constructed,
    whatever the initializer of the base class and torch's [ones] and
    [zeros] do: if they return, the condition on the unbound name [bias]
    raises, and if one of them raises, that exception leaves the
    constructor. *)
Theorem LayerNorm_never_constructed (external : string -> res unit)
    (normalized_shape : shape_arg) (use_bias : bool) :
  (exists e, LayerNormTorch___init__ external normalized_shape use_bias = Raise e) /\
  (exists e, LayerNorm___init__ external normalized_shape use_bias = Raise e).
Proof.
  assert (H : exists e, LayerNormTorch___init__ external normalized_shape use_bias
                        = Raise e).
  { unfold LayerNormTorch___init__.
    destruct (external "Module.__init__") as [[]|e1]; [|by eexists].
    cbn [Py.bind].
    destruct (external "torch.ones") as [[]|e2]; [|by eexists].
    cbn [Py.bind]. rewrite bias_is_unbound. by eexists. }
  split; [exact H|]. unfold LayerNorm___init__. cbn. exact H.
Qed.

(** X13.  An [ImageProjection] is never constructed: its third layer is
    built as [fl.LayerNorm(..., bias=use_bias, ...)], and [LayerNorm] has
    no parameter [bias].  The exception is that [TypeError] whenever the
    [Linear] and the [Reshape] built before it are built. *)
Theorem ImageProjection_never_constructed (external : string -> res unit)
    (clip_text_embedding_dim : Z) (use_bias : bool) :
  (exists e, ImageProjection___init__ external clip_text_embedding_dim use_bias
             = Raise e) /\
  (external "fl.Linear" = Ok tt -> external "fl.Reshape" = Ok tt ->
   ImageProjection___init__ external clip_text_embedding_dim use_bias
   = Raise TypeError).
Proof.
  unfold ImageProjection___init__. split.
  - destruct (external "fl.Linear") as [[]|e1]; [|by eexists]. cbn [Py.bind].
    destruct (external "fl.Reshape") as [[]|e2]; [|by eexists]. cbn [Py.bind].
    rewrite LayerNorm_rejects_bias_keyword. by eexists.
  - intros -> ->. reflexivity.
Qed.

Lemma TransformerLayer_fails (external : string -> res unit) latents_dim use_bias :
  (exists e, TransformerLayer_new external latents_dim use_bias = Raise e) /\
  (external "fl.Parallel" = Ok tt ->
   TransformerLayer_new external latents_dim use_bias = Raise TypeError).
Proof.
  unfold TransformerLayer_new, PerceiverAttention___init__. split.
  - destruct (external "fl.Parallel") as [[]|e1]; [|by eexists].
    rewrite LayerNorm_rejects_bias_keyword. by eexists.
  - intros ->. reflexivity.
Qed.

(** X14.  Neither a [PerceiverAttention] nor a [PerceiverResampler] is
    ever constructed, for any number of attention layers (also none): the
    first layer norm of the attention, and the last layer of the
    resampler, are built with the keyword [bias].  When the collaborators
    return the exception is [TypeError]. *)
Theorem Perceiver_never_constructed (external : string -> res unit)
    (embedding_dim latents_dim output_dim : Z) (num_attention_layers : nat)
    (use_bias : bool) :
  PerceiverAttention___init__ external embedding_dim use_bias = Raise TypeError /\
  (exists e, PerceiverResampler___init__ external latents_dim
               num_attention_layers output_dim use_bias = Raise e) /\
  ((forall name, external name = Ok tt) ->
   PerceiverResampler___init__ external latents_dim
     num_attention_layers output_dim use_bias = Raise TypeError).
Proof.
  split; [reflexivity|]. unfold PerceiverResampler___init__. split.
  - destruct (external "fl.Linear") as [[]|e1]; [|by eexists]. cbn [Py.bind].
    destruct (external "fl.SetContext") as [[]|e2]; [|by eexists]. cbn [Py.bind].
    destruct (external "LatentsToken") as [[]|e3]; [|by eexists]. cbn [Py.bind].
    destruct (repeat_layers external num_attention_layers latents_dim use_bias)
      as [[]|e4]; [|by eexists]. cbn [Py.bind].
    destruct (external "Transformer") as [[]|e5]; [|by eexists]. cbn [Py.bind].
    rewrite LayerNorm_rejects_bias_keyword. by eexists.
  - intros Hext. rewrite !Hext. cbn [Py.bind].
    destruct num_attention_layers as [|n].
    + reflexivity.
    + cbn [repeat_layers].
      rewrite (proj2 (TransformerLayer_fails external latents_dim use_bias))
        by apply Hext.
      reflexivity.
Qed.

End CtorEdge.

(** ** Loading the weights without [strict] *)

Module WeightsEdge.
Import Py PyFacts Weights WeightsFacts.
Local Open Scope nat_scope.

(** X15.  With a weight map and [strict=False], unmatched keys and
    parameters are tolerated in every block.  Loading fails exactly when a
    sub-adapter block has a shape mismatch on a matched key or, with
    [use_pooled_text_embedding], the [pooled_text_embedding_proj.] block
    has one; a shape mismatch in the [image_proj.] block is caught.  When
    loading succeeds every submodule holds the copied tensors. *)
Theorem lenient_load_outcome (self : Modules) (weights : gmap string Tensor)
    (use_pooled_text_embedding : bool) :
  load_weights self (Some weights) false use_pooled_text_embedding
  = if sub_adapter_shapes_agree weights 0 (sub_adapters self)
       && (negb use_pooled_text_embedding
           || no_size_mismatch (pooled_text_embedding_proj self)
                (block "pooled_text_embedding_proj." weights))
    then Ok (mkModules
               (copied (image_proj self) (block "image_proj." weights))
               (copied_sub_adapters weights 0 (sub_adapters self))
               (if use_pooled_text_embedding
                then copied (pooled_text_embedding_proj self)
                            (block "pooled_text_embedding_proj." weights)
                else pooled_text_embedding_proj self))
    else Raise RuntimeError.
Proof.
  unfold load_weights, load_state_dict. rewrite load_sub_adapters_run.
  destruct (sub_adapter_shapes_agree weights 0 (sub_adapters self));
    cbn [andb Py.bind]; [|done].
  destruct use_pooled_text_embedding; cbn [negb orb]; [|done].
  rewrite andb_true_r. by destruct (no_size_mismatch _ _).
Qed.

End WeightsEdge.

(** ** The conversions of the image encoder *)

Module EncoderFacts.
Import Py PyFacts Encoder.
Local Open Scope nat_scope.

(** A list is empty or ends in an element. *)
Lemma snoc_cases {A} (l : list A) : l = [] \/ exists pre x, l = pre ++ [x].
Proof.
  destruct (reverse l) as [|x r] eqn:Hr.
  - left. by rewrite <- (reverse_involutive l), Hr.
  - right. exists (reverse r), x.
    by rewrite <- (reverse_involutive l), Hr, reverse_cons.
Qed.

(** Indexing from the end: [l[-(k+1)]] is the element [k] of the
    reversed list. *)
Lemma seq_get_from_end {A} (l : list A) (k : nat) :
  seq_get l (- Z.of_nat (S k)) = reverse l !! k.
Proof.
  unfold seq_get. rewrite bool_decide_false by lia.
  destruct (decide (k < length l)) as [Hk|Hk].
  - rewrite bool_decide_true by lia.
    rewrite reverse_lookup by done. f_equal. lia.
  - rewrite bool_decide_false by lia. symmetry.
    apply lookup_ge_None. rewrite length_reverse. lia.
Qed.

(** An index that counts from the end and stays within the last part of
    a list. *)
Lemma getitem_from_end_app {A} (l1 l2 : list A) (i : Z) :
  (- Z.of_nat (length l2) <= i < 0)%Z ->
  getitem (l1 ++ l2) i = getitem l2 i.
Proof.
  intros Hi. unfold getitem, seq_get.
  rewrite !(bool_decide_false (0 <= i)%Z) by lia.
  rewrite !bool_decide_true by (rewrite ?length_app; lia).
  rewrite length_app, lookup_app_r by lia. do 2 f_equal. lia.
Qed.

Lemma getitem_last {A} (pre : list A) x :
  getitem (pre ++ [x]) (-1) = Ok x.
Proof. by rewrite getitem_from_end_app by (cbn; lia). Qed.

Lemma pop_app {A} (l1 l2 : list A) :
  l2 <> [] -> pop (l1 ++ l2) = Ok (l1 ++ take (length l2 - 1) l2).
Proof.
  intros Hl2. unfold pop. destruct (l1 ++ l2) eqn:E.
  - apply app_eq_nil in E as [_ ->]. done.
  - rewrite <- E, length_app. f_equal.
    assert (0 < length l2) by (destruct l2; [done|cbn; lia]).
    rewrite take_app. rewrite take_ge by lia. do 2 f_equal. lia.
Qed.

Lemma pop_snoc {A} (pre : list A) x : pop (pre ++ [x]) = Ok pre.
Proof. rewrite pop_app by done. cbn. by rewrite app_nil_r. Qed.

(** How the conversion to grid features runs on a CLIP encoder with at
    least four layers. *)
Lemma grid_features_CLIP_run (pre : list layer) (t l3 l2 l1 : layer) :
  convert_to_grid_features (mkEncoder true (pre ++ [t; l3; l2; l1]))
  = (_ <- assert (is_Linear l1) ;;
     _ <- assert (is_LayerNorm l2) ;;
     _ <- assert (is_Lambda l3) ;;
     match t with
     | Chain children =>
         _ <- assert (bool_decide (length children = 32)) ;;
         children <- pop children ;;
         Ok (mkEncoder true (pre ++ [Chain children]))
     | _ => Raise AssertionError
     end).
Proof.
  unfold convert_to_grid_features. cbn [is_CLIPImageEncoderH layers].
  rewrite !getitem_from_end_app by (cbn; lia).
  change (getitem [t; l3; l2; l1] (-1)) with (Ok l1).
  change (getitem [t; l3; l2; l1] (-2)) with (Ok l2).
  change (getitem [t; l3; l2; l1] (-3)) with (Ok l3).
  cbn [Py.bind].
  destruct (assert (is_Linear l1)) as [[]|e]; [|done]. cbn [Py.bind].
  destruct (assert (is_LayerNorm l2)) as [[]|e]; [|done]. cbn [Py.bind].
  destruct (assert (is_Lambda l3)) as [[]|e]; [|done]. cbn [Py.bind].
  rewrite pop_app by done. cbn [length Nat.sub take Py.bind].
  rewrite pop_app by done. cbn [length Nat.sub take Py.bind].
  rewrite pop_app by done. cbn [length Nat.sub take Py.bind].
  rewrite getitem_last. cbn [Py.bind].
  rewrite length_app. cbn [length].
  replace (length pre + 1 - 1) with (length pre) by lia.
  by rewrite take_app_length.
Qed.

(** On a CLIP encoder with fewer than four layers the conversion to grid
    features does not return. *)
Lemma grid_features_CLIP_short (ls : list layer) e :
  length ls < 4 -> convert_to_grid_features (mkEncoder true ls) <> Ok e.
Proof.
  intros Hlen. destruct ls as [|a [|b [|c [|d ls]]]]; [| | | |cbn in Hlen; lia].
  - done.
  - cbn. by destruct a.
  - cbn. destruct b; try done. by destruct a.
  - cbn. destruct c; try done. destruct b; try done. by destruct a.
Qed.

(** X16.  The conversion to grid features returns for a CLIP encoder
    exactly when the encoder ends in a chain of 32 layers followed by a
    [Lambda], a [LayerNorm] and a [Linear]; the result is the encoder
    without these last three layers and without the last layer of that
    chain. *)
Theorem grid_features_of_CLIP (ls : list layer) (e : encoder) :
  convert_to_grid_features (mkEncoder true ls) = Ok e <->
  exists pre children,
    ls = pre ++ [Chain children; Lambda; LayerNorm; Linear] /\
    length children = 32 /\
    e = mkEncoder true (pre ++ [Chain (take 31 children)]).
Proof.
  split.
  - intros Hrun.
    destruct (decide (length ls < 4)) as [Hshort|Hlong].
    { by destruct (grid_features_CLIP_short ls e Hshort). }
    destruct (snoc_cases ls) as [->|(ls1 & l1 & ->)]; [cbn in Hlong; lia|].
    destruct (snoc_cases ls1) as [->|(ls2 & l2 & ->)]; [cbn in Hlong; lia|].
    destruct (snoc_cases ls2) as [->|(ls3 & l3 & ->)]; [cbn in Hlong; lia|].
    destruct (snoc_cases ls3) as [->|(pre & t & ->)]; [cbn in Hlong; lia|].
    rewrite <- !app_assoc in Hrun |- *. cbn [app] in Hrun |- *.
    rewrite grid_features_CLIP_run in Hrun.
    destruct l1; try done. destruct l2; try done. destruct l3; try done.
    destruct t as [| | | |children]; try done.
    cbn [is_Linear is_LayerNorm is_Lambda assert Py.bind] in Hrun.
    destruct (decide (length children = 32)) as [Hlen|Hlen].
    + rewrite bool_decide_true in Hrun by done. cbn [assert Py.bind] in Hrun.
      unfold pop in Hrun. destruct children as [|c cs]; [done|].
      cbn [Py.bind] in Hrun. injection Hrun as <-.
      exists pre, (c :: cs). repeat split; [done|].
      cbn [length] in Hlen. by replace (length cs - 0) with 31 by lia.
    + by rewrite bool_decide_false in Hrun by done.
  - intros (pre & children & -> & Hlen & ->).
    rewrite grid_features_CLIP_run.
    cbn [is_Linear is_LayerNorm is_Lambda assert Py.bind].
    rewrite bool_decide_true by done. cbn [assert Py.bind].
    unfold pop. destruct children as [|c cs]; [done|].
    by rewrite Hlen.
Qed.

(** How the two conversions run on a ViT. *)
Lemma ViT_conversions_run (pre : list layer) (final : layer) :
  convert_to_pooled_features (mkEncoder false (pre ++ [final]))
  = (_ <- assert (is_LayerNorm final) ;;
     Ok (mkEncoder false (pre ++ [final; Lambda]))) /\
  convert_to_grid_features (mkEncoder false (pre ++ [final]))
  = (_ <- assert (is_LayerNorm final) ;; Ok (mkEncoder false pre)).
Proof.
  unfold convert_to_pooled_features, convert_to_grid_features.
  cbn [is_CLIPImageEncoderH layers]. rewrite getitem_last. cbn [Py.bind].
  destruct (assert (is_LayerNorm final)) as [[]|err]; [|done]. cbn [Py.bind].
  rewrite pop_snoc, <- app_assoc. done.
Qed.

(** X17.  For a ViT both conversions return exactly when the last
    layer is the final [LayerNorm]; an encoder without layers raises
    [IndexError] and any other last layer fails the assertion.  The pooled
    features keep every layer and append the pooling [Lambda]; the grid
    features drop the final [LayerNorm]. *)
Theorem conversions_of_ViT (ls : list layer) :
  match last ls with
  | None =>
      convert_to_pooled_features (mkEncoder false ls) = Raise IndexError /\
      convert_to_grid_features (mkEncoder false ls) = Raise IndexError
  | Some LayerNorm =>
      convert_to_pooled_features (mkEncoder false ls)
      = Ok (mkEncoder false (ls ++ [Lambda])) /\
      convert_to_grid_features (mkEncoder false ls)
      = Ok (mkEncoder false (take (length ls - 1) ls))
  | Some _ =>
      convert_to_pooled_features (mkEncoder false ls) = Raise AssertionError /\
      convert_to_grid_features (mkEncoder false ls) = Raise AssertionError
  end.
Proof.
  destruct (snoc_cases ls) as [->|(pre & final & ->)]; [done|].
  rewrite last_snoc.
  destruct (ViT_conversions_run pre final) as [-> ->].
  rewrite length_app. cbn [length].
  replace (length pre + 1 - 1) with (length pre) by lia.
  rewrite take_app_length, <- app_assoc.
  by destruct final.
Qed.

(** X18.  The conversion to pooled features leaves a CLIP encoder as it
    is, so it can be repeated; on a ViT it cannot: the converted encoder
    ends in the pooling [Lambda], and converting it again, to pooled or to
    grid features, fails the assertion on the final normalization. *)
Theorem pooled_features_twice (image_encoder converted : encoder) :
  convert_to_pooled_features image_encoder = Ok converted ->
  if is_CLIPImageEncoderH image_encoder
  then converted = image_encoder /\
       convert_to_pooled_features converted = Ok converted
  else convert_to_pooled_features converted = Raise AssertionError /\
       convert_to_grid_features converted = Raise AssertionError.
Proof.
  destruct image_encoder as [[] ls].
  - intros [= <-]. by split.
  - cbn [is_CLIPImageEncoderH].
    destruct (snoc_cases ls) as [->|(pre & final & ->)]; [done|].
    destruct (ViT_conversions_run pre final) as [-> _].
    destruct final; try done. cbn [is_LayerNorm assert Py.bind].
    intros [= <-].
    change [LayerNorm; Lambda] with ([LayerNorm] ++ [Lambda]).
    rewrite app_assoc.
    by destruct (ViT_conversions_run (pre ++ [LayerNorm]) Lambda) as [-> ->].
Qed.

Lemma pooled_features_twice_witness :
  convert_to_pooled_features vit_encoder
  = Ok (mkEncoder false (layers vit_encoder ++ [Lambda])) /\
  convert_to_pooled_features (mkEncoder false (layers vit_encoder ++ [Lambda]))
  = Raise AssertionError /\
  convert_to_grid_features (mkEncoder false (layers vit_encoder ++ [Lambda]))
  = Raise AssertionError.
Proof.
  split; [reflexivity|].
  apply (pooled_features_twice vit_encoder
           (mkEncoder false (layers vit_encoder ++ [Lambda]))).
  reflexivity.
Defined.

(** X19.  After the constructor has stored the encoder, the property
    [image_encoder] returns the encoder converted to grid features when
    the adapter is fine-grained and to pooled features when it is not.
    The other attribute does not exist: when [fine_grained] is switched
    afterwards, reading the property fails, with [AssertionError] once
    switched on and with [AttributeError] once switched off. *)
Theorem image_encoder_after_init (image_encoder : encoder) (fine_grained : bool)
    (self : IPAdapter) :
  IPAdapter_store_encoder image_encoder fine_grained = Ok self ->
  IPAdapter_image_encoder self
  = (if fine_grained then convert_to_grid_features image_encoder
     else convert_to_pooled_features image_encoder) /\
  IPAdapter_image_encoder (set_fine_grained (negb fine_grained) self)
  = Raise (if fine_grained then AttributeError else AssertionError).
Proof.
  unfold IPAdapter_store_encoder. destruct fine_grained.
  - destruct (convert_to_grid_features image_encoder) as [grid|e]; [|done].
    by intros [= <-].
  - destruct (convert_to_pooled_features image_encoder) as [pooled|e]; [|done].
    by intros [= <-].
Qed.

Lemma image_encoder_after_init_witness :
  IPAdapter_store_encoder (clip_encoder 32) true
  = Ok (mkIPAdapter true None
          (Some (mkEncoder true
                   [Other "ViTEmbeddings"; LayerNorm;
                    Chain (replicate 31 (Other "TransformerLayer"))]))) /\
  IPAdapter_image_encoder
    (mkIPAdapter true None
       (Some (mkEncoder true
                [Other "ViTEmbeddings"; LayerNorm;
                 Chain (replicate 31 (Other "TransformerLayer"))])))
  = convert_to_grid_features (clip_encoder 32) /\
  IPAdapter_image_encoder
    (set_fine_grained (negb true)
       (mkIPAdapter true None
          (Some (mkEncoder true
                   [Other "ViTEmbeddings"; LayerNorm;
                    Chain (replicate 31 (Other "TransformerLayer"))]))))
  = Raise AttributeError.
Proof.
  split; [reflexivity|].
  apply (image_encoder_after_init (clip_encoder 32) true).
  reflexivity.
Defined.

End EncoderFacts.

(** ** The scale: construction, structure, repeated assignment *)

Module ScaleEdge.
Import Py PyFacts Scale ScaleFacts Skeleton.

Section Trees.
Context {float : Type}.
Local Abbreviation FlModule := (Scale.FlModule float).
Local Abbreviation SDPA := ScaledDotProductAttention.
Local Abbreviation ICA := ImageCrossAttention.

(** *** Lists *)

Lemma change_first_skip {A} (h : A -> option (res A)) l1 l :
  Forall (fun z => h z = None) l1 ->
  change_first h (l1 ++ l)
  = match change_first h l with
    | Some r => Some (ys <- r ;; Ok (l1 ++ ys))
    | None => None
    end.
Proof.
  induction 1 as [|z l1 Hz _ IH]; cbn [app change_first].
  - destruct (change_first h l) as [[ys|e]|]; reflexivity.
  - rewrite Hz, IH. destruct (change_first h l) as [[ys|e]|]; reflexivity.
Qed.

Lemma for_each_length (f : FlModule -> res FlModule) l l' :
  for_each f l = Ok l' -> length l' = length l.
Proof.
  revert l'. induction l as [|x xs IH]; intros l'; cbn.
  - by intros [= <-].
  - destruct (f x) as [y|e]; [|done]. cbn.
    destruct (for_each f xs) as [ys|e]; [|done]. cbn.
    intros [= <-]. cbn. by rewrite (IH ys).
Qed.

(** *** Whether there is a match does not depend on the mutation *)

Lemma update_None_iff c g (m : FlModule) :
  update c g m = None <-> find c m = None.
Proof.
  pose proof (update_tracks c g m) as Htr. unfold tracks in Htr.
  destruct (update c g m) as [[m'|e]|].
  - destruct Htr as (a & b & -> & _). split; discriminate.
  - destruct Htr as (a & -> & _). split; discriminate.
  - by split.
Qed.

Lemma update_at_None_iff c g (m : FlModule) :
  update_at c g m = None <-> find_at c m = None.
Proof.
  unfold update_at, find_at. destruct (cls_eqb (class_of m) c).
  - split; discriminate.
  - apply update_None_iff.
Qed.

Lemma update_at_None_indep c g g' (m : FlModule) :
  update_at c g m = None -> update_at c g' m = None.
Proof. rewrite !update_at_None_iff. done. Qed.

(** The root attribute plays no part in a mutation below the root. *)
Lemma update_root_indep c g k s s' (ch ch' : list FlModule) :
  update c g (Node k s ch) = Some (Ok (Node k s ch')) ->
  update c g (Node k s' ch) = Some (Ok (Node k s' ch')).
Proof.
  rewrite !update_unfold.
  destruct (change_first (update_at c g) ch) as [[l|e]|]; cbn; [|done..].
  by intros [= <-].
Qed.

Lemma update_root_shape c g k s (ch : list FlModule) m' :
  update c g (Node k s ch) = Some (Ok m') -> exists ch', m' = Node k s ch'.
Proof.
  rewrite update_unfold.
  destruct (change_first (update_at c g) ch) as [[l|e]|]; cbn; [|done..].
  intros [= <-]. by eexists.
Qed.

(** *** A mutation after a mutation *)

(** When [g1] keeps the class of what it changes and [g2] after [g1]
    does what [g] does, then mutating with [g2] the tree that [g1] has
    mutated is mutating the original tree with [g]. *)
Lemma update_after c (g1 g2 g : FlModule -> res FlModule) (m : FlModule) :
  (forall x y, g1 x = Ok y -> class_of y = class_of x /\ g2 y = g x) ->
  forall m1, update c g1 m = Some (Ok m1) -> update c g2 m1 = update c g m.
Proof.
  intros Hg. induction m as [k s ch IH] using FlModule_ind'. intros m1.
  rewrite update_unfold.
  pose proof (change_first_spec (update_at c g1) ch) as Hspec.
  destruct (change_first (update_at c g1) ch) as [[ch1|e]|];
    cbn [Py.bind]; [|done..].
  intros [= <-]. rewrite !update_unfold.
  destruct Hspec as (l1 & x & x1 & l2 & -> & -> & Hl1 & Hx).
  apply Forall_app in IH as [_ IHx]. apply Forall_cons in IHx as [IHx _].
  rewrite !change_first_skip
    by (eapply Forall_impl; [exact Hl1|]; intros z;
        apply update_at_None_indep).
  assert (Hsame : update_at c g2 x1 = update_at c g x).
  { unfold update_at in Hx |- *.
    destruct (cls_eqb (class_of x) c) eqn:Hcx.
    - injection Hx as Hx. destruct (Hg x x1 Hx) as [Hcls Hgx].
      by rewrite Hcls, Hcx, Hgx.
    - destruct (update_root _ _ _ _ Hx) as [-> _]. rewrite Hcx.
      by apply IHx. }
  assert (Hsome : is_Some (update_at c g x)).
  { destruct (update_at c g x) eqn:Hu; [by eexists|].
    apply (update_at_None_indep c g g1) in Hu. congruence. }
  destruct Hsome as [r Hr]. cbn [change_first]. by rewrite Hsame, Hr.
Qed.

(** Two assignments of a scale, each followed by the assignment one
    level down: the second one wins. *)
Lemma assign_twice c (g : float -> FlModule -> res FlModule) :
  (forall v x y, g v x = Ok y -> class_of y = class_of x) ->
  (forall v1 v2 x y, g v1 x = Ok y -> g v2 y = g v2 x) ->
  forall v1 v2 (x y : FlModule),
    ensure_update c (g v1) (set_scale_attr v1 x) = Ok y ->
    ensure_update c (g v2) (set_scale_attr v2 y)
    = ensure_update c (g v2) (set_scale_attr v2 x).
Proof.
  intros Hcls Hg v1 v2 [k s ch] y. unfold ensure_update. cbn [set_scale_attr].
  destruct (update c (g v1) (Node k (Some v1) ch)) as [r|] eqn:Hu; [|done].
  intros ->. destruct (update_root_shape _ _ _ _ _ _ Hu) as [ch' ->].
  cbn [set_scale_attr].
  apply (update_root_indep _ _ _ _ (Some v2)) in Hu.
  by rewrite (update_after c (g v1) (g v2) (g v2) _
                ltac:(intros a b Hab; split; [by eapply Hcls|by eapply Hg])
                _ Hu).
Qed.

Lemma set_scale_attr_twice (v1 v2 : float) (m : FlModule) :
  set_scale_attr v2 (set_scale_attr v1 m) = set_scale_attr v2 m.
Proof. by destruct m. Qed.

Lemma ImageCrossAttention_set_scale_twice (v1 v2 : float) (x y : FlModule) :
  ImageCrossAttention_set_scale v1 x = Ok y ->
  ImageCrossAttention_set_scale v2 y = ImageCrossAttention_set_scale v2 x.
Proof.
  apply (assign_twice Multiply (fun v m => Ok (set_scale_attr v m))).
  - intros v a b [= <-]. apply set_scale_attr_class.
  - intros w1 w2 a b [= <-]. by rewrite set_scale_attr_twice.
Qed.

Lemma CrossAttentionAdapter_set_scale_twice (v1 v2 : float) (x y : FlModule) :
  CrossAttentionAdapter_set_scale v1 x = Ok y ->
  CrossAttentionAdapter_set_scale v2 y = CrossAttentionAdapter_set_scale v2 x.
Proof.
  apply (assign_twice ICA ImageCrossAttention_set_scale).
  - intros v a b. apply ImageCrossAttention_set_scale_class.
  - intros w1 w2 a b. apply ImageCrossAttention_set_scale_twice.
Qed.

(** X20.  Assigning the scale twice is assigning the last value once:
    after a first assignment has succeeded, a second one has the outcome
    it would have had on the adapter as it was before. *)
Theorem set_scale_last_wins (v1 v2 : float) (ip ip1 : Scale.IPAdapter float) :
  IPAdapter_set_scale v1 ip = Ok ip1 ->
  IPAdapter_set_scale v2 ip1 = IPAdapter_set_scale v2 ip.
Proof.
  unfold IPAdapter_set_scale. destruct ip as [subs state]. cbn [sub_adapters injected].
  destruct (for_each (CrossAttentionAdapter_set_scale v1) subs) as [subs1|e] eqn:H1;
    [|done].
  cbn [Py.bind]. intros [= <-]. cbn [sub_adapters injected].
  assert (Hsubs : for_each (CrossAttentionAdapter_set_scale v2) subs1
                  = for_each (CrossAttentionAdapter_set_scale v2) subs).
  { clear state. revert subs1 H1. induction subs as [|a subs IH]; intros subs1.
    - by intros [= <-].
    - cbn [for_each].
      destruct (CrossAttentionAdapter_set_scale v1 a) as [a1|e] eqn:Ha; [|done].
      cbn [Py.bind].
      destruct (for_each (CrossAttentionAdapter_set_scale v1) subs) as [l1|e];
        [|done].
      cbn [Py.bind]. intros [= <-]. cbn [for_each].
      by rewrite (CrossAttentionAdapter_set_scale_twice v1 v2 a a1 Ha), (IH l1). }
  by rewrite Hsubs.
Qed.

(** *** The structure is not touched *)

Lemma skeleton_set_scale_attr (v : float) (m : FlModule) :
  skeleton (set_scale_attr v m) = skeleton m.
Proof. by destruct m. Qed.

Lemma update_skeleton c (g : FlModule -> res FlModule) (m : FlModule) :
  (forall x y, g x = Ok y -> skeleton y = skeleton x) ->
  forall m', update c g m = Some (Ok m') -> skeleton m' = skeleton m.
Proof.
  intros Hg. induction m as [k s ch IH] using FlModule_ind'. intros m'.
  rewrite update_unfold.
  pose proof (change_first_spec (update_at c g) ch) as Hspec.
  destruct (change_first (update_at c g) ch) as [[ch'|e]|];
    cbn [Py.bind]; [|done..].
  intros [= <-].
  destruct Hspec as (l1 & x & x' & l2 & -> & -> & _ & Hx).
  apply Forall_app in IH as [_ IHx]. apply Forall_cons in IHx as [IHx _].
  cbn [skeleton]. rewrite !map_app. cbn [map]. do 3 f_equal.
  unfold update_at in Hx. destruct (cls_eqb (class_of x) c).
  - injection Hx as Hx. by apply Hg.
  - by apply IHx.
Qed.

Lemma ensure_update_skeleton c (g : FlModule -> res FlModule) (m m' : FlModule) :
  (forall x y, g x = Ok y -> skeleton y = skeleton x) ->
  ensure_update c g m = Ok m' -> skeleton m' = skeleton m.
Proof.
  intros Hg. unfold ensure_update.
  destruct (update c g m) as [r|] eqn:Hu; [|done]. intros ->.
  by apply (update_skeleton c g m Hg).
Qed.

Lemma ImageCrossAttention_set_scale_skeleton (v : float) (x y : FlModule) :
  ImageCrossAttention_set_scale v x = Ok y -> skeleton y = skeleton x.
Proof.
  unfold ImageCrossAttention_set_scale. intros H.
  rewrite <- (skeleton_set_scale_attr v x).
  eapply ensure_update_skeleton; [|exact H].
  intros a b [= <-]. apply skeleton_set_scale_attr.
Qed.

Lemma CrossAttentionAdapter_set_scale_skeleton (v : float) (x y : FlModule) :
  CrossAttentionAdapter_set_scale v x = Ok y -> skeleton y = skeleton x.
Proof.
  unfold CrossAttentionAdapter_set_scale. intros H.
  rewrite <- (skeleton_set_scale_attr v x).
  apply (ensure_update_skeleton ICA _ _ _
           (ImageCrossAttention_set_scale_skeleton v) H).
Qed.

(** X21.  Assigning the scale changes scale attributes only: every
    sub-adapter keeps its layers, their classes and their order, there are
    as many sub-adapters as before, and the injection state is the same. *)
Theorem set_scale_keeps_structure (v : float) (ip ip' : Scale.IPAdapter float) :
  IPAdapter_set_scale v ip = Ok ip' ->
  map skeleton (sub_adapters ip') = map skeleton (sub_adapters ip) /\
  length (sub_adapters ip') = length (sub_adapters ip) /\
  injected ip' = injected ip.
Proof.
  unfold IPAdapter_set_scale. destruct ip as [subs state]. cbn [sub_adapters injected].
  destruct (for_each (CrossAttentionAdapter_set_scale v) subs) as [subs'|e] eqn:H;
    [|done].
  cbn [Py.bind]. intros [= <-]. cbn [sub_adapters injected].
  split; [|split; [by eapply for_each_length|done]].
  clear state. revert subs' H. induction subs as [|a subs IH]; intros subs'.
  - by intros [= <-].
  - cbn [for_each].
    destruct (CrossAttentionAdapter_set_scale v a) as [a'|e] eqn:Ha; [|done].
    cbn [Py.bind].
    destruct (for_each (CrossAttentionAdapter_set_scale v) subs) as [l|e]; [|done].
    cbn [Py.bind]. intros [= <-]. cbn [map].
    by rewrite (CrossAttentionAdapter_set_scale_skeleton v a a' Ha), (IH l).
Qed.

(** *** A freshly built adapter *)

Lemma finds_new_image_cross_attention (ica m : FlModule) :
  class_of ica = ICA ->
  forall m',
    update SDPA (fun old => Ok (Node Sum None [old; ica])) m = Some (Ok m') ->
    find ICA m = None -> find ICA m' = Some ica.
Proof.
  intros Hica. induction m as [k s ch IH] using FlModule_ind'. intros m'.
  rewrite update_unfold.
  pose proof (change_first_spec
                (update_at SDPA (fun old => Ok (Node Sum None [old; ica]))) ch)
    as Hspec.
  destruct (change_first _ ch) as [[ch'|e]|]; cbn [Py.bind]; [|done..].
  intros [= <-]. rewrite !find_unfold.
  destruct Hspec as (l1 & x & x' & l2 & -> & -> & _ & Hx).
  apply Forall_app in IH as [_ IHx]. apply Forall_cons in IHx as [IHx _].
  intros Hnone. apply first_some_None in Hnone.
  apply Forall_app in Hnone as [Hl1 Hxl2].
  apply Forall_cons in Hxl2 as [Hxn _].
  rewrite first_some_app_None by done. cbn [first_some].
  assert (Hx' : find_at ICA x' = Some ica); [|by rewrite Hx'].
  unfold update_at in Hx. unfold find_at in Hxn |- *.
  destruct (cls_eqb (class_of x) SDPA) eqn:Hcx.
  - injection Hx as <-. cbn [class_of cls_eqb]. rewrite find_unfold.
    cbn [first_some]. unfold find_at at 1.
    destruct (cls_eqb (class_of x) ICA); [done|]. rewrite Hxn.
    unfold find_at. by rewrite Hica.
  - destruct (update_root _ _ _ _ Hx) as [-> _].
    destruct (cls_eqb (class_of x) ICA); [done|]. by apply IHx.
Qed.

Lemma multiply_of_new (s : float) f1 f2 :
  find Multiply (ImageCrossAttention_new s f1 f2) = Some (Node Multiply (Some s) []).
Proof. by destruct f1, f2. Qed.

Lemma fresh_sub_adapter (t : FlModule) (s : float) f1 f2 :
  unadapted t = true ->
  exists a,
    CrossAttentionAdapter_new t s f1 f2 = Ok a /\
    multiplier a = Some s /\ CrossAttentionAdapter_scale a = Ok s.
Proof.
  unfold unadapted. intros Ht. apply andb_true_iff in Ht as [Hnone Hsdp].
  destruct (find_at ICA t) eqn:Hica; [done|]. clear Hnone.
  destruct (find SDPA t) as [sdp|] eqn:Hfind; [|done]. clear Hsdp.
  unfold CrossAttentionAdapter_new, ensure_find, ensure_update.
  rewrite Hfind. cbn [of_option Py.bind].
  set (ica := ImageCrossAttention_new s f1 f2).
  pose proof (update_tracks SDPA (fun old => Ok (Node Sum None [old; ica])) t)
    as Htr.
  rewrite Hfind in Htr. unfold tracks in Htr.
  destruct (update SDPA _ t) as [[clone|e]|] eqn:Hu.
  - cbn [Py.bind]. eexists. split; [done|]. split; [|done].
    unfold multiplier. rewrite find_unfold. cbn [first_some].
    unfold find_at in Hica |- *.
    destruct (update_root _ _ _ _ Hu) as [-> _].
    destruct (cls_eqb (class_of t) ICA); [done|].
    rewrite (finds_new_image_cross_attention ica t eq_refl clone Hu Hica).
    unfold ica. by rewrite multiply_of_new.
  - by destruct Htr as (a & _ & Hbad).
  - done.
Qed.

End Trees.

(** X22.  An [IPAdapter] built with the scale [s] around cross-attention
    layers that no adapter was built into has that scale: reading it
    returns [s], and in every sub-adapter the scale attribute and the
    [Multiply] inside the new image cross-attention are [s]. *)
Theorem fresh_adapter_has_scale {float : Type}
    (cross_attentions : list (Scale.FlModule float)) (s : float)
    (use_timestep_embedding use_pooled_text_embedding : bool) :
  (0 < length cross_attentions)%nat ->
  forallb unadapted cross_attentions = true ->
  exists ip : Scale.IPAdapter float,
    IPAdapter_new cross_attentions s
      use_timestep_embedding use_pooled_text_embedding = Ok ip /\
    IPAdapter_scale ip = Ok s /\
    Forall (fun a => multiplier a = Some s /\ CrossAttentionAdapter_scale a = Ok s)
           (sub_adapters ip) /\
    length (sub_adapters ip) = length cross_attentions.
Proof.
  intros Hlen Hall.
  assert (Hall' : Forall (fun t => unadapted t = true) cross_attentions).
  { rewrite forallb_forall in Hall. apply Forall_forall. intros t Ht.
    apply Hall. by apply list_elem_of_In. }
  destruct (for_each_spec (fun t => unadapted t = true)
              (fun a => multiplier a = Some s /\ CrossAttentionAdapter_scale a = Ok s)
              (fun t => CrossAttentionAdapter_new t s
                          use_timestep_embedding use_pooled_text_embedding)
              cross_attentions) as (subs & Hsubs & Hgood & Hl); [|done|].
  { intros t Ht.
    destruct (fresh_sub_adapter t s use_timestep_embedding
                use_pooled_text_embedding Ht) as (a & Ha & Hm & Hs).
    by exists a. }
  exists (mkIPAdapter subs false). unfold IPAdapter_new. rewrite Hsubs. cbn.
  repeat split; [|done..].
  unfold IPAdapter_scale, getitem. cbn.
  destruct subs as [|a rest]; [cbn in Hl; lia|].
  apply Forall_cons in Hgood as [[_ Ha] _]. by cbn.
Qed.

(** X23.  The constructor returns exactly when every cross-attention
    layer has a scaled dot product below it, the place where the image
    cross-attention is added; it then makes one sub-adapter per layer.
    Otherwise the strict search fails and nothing is built. *)
Theorem adapter_needs_scaled_dot_product {float : Type}
    (cross_attentions : list (Scale.FlModule float)) (s : float)
    (use_timestep_embedding use_pooled_text_embedding : bool) :
  if forallb (fun t => bool_decide (is_Some (find ScaledDotProductAttention t)))
             cross_attentions
  then exists ip,
         IPAdapter_new cross_attentions s
           use_timestep_embedding use_pooled_text_embedding = Ok ip /\
         length (sub_adapters ip) = length cross_attentions
  else IPAdapter_new cross_attentions s
         use_timestep_embedding use_pooled_text_embedding
       = Raise StructuralNotFound.
Proof.
  unfold IPAdapter_new.
  set (f := fun t => CrossAttentionAdapter_new t s
                       use_timestep_embedding use_pooled_text_embedding).
  assert (Hf : forall t,
            if bool_decide (is_Some (find ScaledDotProductAttention t))
            then exists a, f t = Ok a
            else f t = Raise StructuralNotFound).
  { intros t. unfold f, CrossAttentionAdapter_new, ensure_find, ensure_update.
    pose proof (update_tracks ScaledDotProductAttention
                  (fun old => Ok (Node Sum None
                     [old; ImageCrossAttention_new s use_timestep_embedding
                             use_pooled_text_embedding])) t) as Htr.
    unfold tracks in Htr.
    destruct (find ScaledDotProductAttention t) as [sdp|] eqn:Hfind.
    - rewrite bool_decide_true by (by eexists). cbn [of_option Py.bind].
      destruct (update ScaledDotProductAttention _ t) as [[clone|e]|].
      + by eexists.
      + by destruct Htr as (a & _ & Hbad).
      + done.
    - rewrite bool_decide_false by (by intros [? ?]). done. }
  induction cross_attentions as [|t ts IH]; cbn [forallb for_each].
  - by eexists.
  - specialize (Hf t).
    destruct (bool_decide (is_Some (find ScaledDotProductAttention t)));
      cbn [andb].
    + destruct Hf as [a ->]. cbn [Py.bind].
      destruct (forallb _ ts).
      * destruct IH as (ip & Hip & Hlen).
        destruct (for_each f ts) as [subs|e]; [|done]. cbn [Py.bind] in Hip |- *.
        injection Hip as <-. eexists. split; [done|]. cbn in Hlen |- *.
        by rewrite Hlen.
      * destruct (for_each f ts) as [subs|e]; [done|].
        cbn [Py.bind] in IH |- *. done.
    + by rewrite Hf.
Qed.

Lemma set_scale_last_wins_witness :
  IPAdapter_set_scale (/ 2)%R (mkIPAdapter [example_adapter 1%R] true)
  = Ok (mkIPAdapter [example_adapter (/ 2)%R] true) /\
  IPAdapter_set_scale 2%R (mkIPAdapter [example_adapter (/ 2)%R] true)
  = IPAdapter_set_scale 2%R (mkIPAdapter [example_adapter 1%R] true).
Proof.
  split; [reflexivity|].
  apply (set_scale_last_wins (/ 2)%R 2%R
           (mkIPAdapter [example_adapter 1%R] true)
           (mkIPAdapter [example_adapter (/ 2)%R] true)).
  reflexivity.
Defined.

Lemma set_scale_keeps_structure_witness :
  IPAdapter_set_scale (/ 2)%R (mkIPAdapter [example_adapter 1%R] true)
  = Ok (mkIPAdapter [example_adapter (/ 2)%R] true) /\
  map skeleton [example_adapter (/ 2)%R] = map skeleton [example_adapter 1%R] /\
  length [example_adapter (/ 2)%R] = length [example_adapter 1%R] /\
  true = true.
Proof.
  split; [reflexivity|].
  apply (set_scale_keeps_structure (/ 2)%R
           (mkIPAdapter [example_adapter 1%R] true)
           (mkIPAdapter [example_adapter (/ 2)%R] true)).
  reflexivity.
Defined.

Lemma fresh_adapter_has_scale_witness :
  (0 < length [example_attention; example_attention])%nat /\
  forallb unadapted [example_attention; example_attention] = true /\
  exists ip : Scale.IPAdapter R,
    IPAdapter_new [example_attention; example_attention] 1%R false true = Ok ip /\
    IPAdapter_scale ip = Ok 1%R /\
    Forall (fun a => multiplier a = Some 1%R /\
                     CrossAttentionAdapter_scale a = Ok 1%R)
           (sub_adapters ip) /\
    length (sub_adapters ip) = length [example_attention; example_attention].
Proof.
  split; [cbn; lia|]. split; [reflexivity|].
  apply (fresh_adapter_has_scale [example_attention; example_attention]
           1%R false true).
  - cbn; lia.
  - reflexivity.
Defined.

End ScaleEdge.

(** ** Splitting into attention heads and back *)

Module HeadsFacts.
Import Py PyFacts Heads.
Local Open Scope nat_scope.

(** *** Pieces of a vector *)

Lemma length_regroup {A} n size (v : list A) : length (regroup n size v) = n.
Proof. unfold regroup. by rewrite length_fmap, length_seq. Qed.

Lemma lookup_regroup {A} n size (v : list A) h :
  h < n -> regroup n size v !! h = Some (take size (drop (h * size) v)).
Proof.
  intros Hh. unfold regroup. rewrite list_lookup_fmap, lookup_seq_lt by done.
  reflexivity.
Qed.

Lemma regroup_S {A} n size (v : list A) :
  regroup (S n) size v = take size v :: regroup n size (drop size v).
Proof.
  unfold regroup. cbn [seq fmap list_fmap]. f_equal.
  rewrite <- fmap_S_seq, <- list_fmap_compose.
  apply list_fmap_ext. intros i k _. cbn.
  rewrite drop_drop. reflexivity.
Qed.

Lemma concat_regroup {A} n size (v : list A) :
  length v = n * size -> concat (regroup n size v) = v.
Proof.
  revert v. induction n as [|n IH]; intros v Hv.
  - cbn in Hv. by destruct v.
  - rewrite regroup_S. cbn [concat]. rewrite IH.
    + apply take_drop.
    + rewrite length_drop. lia.
Qed.

(** *** Exchanging two axes *)

Lemma transpose_shape {B} c (m : list (list B)) :
  Forall (fun r => length r = c) m ->
  length (transpose c m) = c /\
  Forall (fun col => length col = length m) (transpose c m).
Proof.
  induction 1 as [|row rest Hrow _ [IHlen IHcols]]; cbn [transpose length].
  - split; [apply length_replicate|]. by apply Forall_replicate.
  - split; [rewrite length_zip_with; lia|].
    apply Forall_lookup_2. intros j col Hcol.
    apply lookup_zip_with_Some in Hcol as (a & t & -> & _ & Ht).
    cbn. f_equal. by apply (Forall_lookup_1 _ _ _ _ IHcols Ht).
Qed.

Lemma transpose_columns {B} r (cols : list (list B)) : forall row,
  length row = length cols ->
  Forall (fun col => length col = r) cols ->
  transpose (S r) (zip_with cons row cols) = row :: transpose r cols.
Proof.
  induction cols as [|t cols IH]; intros [|a row] Hlen Hcols;
    try done; cbn in Hlen.
  apply Forall_cons in Hcols as [Ht Hcols].
  cbn [zip_with transpose]. rewrite IH by (done || lia). reflexivity.
Qed.

Lemma transpose_empty_rows {B} c :
  transpose 0 (replicate c (@nil B)) = [].
Proof. by destruct c. Qed.

Lemma transpose_involutive {B} c (m : list (list B)) :
  Forall (fun r => length r = c) m ->
  transpose (length m) (transpose c m) = m.
Proof.
  induction 1 as [|row rest Hrow Hrest IH]; cbn [transpose length].
  - apply transpose_empty_rows.
  - destruct (transpose_shape c rest Hrest) as [Hlen Hcols].
    rewrite transpose_columns by (done || lia). by rewrite IH.
Qed.

(** The entry [i] of the column [j] is the entry [j] of the row [i]. *)
Lemma transpose_lookup {B} c (m : list (list B)) : forall i j row a,
  Forall (fun r => length r = c) m ->
  m !! i = Some row -> row !! j = Some a ->
  exists col, transpose c m !! j = Some col /\ col !! i = Some a.
Proof.
  induction m as [|row0 rest IH]; intros i j row a Hm Hi Hj; [done|].
  apply Forall_cons in Hm as [Hrow0 Hrest].
  destruct (transpose_shape c rest Hrest) as [Hlen _].
  cbn [transpose]. rewrite lookup_zip_with.
  destruct i as [|i]; cbn in Hi.
  - injection Hi as ->. rewrite Hj. cbn.
    assert (Hj' : j < c) by (apply lookup_lt_Some in Hj; lia).
    destruct (lookup_lt_is_Some_2 (transpose c rest) j) as [t Ht]; [lia|].
    rewrite Ht. cbn. by eexists.
  - destruct (IH i j row a Hrest Hi Hj) as (col & Hcol & Ha).
    assert (Hj' : j < length row0).
    { rewrite Hrow0. apply lookup_lt_Some in Hj.
      by rewrite (Forall_lookup_1 _ _ _ _ Hrest Hi) in Hj. }
    destruct (lookup_lt_is_Some_2 row0 j Hj') as [a0 Ha0].
    rewrite Ha0, Hcol. cbn. by eexists.
Qed.

(** *** Shapes *)

Lemma has_shape3_spec {A} bs L C (x : list (list (list A))) :
  has_shape3 bs L C x = true <->
  length x = bs /\
  Forall (fun m => length m = L /\ Forall (fun v => length v = C) m) x.
Proof.
  unfold has_shape3. rewrite andb_true_iff, bool_decide_eq_true.
  apply and_iff_compat_l.
  rewrite forallb_forall, Forall_forall.
  split; intros H m Hm.
  - apply list_elem_of_In, H in Hm. apply andb_true_iff in Hm as [HL HC].
    apply bool_decide_eq_true in HL. split; [done|].
    apply Forall_forall. intros v Hv.
    rewrite forallb_forall in HC. apply list_elem_of_In, HC in Hv.
    by apply bool_decide_eq_true in Hv.
  - apply list_elem_of_In, H in Hm. destruct Hm as [HL HC].
    apply andb_true_iff. split; [by apply bool_decide_eq_true|].
    apply forallb_forall. intros v Hv. apply bool_decide_eq_true.
    rewrite Forall_forall in HC. by apply HC, list_elem_of_In.
Qed.

Lemma shape3_of {A} bs L C (x : list (list (list A))) :
  has_shape3 bs L C x = true -> 0 < bs -> 0 < L -> shape3 x = (bs, L, C).
Proof.
  intros Hx Hbs HL. apply has_shape3_spec in Hx as [Hlen Hall].
  unfold shape3. destruct x as [|m x]; [cbn in Hlen; lia|].
  apply Forall_cons in Hall as [[Hm Hvs] _]. cbn [head default].
  destruct m as [|v m]; [cbn in Hm; lia|].
  apply Forall_cons in Hvs as [Hv _].
  by rewrite <- Hlen, <- Hm, <- Hv.
Qed.

(** The arithmetic of [view] with one size left open. *)
Lemma view_sizes bs L H C :
  0 < bs -> 0 < L -> 0 < H ->
  (bs * L * C) mod (bs * L * H) = bs * L * (C mod H) /\
  (bs * L * C) / (bs * L * H) = C / H.
Proof.
  intros Hbs HL HH. split.
  - apply Nat.Div0.mul_mod_distr_l.
  - apply Nat.Div0.div_mul_cancel_l. nia.
Qed.

(** How [reshape_tensor] runs on a tensor of a known shape. *)
Lemma reshape_tensor_run {A} bs L C H (x : list (list (list A))) :
  has_shape3 bs L C x = true -> 0 < bs -> 0 < L ->
  reshape_tensor H x
  = if bool_decide (0 < H) && bool_decide (C mod H = 0)
    then Ok (transpose H <$> (fmap (regroup H (C / H)) <$> x))
    else Raise RuntimeError.
Proof.
  intros Hx Hbs HL. unfold reshape_tensor.
  rewrite (shape3_of bs L C x Hx Hbs HL).
  destruct (decide (0 < H)) as [HH|HH].
  - destruct (view_sizes bs L H C Hbs HL HH) as [-> ->].
    rewrite (bool_decide_true (0 < bs * L * H)) by nia.
    rewrite (bool_decide_true (0 < H)) by done. cbn [andb].
    destruct (decide (C mod H = 0)) as [Hd|Hd].
    + rewrite !bool_decide_true by (done || nia). reflexivity.
    + rewrite !bool_decide_false by (done || nia). reflexivity.
  - rewrite (bool_decide_false (0 < bs * L * H)) by nia.
    rewrite (bool_decide_false (0 < H)) by done. reflexivity.
Qed.

(** X24.  For a non-empty tensor of shape [batch, length, channels],
    [reshape_tensor] returns exactly when the number of heads is positive
    and divides the number of channels; otherwise [view] raises
    [RuntimeError].  In the result the axes are [batch, head, position]:
    the entry of head [h] at position [l] is the [h]-th piece of
    [channels / num_heads] consecutive channels of the vector at position
    [l]. *)
Theorem reshape_tensor_heads {A} (bs L C H : nat) (x : list (list (list A))) :
  has_shape3 bs L C x = true -> 0 < bs -> 0 < L ->
  if bool_decide (0 < H) && bool_decide (C mod H = 0)
  then exists y,
         reshape_tensor H x = Ok y /\
         length y = bs /\
         forall b l h m v,
           x !! b = Some m -> m !! l = Some v -> h < H ->
           exists heads at_head,
             y !! b = Some heads /\ heads !! h = Some at_head /\
             at_head !! l = Some (take (C / H) (drop (h * (C / H)) v))
  else reshape_tensor H x = Raise RuntimeError.
Proof.
  intros Hx Hbs HL. rewrite (reshape_tensor_run bs L C H x Hx Hbs HL).
  destruct (bool_decide (0 < H) && bool_decide (C mod H = 0)); [|done].
  eexists. split; [done|]. split.
  { rewrite !length_fmap. by apply has_shape3_spec in Hx as [-> _]. }
  intros b l h m v Hb Hl Hh.
  rewrite !list_lookup_fmap, Hb. cbn [fmap option_fmap option_map].
  destruct (transpose_lookup H (regroup H (C / H) <$> m) l h
              (regroup H (C / H) v) (take (C / H) (drop (h * (C / H)) v)))
    as (col & Hcol & Hentry).
  - apply Forall_fmap, Forall_forall. intros w _. cbn. apply length_regroup.
  - by rewrite list_lookup_fmap, Hl.
  - by apply lookup_regroup.
  - by exists (transpose H (regroup H (C / H) <$> m)), col.
Qed.

(** X25.  Splitting into heads and merging again gives the tensor back:
    what [forward] does to the attention before it returns it undoes what
    [reshape_tensor] did to the query. *)
Theorem merge_after_reshape {A} (bs L H D : nat) (x : list (list (list A)))
    (y : list (list (list (list A)))) :
  has_shape3 bs L (H * D) x = true -> 0 < bs -> 0 < L ->
  reshape_tensor H x = Ok y ->
  merge_heads bs L y = Ok x.
Proof.
  intros Hx Hbs HL Hy.
  rewrite (reshape_tensor_run bs L (H * D) H x Hx Hbs HL) in Hy.
  destruct (decide (0 < H)) as [HH|HH];
    [|by rewrite (bool_decide_false (0 < H)) in Hy by done].
  rewrite (bool_decide_true (0 < H)) in Hy by done.
  rewrite bool_decide_true in Hy by (rewrite Nat.mul_comm; apply Nat.Div0.mod_mul).
  cbn [andb] in Hy. injection Hy as <-.
  replace (H * D / H) with D by (rewrite Nat.mul_comm, Nat.div_mul; lia).
  unfold merge_heads. rewrite bool_decide_true by nia. f_equal.
  apply has_shape3_spec in Hx as [_ Hall].
  rewrite <- !list_fmap_compose.
  rewrite <- (list_fmap_id x) at 2.
  apply Forall_fmap_ext_1. eapply Forall_impl; [exact Hall|].
  intros m [Hm Hvs]. cbn.
  assert (Hrows : Forall (fun r => length r = H) (regroup H D <$> m)).
  { apply Forall_fmap, Forall_forall. intros w _. cbn. apply length_regroup. }
  replace L with (length (regroup H D <$> m)) by (by rewrite length_fmap).
  rewrite transpose_involutive by done.
  rewrite <- list_fmap_compose.
  rewrite <- (list_fmap_id m) at 2.
  apply Forall_fmap_ext_1. eapply Forall_impl; [exact Hvs|].
  intros v Hv. cbn. by apply concat_regroup.
Qed.

Lemma reshape_tensor_heads_witness :
  has_shape3 1 2 4 [[[1; 2; 3; 4]; [5; 6; 7; 8]]] = true /\
  0 < 1 /\ 0 < 2 /\
  if bool_decide (0 < 2) && bool_decide (4 mod 2 = 0)
  then exists y,
         reshape_tensor 2 [[[1; 2; 3; 4]; [5; 6; 7; 8]]] = Ok y /\
         length y = 1 /\
         forall b l h m v,
           [[[1; 2; 3; 4]; [5; 6; 7; 8]]] !! b = Some m -> m !! l = Some v ->
           h < 2 ->
           exists heads at_head,
             y !! b = Some heads /\ heads !! h = Some at_head /\
             at_head !! l = Some (take (4 / 2) (drop (h * (4 / 2)) v))
  else reshape_tensor 2 [[[1; 2; 3; 4]; [5; 6; 7; 8]]] = Raise RuntimeError.
Proof.
  split; [reflexivity|]. split; [lia|]. split; [lia|].
  apply (reshape_tensor_heads 1 2 4 2 [[[1; 2; 3; 4]; [5; 6; 7; 8]]]);
    [reflexivity|lia|lia].
Defined.

Lemma merge_after_reshape_witness :
  has_shape3 1 2 (2 * 2) [[[1; 2; 3; 4]; [5; 6; 7; 8]]] = true /\
  0 < 1 /\ 0 < 2 /\
  reshape_tensor 2 [[[1; 2; 3; 4]; [5; 6; 7; 8]]]
  = Ok [[[[1; 2]; [5; 6]]; [[3; 4]; [7; 8]]]] /\
  merge_heads 1 2 [[[[1; 2]; [5; 6]]; [[3; 4]; [7; 8]]]]
  = Ok [[[1; 2; 3; 4]; [5; 6; 7; 8]]].
Proof.
  split; [reflexivity|]. split; [lia|]. split; [lia|]. split; [reflexivity|].
  apply (merge_after_reshape 1 2 2 2 [[[1; 2; 3; 4]; [5; 6; 7; 8]]]
           [[[[1; 2]; [5; 6]]; [[3; 4]; [7; 8]]]]);
    [reflexivity|lia|lia|reflexivity].
Defined.

End HeadsFacts.

(** ** The keys of the weight map *)

Module WeightsKeys.
Import Py PyFacts Weights WeightsFacts.
Local Open Scope nat_scope.

(** *** Prefixes of strings *)

Lemma append_cons (c : ascii) (p k : string) :
  String.append (String c p) k = String c (String.append p k).
Proof. reflexivity. Qed.

Lemma append_empty (k : string) : String.append "" k = k.
Proof. reflexivity. Qed.

Lemma prefix_append (p k : string) : String.prefix p (String.append p k) = true.
Proof.
  induction p as [|c p IH].
  - rewrite append_empty. by destruct k.
  - rewrite append_cons. cbn. by destruct (ascii_dec c c).
Qed.

Lemma prefix_inv (p : string) : forall s,
  String.prefix p s = true -> exists k, s = String.append p k.
Proof.
  induction p as [|c p IH]; intros s Hs.
  - by exists s.
  - destruct s as [|c' s]; [done|]. cbn in Hs.
    destruct (ascii_dec c c') as [<-|]; [|done].
    destruct (IH s Hs) as [k ->]. by exists k.
Qed.

Lemma substring_all (k : string) : String.substring 0 (String.length k) k = k.
Proof. induction k as [|c k IH]; cbn; [done|]. by rewrite IH. Qed.

Lemma removeprefix_append (p k : string) :
  removeprefix (String.append p k) p = k.
Proof.
  unfold removeprefix, startswith. rewrite prefix_append.
  induction p as [|c p IH].
  - rewrite append_empty. cbn [String.length]. rewrite Nat.sub_0_r.
    apply substring_all.
  - rewrite append_cons. cbn. exact IH.
Qed.

Lemma prefix_append_same (p a b : string) :
  String.prefix (String.append p a) (String.append p b) = String.prefix a b.
Proof.
  induction p as [|c p IH]; [done|].
  rewrite !append_cons. cbn. by destruct (ascii_dec c c).
Qed.

(** Two prefixes of one string: one is a prefix of the other. *)
Lemma prefix_comparable (k : string) : forall p q,
  String.prefix p k = true -> String.prefix q k = true ->
  String.prefix p q = true \/ String.prefix q p = true.
Proof.
  induction k as [|c k IH]; intros p q Hp Hq.
  - destruct p; [|done]. left. by destruct q.
  - destruct p as [|a p]; [left; by destruct q|].
    destruct q as [|b q]; [by right|].
    cbn in Hp, Hq |- *.
    destruct (ascii_dec a c) as [->|]; [|done].
    destruct (ascii_dec b c) as [->|]; [|done].
    destruct (ascii_dec c c); [|done]. by apply IH.
Qed.

(** *** The block of a prefix *)

(** X26.  The dictionary built for a prefix holds, under the key [k],
    exactly what the weight map holds under the prefix followed by [k]:
    every entry with the prefix is taken, with the prefix stripped and
    its tensor unchanged, and nothing else is. *)
Theorem block_lookup (p : string) (weights : gmap string Tensor) (k : string) :
  block p weights !! k = weights !! String.append p k.
Proof.
  unfold block.
  set (f := fun kv : string * Tensor =>
              if startswith kv.1 p then Some (removeprefix kv.1 p, kv.2) else None).
  assert (Hin : forall k' v, (k', v) ∈ omap f (map_to_list weights) <->
                             weights !! String.append p k' = Some v).
  { intros k' v. rewrite list_elem_of_omap. split.
    - intros ([k0 v0] & Hk0 & Hf). apply elem_of_map_to_list in Hk0.
      unfold f in Hf. cbn [fst snd] in Hf.
      destruct (startswith k0 p) eqn:Hpre; [|done].
      injection Hf as <- <-.
      destruct (prefix_inv p k0 Hpre) as [rest ->].
      by rewrite removeprefix_append.
    - intros Hv. exists (String.append p k', v). split.
      + by apply elem_of_map_to_list.
      + unfold f, startswith. cbn [fst snd].
        by rewrite prefix_append, removeprefix_append. }
  destruct (weights !! String.append p k) as [v|] eqn:Hv.
  - apply elem_of_list_to_map'.
    + intros v' _ Hv'. apply Hin in Hv'. congruence.
    + by apply Hin.
  - apply not_elem_of_list_to_map_1. rewrite list_elem_of_fmap.
    intros ([k' v'] & -> & Hk'). apply Hin in Hk'. cbn [fst] in Hv. congruence.
Qed.

(** *** The prefixes of the sub-adapters *)

Lemma pad_S (k : nat) :
  String.concat "" (replicate (S k) "0"%string)
  = String "0" (String.concat "" (replicate k "0"%string)).
Proof. by destruct k. Qed.

Lemma uint_of_padded (k : nat) (s : string) d :
  NilEmpty.uint_of_string s = Some d ->
  exists d',
    NilEmpty.uint_of_string
      (String.append (String.concat "" (replicate k "0"%string)) s) = Some d' /\
    Nat.of_uint d' = Nat.of_uint d.
Proof.
  intros Hs. induction k as [|k (d' & Hd' & Hn)].
  - by exists d.
  - exists (Decimal.D0 d'). rewrite pad_S, append_cons.
    cbn [NilEmpty.uint_of_string]. rewrite Hd'. split; [done|].
    rewrite <- Hn. reflexivity.
Qed.

(** A padded index is read back as the index. *)
Lemma decode_format_03d (i : nat) :
  Nat.of_uint <$> NilEmpty.uint_of_string (format_03d i) = Some i.
Proof.
  unfold format_03d.
  destruct (uint_of_padded
              (3 - String.length (NilEmpty.string_of_uint (Nat.to_uint i)))
              _ _ (NilEmpty.usu (Nat.to_uint i))) as (d' & -> & Hn).
  cbn. by rewrite Hn, DecimalNat.Unsigned.of_to.
Qed.

Lemma digits_then_dot (a : string) : forall b,
  is_Some (NilEmpty.uint_of_string a) ->
  is_Some (NilEmpty.uint_of_string b) ->
  String.prefix (String.append a ".") (String.append b ".") = true ->
  a = b.
Proof.
  assert (Hdigit : forall c s,
            is_Some (NilEmpty.uint_of_string (String c s)) ->
            c <> "."%char /\ is_Some (NilEmpty.uint_of_string s)).
  { intros c s [d Hd]. cbn in Hd.
    destruct (NilEmpty.uint_of_string s) as [d0|]; [|done].
    split; [|by eexists]. intros ->. done. }
  induction a as [|c a IH]; intros [|c' b] Ha Hb Hpre;
    rewrite ?append_empty, ?append_cons in Hpre; cbn [String.prefix] in Hpre.
  - done.
  - apply Hdigit in Hb as [Hc' _].
    destruct (ascii_dec "." c') as [<-|]; done.
  - apply Hdigit in Ha as [Hc _].
    destruct (ascii_dec c ".") as [->|]; done.
  - apply Hdigit in Ha as [_ Ha]. apply Hdigit in Hb as [_ Hb].
    destruct (ascii_dec c c') as [<-|]; [|done].
    f_equal. by apply IH.
Qed.

Lemma sub_adapter_prefix_prefix (i j : nat) :
  String.prefix (sub_adapter_prefix i) (sub_adapter_prefix j) = true -> i = j.
Proof.
  unfold sub_adapter_prefix. rewrite prefix_append_same. intros Hpre.
  assert (Hfmt : format_03d i = format_03d j).
  { apply digits_then_dot; [| |done].
    - pose proof (decode_format_03d i) as H.
      destruct (NilEmpty.uint_of_string (format_03d i)); [by eexists|done].
    - pose proof (decode_format_03d j) as H.
      destruct (NilEmpty.uint_of_string (format_03d j)); [by eexists|done]. }
  pose proof (decode_format_03d i) as Hi. rewrite Hfmt, decode_format_03d in Hi.
  congruence.
Qed.

(** X27.  No key of the weight map is read for two blocks: a key
    starts with the prefix of at most one sub-adapter (also beyond index
    999, where the index takes more than three digits), and a key that
    starts with the prefix of a sub-adapter starts neither with
    [image_proj.] nor with [pooled_text_embedding_proj.]. *)
Theorem blocks_are_disjoint (k : string) (i j : nat) :
  startswith k (sub_adapter_prefix i) = true ->
  (startswith k (sub_adapter_prefix j) = true -> i = j) /\
  startswith k "image_proj." = false /\
  startswith k "pooled_text_embedding_proj." = false.
Proof.
  unfold startswith. intros Hi. split; [|split].
  - intros Hj.
    destruct (prefix_comparable k _ _ Hi Hj) as [H|H].
    + by apply sub_adapter_prefix_prefix.
    + symmetry. by apply sub_adapter_prefix_prefix.
  - destruct (prefix_inv _ _ Hi) as [rest ->]. reflexivity.
  - destruct (prefix_inv _ _ Hi) as [rest ->]. reflexivity.
Qed.

Lemma blocks_are_disjoint_witness :
  startswith "ip_adapter.012.to_k.weight" (sub_adapter_prefix 12) = true /\
  (startswith "ip_adapter.012.to_k.weight" (sub_adapter_prefix 12) = true ->
   12 = 12) /\
  startswith "ip_adapter.012.to_k.weight" "image_proj." = false /\
  startswith "ip_adapter.012.to_k.weight" "pooled_text_embedding_proj." = false.
Proof.
  split; [reflexivity|].
  apply (blocks_are_disjoint "ip_adapter.012.to_k.weight" 12 12).
  reflexivity.
Defined.

(** *** Where a tensor of the weight map ends up *)

Lemma lookup_copied (params sd : gmap string Tensor) (k : string) :
  copied params sd !! k
  = (fun p => match sd !! k with
              | Some t => if decide (shape t = shape p) then t else p
              | None => p
              end) <$> params !! k.
Proof.
  unfold copied. rewrite map_lookup_imap.
  destruct (params !! k) as [p|]; [|done]. cbn.
  destruct (sd !! k) as [t|]; [|done]. by destruct (decide _).
Qed.

Lemma no_size_mismatch_lookup (params sd : gmap string Tensor) k p t :
  no_size_mismatch params sd = true ->
  params !! k = Some p -> sd !! k = Some t -> shape t = shape p.
Proof.
  unfold no_size_mismatch. rewrite forallb_forall. intros Hall Hp Ht.
  specialize (Hall (k, p)). cbn [fst snd] in Hall. rewrite Ht in Hall.
  assert (Hin : In (k, p) (map_to_list params))
    by (by apply list_elem_of_In, elem_of_map_to_list).
  apply Hall in Hin. by apply bool_decide_eq_true in Hin.
Qed.

Lemma lookup_copied_sub_adapters weights subs : forall i0 j,
  copied_sub_adapters weights i0 subs !! j
  = (fun params => copied params (block (sub_adapter_prefix (i0 + j)) weights))
      <$> subs !! j.
Proof.
  induction subs as [|params subs IH]; intros i0 j; [done|].
  destruct j as [|j]; cbn [copied_sub_adapters lookup list_lookup].
  - by rewrite Nat.add_0_r.
  - rewrite IH. by replace (S i0 + j) with (i0 + S j) by lia.
Qed.

Lemma shapes_agree_lookup weights subs : forall i0 j params,
  sub_adapter_shapes_agree weights i0 subs = true ->
  subs !! j = Some params ->
  no_size_mismatch params (block (sub_adapter_prefix (i0 + j)) weights) = true.
Proof.
  induction subs as [|p0 subs IH]; intros i0 j params Hall Hj; [done|].
  cbn [sub_adapter_shapes_agree] in Hall.
  apply andb_true_iff in Hall as [H0 Hrest].
  destruct j as [|j]; cbn in Hj.
  - injection Hj as <-. by rewrite Nat.add_0_r.
  - replace (i0 + S j) with (S i0 + j) by lia. by apply IH.
Qed.

(** X29.  After a load that succeeded, with either value of [strict]:
    the parameter [k] of sub-adapter [i] holds the tensor the weight map
    has under [ip_adapter.{i:03d}.k], and its old value when the map has
    no such key.  A parameter [k] of the image projection holds the
    tensor under [image_proj.k] when its shape agrees and its old value
    otherwise: there a tensor of another shape is skipped without an
    error. *)
Theorem loaded_tensor_lands (self self' : Modules) (weights : gmap string Tensor)
    (strict use_pooled_text_embedding : bool) :
  load_weights self (Some weights) strict use_pooled_text_embedding = Ok self' ->
  (forall i params k p,
     sub_adapters self !! i = Some params -> params !! k = Some p ->
     exists params',
       sub_adapters self' !! i = Some params' /\
       params' !! k
       = Some (match weights !! String.append (sub_adapter_prefix i) k with
               | Some t => t
               | None => p
               end)) /\
  (forall k p,
     image_proj self !! k = Some p ->
     image_proj self' !! k
     = Some (match weights !! String.append "image_proj." k with
             | Some t => if decide (shape t = shape p) then t else p
             | None => p
             end)).
Proof.
  unfold load_weights, load_state_dict. rewrite load_sub_adapters_run.
  destruct (sub_adapter_shapes_agree weights 0 (sub_adapters self)) eqn:Hagree;
    cbn [Py.bind]; [|done].
  intros Hload.
  assert (Hself : sub_adapters self'
                  = copied_sub_adapters weights 0 (sub_adapters self) /\
                  image_proj self'
                  = copied (image_proj self) (block "image_proj." weights)).
  { destruct use_pooled_text_embedding; cbn [Py.bind] in Hload.
    - destruct (no_size_mismatch _ _ && _); cbn [Py.bind] in Hload; [|done].
      by injection Hload as <-.
    - by injection Hload as <-. }
  destruct Hself as [Hsubs Hproj]. split.
  - intros i params k p Hi Hk.
    exists (copied params (block (sub_adapter_prefix i) weights)). split.
    + by rewrite Hsubs, lookup_copied_sub_adapters, Hi.
    + rewrite lookup_copied, Hk, block_lookup. cbn [fmap option_fmap option_map].
      destruct (weights !! String.append (sub_adapter_prefix i) k) as [t|] eqn:Ht;
        [|done].
      rewrite decide_True; [done|].
      apply (no_size_mismatch_lookup params
               (block (sub_adapter_prefix i) weights) k p t).
      * by apply (shapes_agree_lookup weights (sub_adapters self) 0 i).
      * done.
      * by rewrite block_lookup.
  - intros k p Hk. by rewrite Hproj, lookup_copied, Hk, block_lookup.
Qed.

Local Abbreviation example_loaded :=
  (mkModules {[ "0.weight"%string := mkTensor [3072; 1024] 0 ]}
             [ {[ "to_k.weight"%string := mkTensor [320; 768] 2 ]} ]
             {[ "1.weight"%string := mkTensor [1280; 768] 4 ]}).

Lemma loaded_tensor_lands_witness :
  load_weights example_modules (Some example_weights) true true
  = Ok example_loaded /\
  (forall i params k p,
     sub_adapters example_modules !! i = Some params -> params !! k = Some p ->
     exists params',
       sub_adapters example_loaded !! i = Some params' /\
       params' !! k
       = Some (match example_weights !! String.append (sub_adapter_prefix i) k with
               | Some t => t
               | None => p
               end)) /\
  (forall k p,
     image_proj example_modules !! k = Some p ->
     image_proj example_loaded !! k
     = Some (match example_weights !! String.append "image_proj." k with
             | Some t => if decide (shape t = shape p) then t else p
             | None => p
             end)).
Proof.
  split; [vm_compute; reflexivity|].
  apply (loaded_tensor_lands example_modules example_loaded example_weights
           true true).
  vm_compute; reflexivity.
Defined.

End WeightsKeys.

(** ** Ejection removes by position *)

Module GraphEdge.
Import Py PyFacts Graph GraphFacts.
Local Open Scope nat_scope.

(** X28.  [IPAdapter.eject] removes whatever is first in the target's
    child list, not the projector as such.  When, between an injection
    with [use_pooled_text_embedding] and the ejection, another module is
    inserted at position 0 of the target, the ejection succeeds, removes
    that module and leaves the projector in the target: every other child
    list and every injection state is as before the injection, but the
    target's child list now starts with the projector. *)
Theorem eject_pops_by_position (ip : IPAdapter) (parg : option oid)
    (s s1 s2 : Store) (z : oid) :
  ready ip parg s = true ->
  use_pooled_text_embedding ip = true ->
  z ∉ own_ids ip ->
  IPAdapter_inject ip parg s = Ok s1 ->
  Chain_insert (target (base ip)) 0 z s1 = Ok s2 ->
  exists s3 l,
    IPAdapter_eject ip s2 = Ok s3 /\
    kids s !! target (base ip) = Some l /\
    kids s3 = <[target (base ip) := pooled_text_embedding_proj ip :: l]> (kids s) /\
    slot_of s3 = slot_of s.
Proof.
  intros Hr Hp Hz Hinj Hins.
  destruct (ready_spec _ _ _ Hr) as (Hnd & Hfresh & Hslot & _ & _ & Hchain).
  assert (Hns := NoDup_subs _ Hnd). assert (Hbs := base_not_sub _ Hnd).
  destruct (Hchain Hp) as [l Hl].
  rewrite IPAdapter_inject_run in Hinj by done. injection Hinj as <-.
  unfold Chain_insert in Hins. cbn [kids slot_of trace] in Hins.
  rewrite lookup_injected_kids, Hl in Hins.
  cbn [fmap option_fmap option_map] in Hins.
  rewrite take_0, drop_0 in Hins. cbn [app] in Hins. injection Hins as <-.
  assert (Hzsubs : z ∉ ident <$> sub_adapters ip).
  { intros Hin. apply Hz. unfold own_ids.
    apply elem_of_app. right. apply elem_of_app. by left. }
  assert (Hproj : pooled_text_embedding_proj ip <> ident (base ip)).
  { intros Heq. assert (Hpa := proj_not_adapter ip parg Hp Hnd).
    apply Hpa. unfold all_adapters. rewrite fmap_app, elem_of_app. right.
    cbn. rewrite Heq. by left. }
  unfold IPAdapter_eject. rewrite Hp.
  rewrite eject_all_run; [|done|].
  2:{ intros a Ha. cbn [slot_of]. unfold injected_slots, mark at 1.
      rewrite lookup_insert_ne.
      - by apply lookup_foldl_mark_in.
      - cbn [ident with_parent]. intros Heq. apply Hbs. rewrite Heq.
        by apply list_elem_of_fmap_2. }
  cbn [Py.bind kids slot_of trace].
  set (T := target (base ip)) in *.
  set (after := fun c lc =>
         foldl (eject_at c)
           (inject_at c (foldl (inject_at c) lc (sub_adapters ip))
                        (with_parent (base ip) parg))
           (sub_adapters ip)).
  set (K2 := <[T := _]> (injected_kids ip parg (kids s))).
  set (K4 := foldl eject_kids K2 (sub_adapters ip)).
  set (F4 := foldl unmark (injected_slots ip parg (slot_of s)) (sub_adapters ip)).
  assert (HK4T : K4 !! T
                 = Some (z :: pooled_text_embedding_proj ip :: after T l)).
  { unfold K4, K2. rewrite lookup_foldl_eject, lookup_insert_eq.
    cbn [fmap option_fmap option_map].
    rewrite foldl_eject_at_cons by done. do 2 f_equal.
    rewrite (prepend_out ip parg s T l) by done.
    unfold prepend_at. rewrite Hp, bool_decide_true by done. reflexivity. }
  assert (HK4c : forall c, T <> c ->
            K4 !! c = after c <$> kids s !! c).
  { intros c Hc. unfold K4, K2.
    rewrite lookup_foldl_eject, lookup_insert_ne by done.
    rewrite lookup_injected_kids.
    destruct (kids s !! c) as [lc|] eqn:Hlc; [|done].
    cbn [fmap option_fmap option_map]. f_equal.
    rewrite (prepend_out ip parg s c lc) by done.
    unfold prepend_at. rewrite Hp, bool_decide_false by done. reflexivity. }
  assert (HF4 : F4 !! ident (base ip) = Some (slot_parent (base ip) parg)).
  { unfold F4. rewrite lookup_foldl_unmark, decide_False by done.
    unfold injected_slots, mark. cbn [ident with_parent parent].
    by rewrite lookup_insert_eq. }
  assert (Hround : forall c lc, kids s !! c = Some lc ->
            eject_at c (after c lc) (with_parent (base ip) parg) = lc).
  { intros c lc Hlc. etrans; [|exact (round_trip_at ip parg s c lc Hr Hlc)].
    unfold after, all_adapters. by rewrite !foldl_snoc. }
  assert (Hflags : unmark F4 (base ip) = slot_of s).
  { unfold F4, injected_slots.
    trans (foldl unmark (foldl mark (slot_of s) (all_adapters ip parg))
                 (all_adapters ip parg)).
    { unfold all_adapters. rewrite !foldl_snoc. reflexivity. }
    apply unmark_mark_all.
    intros a Ha. apply elem_of_app in Ha as [Ha|Ha].
    - apply Hslot. by right.
    - apply list_elem_of_singleton in Ha as ->. apply (Hslot (base ip)). by left. }
  unfold Chain_pop. cbn [kids slot_of trace]. rewrite HK4T.
  cbn [lookup list_lookup Py.bind delete list_delete].
  rewrite (Adapter_eject_run _ (slot_parent (base ip) parg)) by exact HF4.
  cbn [kids slot_of trace].
  eexists _, l. split; [reflexivity|]. split; [done|].
  cbn [kids slot_of]. split; [|exact Hflags].
  apply map_eq. intros c.
  rewrite lookup_replace_in, !lookup_insert.
  destruct (decide (T = c)) as [<-|Hc].
  - cbn [fmap option_fmap option_map]. f_equal.
    specialize (Hround T l Hl). unfold eject_at in Hround.
    cbn [parent ident target with_parent] in Hround.
    destruct (decide (slot_parent (base ip) parg = Some T)); [|by rewrite Hround].
    rewrite replace_first_cons by done. by rewrite Hround.
  - rewrite (HK4c c Hc).
    destruct (kids s !! c) as [lc|] eqn:Hlc; [|done].
    cbn [fmap option_fmap option_map]. f_equal.
    exact (Hround c lc Hlc).
Qed.

Lemma eject_pops_by_position_witness :
  ready example_ip None example_store = true /\
  use_pooled_text_embedding example_ip = true /\
  (99 ∉ own_ids example_ip) /\
  IPAdapter_inject example_ip None example_store = Ok example_injected /\
  Chain_insert (target (base example_ip)) 0 99 example_injected
  = Ok (mkStore (<[2 := [99; 13; 3; 4]]> (kids example_injected))
                (slot_of example_injected)
                (trace example_injected ++ [Inserted 2 0 99])) /\
  exists s3 l,
    IPAdapter_eject example_ip
      (mkStore (<[2 := [99; 13; 3; 4]]> (kids example_injected))
               (slot_of example_injected)
               (trace example_injected ++ [Inserted 2 0 99])) = Ok s3 /\
    kids example_store !! target (base example_ip) = Some l /\
    kids s3 = <[target (base example_ip) :=
                  pooled_text_embedding_proj example_ip :: l]> (kids example_store) /\
    slot_of s3 = slot_of example_store.
Proof.
  split; [vm_compute; reflexivity|]. split; [reflexivity|].
  split; [apply (bool_decide_unpack _); vm_compute; exact I|].
  split; [vm_compute; reflexivity|]. split; [vm_compute; reflexivity|].
  apply (eject_pops_by_position example_ip None example_store example_injected _ 99).
  - vm_compute; reflexivity.
  - reflexivity.
  - apply (bool_decide_unpack _); vm_compute; exact I.
  - vm_compute; reflexivity.
  - vm_compute; reflexivity.
Defined.

End GraphEdge.
